(** * StoryGet: heuristic story extraction and link crawling

    A shallow embedding of the two scraper engines
    ([enhanced-scraper-v2.js], [enhanced-scraper-v3.js]) together with the
    properties of their extraction and crawl logic.

    JavaScript strings are sequences of UTF-16 code units; regular
    expressions are interpreted by a small backtracking matcher that follows
    the ECMAScript matching order; the rendered page is a concrete DOM tree
    queried through a small CSS selector interpreter; the SQLite table is a
    list of rows; the browser is a function from URLs to pages. *)

From Stdlib Require Import List Bool Arith ZArith NArith Lia String Ascii.
From Stdlib Require QArith.
Import ListNotations.

Set Implicit Arguments.

(* ================================================================== *)
(** * JavaScript strings *)
(* ================================================================== *)

Module JS.

(** A UTF-16 code unit. *)
Definition char := N.

(** A JavaScript string. *)
Definition jsstring := list char.

(** ASCII literals of the source text. *)
Definition lit (s : string) : jsstring :=
  List.map N_of_ascii (list_ascii_of_string s).

Definition char_eqb (a b : char) : bool := N.eqb a b.

Fixpoint str_eqb (a b : jsstring) : bool :=
  match a, b with
  | [], [] => true
  | x :: a', y :: b' => char_eqb x y && str_eqb a' b'
  | _, _ => false
  end.

Definition one_of (cs : list char) (c : char) : bool :=
  existsb (char_eqb c) cs.

Definition in_range (lo hi : N) (c : char) : bool :=
  (N.leb lo c && N.leb c hi)%bool.

(** ECMAScript LineTerminator: LF, CR, LS, PS. *)
Definition isLineTerminator (c : char) : bool :=
  one_of [10; 13; 8232; 8233]%N c.

(** ECMAScript [\s] (WhiteSpace and LineTerminator); also the set stripped
    by [String.prototype.trim]. *)
Definition isSpace (c : char) : bool :=
  (in_range 9 13 c || one_of [32; 160; 5760; 8232; 8233; 8239; 8287; 12288; 65279]%N c
   || in_range 8192 8202 c)%bool.

(** [\d] *)
Definition isDigit (c : char) : bool := in_range 48 57 c.

(** [.] without the [s] flag. *)
Definition isDot (c : char) : bool := negb (isLineTerminator c).

Definition isAsciiUpper (c : char) : bool := in_range 65 90 c.
Definition isAsciiLower (c : char) : bool := in_range 97 122 c.

(** Canonicalisation used by the [i] flag without the [u] flag: a code unit
    is compared through its upper-case form, and no code unit at or above
    128 is mapped below 128, so an ASCII letter of a pattern matches exactly
    its two ASCII cases. *)
Definition asciiUpper (c : char) : char :=
  if isAsciiLower c then (c - 32)%N else c.

Definition asciiLower (c : char) : char :=
  if isAsciiUpper c then (c + 32)%N else c.

Fixpoint dropWhile (p : char -> bool) (s : jsstring) : jsstring :=
  match s with
  | [] => []
  | c :: s' => if p c then dropWhile p s' else s
  end.

Definition trimStart (s : jsstring) : jsstring := dropWhile isSpace s.
Definition trimEnd (s : jsstring) : jsstring := rev (dropWhile isSpace (rev s)).

(** [String.prototype.trim] *)
Definition trim (s : jsstring) : jsstring := trimEnd (trimStart s).

Fixpoint startsWith (p s : jsstring) : bool :=
  match p, s with
  | [], _ => true
  | x :: p', y :: s' => char_eqb x y && startsWith p' s'
  | _ :: _, [] => false
  end.

(** [String.prototype.includes] *)
Fixpoint includes (s sub : jsstring) : bool :=
  (startsWith sub s ||
   match s with
   | [] => false
   | _ :: s' => includes s' sub
   end)%bool.

(** [Array.prototype.includes] on an array of strings. *)
Definition arrayIncludes (l : list jsstring) (x : jsstring) : bool :=
  existsb (str_eqb x) l.

(** [s.split(sep)] for a separator of one code unit. *)
Fixpoint splitChar (sep : char) (cur : jsstring) (s : jsstring) : list jsstring :=
  match s with
  | [] => [cur]
  | c :: s' =>
      if char_eqb c sep then cur :: splitChar sep [] s'
      else splitChar sep (cur ++ [c]) s'
  end.

(** [Array.prototype.join] *)
Fixpoint join (sep : jsstring) (l : list jsstring) : jsstring :=
  match l with
  | [] => []
  | [x] => x
  | x :: l' => x ++ sep ++ join sep l'
  end.

(** Truthiness of a string: the empty string is falsy. *)
Definition truthy (s : jsstring) : bool :=
  match s with [] => false | _ => true end.

(** [Array.prototype.slice(0, n)] *)
Definition slice0 (A : Type) (n : Z) (l : list A) : list A :=
  if (n <? 0)%Z then firstn (Z.to_nat (Z.of_nat (List.length l) + n)) l
  else firstn (Z.to_nat n) l.

(** The distinct elements of a list in the order of their first
    occurrence. *)
Fixpoint firstOccurrences (l : list jsstring) : list jsstring :=
  match l with
  | [] => []
  | x :: l' => x :: List.filter (fun y => negb (str_eqb y x)) (firstOccurrences l')
  end.

(** ** [Map] with string keys

    A [Map] remembers the order in which its keys were first inserted;
    setting a key that is present changes its value where it stands. *)
Section JSMap.
Variable V : Type.

Definition JSMap : Type := list (jsstring * V).

Fixpoint map_set (k : jsstring) (v : V) (m : JSMap) : JSMap :=
  match m with
  | [] => [(k, v)]
  | (k', v') :: m' =>
      if str_eqb k' k then (k', v) :: m'
      else (k', v') :: map_set k v m'
  end.

(** [new Map(entries)] *)
Definition newMap (entries : list (jsstring * V)) : JSMap :=
  fold_left (fun m kv => map_set (fst kv) (snd kv) m) entries [].

(** [[...m.values()]] *)
Definition values (m : JSMap) : list V := List.map snd m.

(** [[...m.keys()]] *)
Definition keys (m : JSMap) : list jsstring := List.map fst m.

(** [m.get(k)] *)
Fixpoint map_get (k : jsstring) (m : JSMap) : option V :=
  match m with
  | [] => None
  | (k', v') :: m' => if str_eqb k' k then Some v' else map_get k m'
  end.

(** The entries added one after the other to a map. *)
Definition build (entries : list (jsstring * V)) (m : JSMap) : JSMap :=
  fold_left (fun m kv => map_set (fst kv) (snd kv) m) entries m.

(** The last value a list of entries gives to a key. *)
Definition lastValue (k : jsstring) (entries : list (jsstring * V))
  : option V :=
  option_map snd (List.find (fun kv => str_eqb (fst kv) k) (rev entries)).
End JSMap.

(** The idiom [[...new Map(l.map(x => [key(x), x])).values()]]. *)
Section UniqueBy.
Variable A : Type.
Variable key : A -> jsstring.

Definition keyed (l : list A) : list (jsstring * A) :=
  List.map (fun x => (key x, x)) l.

Definition uniqueBy (l : list A) : list A := values (newMap (keyed l)).

(** The first and the last element of a list with a given key. *)
Definition firstWith (u : jsstring) (l : list A) : option A :=
  List.find (fun x => str_eqb (key x) u) l.

Definition lastWith (u : jsstring) (l : list A) : option A :=
  firstWith u (rev l).
End UniqueBy.

End JS.
Import JS.

(* ================================================================== *)
(** * Regular expressions *)
(* ================================================================== *)

Module Regex.

(** The fragment of the ECMAScript pattern language the scrapers use.
    Quantifiers are greedy and only ever applied to a character class. *)
Inductive regex : Type :=
| Eps
| Chr (p : char -> bool)
| Bol
| Eol
| Seq (r1 r2 : regex)
| Alt (r1 r2 : regex)
| Star (p : char -> bool)
| Rep (p : char -> bool) (lo extra : nat).

Definition Plus (p : char -> bool) : regex := Seq (Chr p) (Star p).
Definition Opt (r : regex) : regex := Alt r Eps.

Definition chr (c : char) : char -> bool := char_eqb c.
Definition chr_i (c : char) : char -> bool :=
  fun x => char_eqb (asciiUpper x) (asciiUpper c).

Fixpoint seq_of (f : char -> char -> bool) (s : jsstring) : regex :=
  match s with
  | [] => Eps
  | [c] => Chr (f c)
  | c :: s' => Seq (Chr (f c)) (seq_of f s')
  end.

(** A literal, and a literal under the [i] flag. *)
Definition str (s : string) : regex := seq_of chr (lit s).
Definition str_i (s : string) : regex := seq_of chr_i (lit s).

Fixpoint alts (l : list regex) : regex :=
  match l with
  | [] => Eps
  | [r] => r
  | r :: l' => Alt r (alts l')
  end.

Fixpoint seqs (l : list regex) : regex :=
  match l with
  | [] => Eps
  | [r] => r
  | r :: l' => Seq r (seqs l')
  end.

Section Matcher.
Variable R : Type.
(** Length of the whole subject, to recognise the start of input. *)
Variable n0 : nat.

Fixpoint star (p : char -> bool) (k : jsstring -> option R) (s : jsstring)
  : option R :=
  match s with
  | c :: s' =>
      if p c then
        match star p k s' with
        | Some x => Some x
        | None => k s
        end
      else k s
  | [] => k s
  end.

(** [p{lo, lo+extra}], greedy. *)
Fixpoint rep (p : char -> bool) (lo extra : nat) (k : jsstring -> option R)
  (s : jsstring) : option R :=
  match lo with
  | S lo' =>
      match s with
      | c :: s' => if p c then rep p lo' extra k s' else None
      | [] => None
      end
  | O =>
      (fix more (extra : nat) (s : jsstring) : option R :=
         match extra with
         | O => k s
         | S e =>
             match s with
             | c :: s' =>
                 if p c then
                   match more e s' with
                   | Some x => Some x
                   | None => k s
                   end
                 else k s
             | [] => k s
             end
         end) extra s
  end.

(** Backtracking matcher in continuation-passing style: [rmatch r s k]
    matches [r] at the front of [s] and hands the unconsumed suffix to
    [k]; a failing continuation makes the matcher try its next choice. *)
Fixpoint rmatch (r : regex) (s : jsstring) (k : jsstring -> option R)
  : option R :=
  match r with
  | Eps => k s
  | Chr p =>
      match s with
      | c :: s' => if p c then k s' else None
      | [] => None
      end
  | Bol => if Nat.eqb (List.length s) n0 then k s else None
  | Eol => match s with [] => k s | _ :: _ => None end
  | Seq r1 r2 => rmatch r1 s (fun s' => rmatch r2 s' k)
  | Alt r1 r2 =>
      match rmatch r1 s k with
      | Some x => Some x
      | None => rmatch r2 s k
      end
  | Star p => star p k s
  | Rep p lo extra => rep p lo extra k s
  end.
End Matcher.

(** Match [r] at the front of the suffix [s] of a subject of length [n0];
    the result is the suffix left after the match. *)
Definition matchAt (n0 : nat) (r : regex) (s : jsstring) : option jsstring :=
  rmatch n0 r s (fun s' => Some s').

(** Leftmost match: the text before the match and the text after it. *)
Fixpoint search (n0 : nat) (r : regex) (pre s : jsstring)
  : option (jsstring * jsstring) :=
  match matchAt n0 r s with
  | Some rest => Some (pre, rest)
  | None =>
      match s with
      | [] => None
      | c :: s' => search n0 r (pre ++ [c]) s'
      end
  end.

(** [RegExp.prototype.exec] without the [g] flag. *)
Definition exec (r : regex) (s : jsstring) : option (jsstring * jsstring) :=
  search (List.length s) r [] s.

(** [s.match(/pre(cap)post/)[1]] for a pattern without the [g] flag: the
    text captured by the group of the leftmost match. *)
Definition captureAt (n0 : nat) (pre cap post : regex) (s : jsstring)
  : option jsstring :=
  rmatch n0 pre s (fun s1 =>
    rmatch n0 cap s1 (fun s2 =>
      rmatch n0 post s2 (fun _ =>
        Some (firstn (List.length s1 - List.length s2) s1)))).

Fixpoint searchCapture (n0 : nat) (pre cap post : regex) (s : jsstring)
  : option jsstring :=
  match captureAt n0 pre cap post s with
  | Some c => Some c
  | None =>
      match s with
      | [] => None
      | _ :: s' => searchCapture n0 pre cap post s'
      end
  end.

Definition capture (pre cap post : regex) (s : jsstring) : option jsstring :=
  searchCapture (List.length s) pre cap post s.

(** [RegExp.prototype.test] *)
Definition test (r : regex) (s : jsstring) : bool :=
  match exec r s with Some _ => true | None => false end.

(** [s.replace(r, by)] for a pattern without the [g] flag and a replacement
    without [$] references. *)
Definition replace (r : regex) (by_ : jsstring) (s : jsstring) : jsstring :=
  match exec r s with
  | Some (pre, post) => pre ++ by_ ++ post
  | None => s
  end.

(** [s.replace(r, by)] for a pattern with the [g] flag.  [skip] counts the
    code units of the current match that are still to be passed over. *)
Fixpoint replaceAll_go (n0 : nat) (r : regex) (by_ : jsstring) (skip : nat)
  (s : jsstring) : jsstring :=
  match s with
  | [] =>
      match matchAt n0 r [] with
      | Some _ => by_
      | None => []
      end
  | c :: s' =>
      match skip with
      | S n => replaceAll_go n0 r by_ n s'
      | O =>
          match matchAt n0 r s with
          | Some rest =>
              match List.length s - List.length rest with
              | O => by_ ++ c :: replaceAll_go n0 r by_ 0 s'
              | S n => by_ ++ replaceAll_go n0 r by_ n s'
              end
          | None => c :: replaceAll_go n0 r by_ 0 s'
          end
      end
  end.

Definition replaceAll (r : regex) (by_ : jsstring) (s : jsstring) : jsstring :=
  replaceAll_go (List.length s) r by_ 0 s.

(** [s.split(r)]: the pieces between the matches of [r].  [cur] is the
    piece being collected and [skip] counts the code units of the current
    separator that are still to be passed over. *)
Fixpoint split_go (n0 : nat) (r : regex) (skip : nat) (cur : jsstring)
  (s : jsstring) : list jsstring :=
  match s with
  | [] => [cur]
  | c :: s' =>
      match skip with
      | S n => split_go n0 r n [] s'
      | O =>
          match matchAt n0 r s with
          | Some rest =>
              match List.length s - List.length rest, cur with
              | O, [] => split_go n0 r 0 [c] s'
              | O, _ :: _ => cur :: split_go n0 r 0 [c] s'
              | S n, _ => cur :: split_go n0 r n [] s'
              end
          | None => split_go n0 r 0 (cur ++ [c]) s'
          end
      end
  end.

Definition split (r : regex) (s : jsstring) : list jsstring :=
  match s with
  | [] =>
      match matchAt 0 r [] with
      | Some _ => []
      | None => [[]]
      end
  | _ :: _ => split_go (List.length s) r 0 [] s
  end.

(** ** What a pattern denotes

    [denotes n0 r m rest]: inside a subject of length [n0], the pattern
    [r] can match the text [m] when [rest] is what follows it. *)
Fixpoint denotes (n0 : nat) (r : regex) (m rest : jsstring) : Prop :=
  match r with
  | Eps => m = []
  | Chr p => exists c, m = [c] /\ p c = true
  | Bol => m = [] /\ List.length rest = n0
  | Eol => m = [] /\ rest = []
  | Seq r1 r2 =>
      exists m1 m2,
        m = m1 ++ m2 /\ denotes n0 r1 m1 (m2 ++ rest) /\ denotes n0 r2 m2 rest
  | Alt r1 r2 => denotes n0 r1 m rest \/ denotes n0 r2 m rest
  | Star p => Forall (fun c => p c = true) m
  | Rep p lo extra =>
      Forall (fun c => p c = true) m
      /\ lo <= List.length m /\ List.length m <= lo + extra
  end.

(** The least number of code units a match of the pattern takes. *)
Fixpoint min_len (r : regex) : nat :=
  match r with
  | Eps | Bol | Eol | Star _ => 0
  | Chr _ => 1
  | Seq r1 r2 => min_len r1 + min_len r2
  | Alt r1 r2 => Nat.min (min_len r1) (min_len r2)
  | Rep _ lo _ => lo
  end.

End Regex.
Import Regex.

(* ================================================================== *)
(** * What the engines take from their platform *)
(* ================================================================== *)

(** The built-ins whose behaviour is fixed by the JavaScript runtime and not
    by this program.  [URL_href href base] is [new URL(href, base).href] and
    [URL_hostname u] is [new URL(u).hostname]; both are [None] when the
    constructor throws. *)
Class Platform : Type := {
  toLowerCase : jsstring -> jsstring;
  URL_href : jsstring -> jsstring -> option jsstring;
  URL_hostname : jsstring -> option jsstring
}.

(* ================================================================== *)
(** * The rendered page: a DOM tree and cheerio's queries *)
(* ================================================================== *)

Module Dom.

#[local] Set Warnings "-register-all".

Inductive node : Type :=
| Text (data : jsstring)
| Elem (tag : jsstring) (attrs : list (jsstring * jsstring)) (children : list node).

(** The handle [$] returned by [cheerio.load(html)]: the top-level nodes. *)
Definition DocumentTree := list node.

Fixpoint lookup (name : jsstring) (attrs : list (jsstring * jsstring))
  : option jsstring :=
  match attrs with
  | [] => None
  | (k, v) :: attrs' => if str_eqb k name then Some v else lookup name attrs'
  end.

(** [$el.attr(name)] *)
Definition attr (name : string) (n : node) : option jsstring :=
  match n with
  | Text _ => None
  | Elem _ attrs _ => lookup (lit name) attrs
  end.

(** [$el.text()]: the text of all descendants, in document order. *)
Fixpoint text (n : node) : jsstring :=
  match n with
  | Text d => d
  | Elem _ _ kids =>
      (fix go (l : list node) : jsstring :=
         match l with
         | [] => []
         | k :: l' => text k ++ go l'
         end) kids
  end.

(** ** Selectors *)

(** One compound selector: [tag#id.class1.class2[attr][attr=value]]. *)
Record compound : Type := {
  sel_tag : option jsstring;
  sel_id : option jsstring;
  sel_classes : list jsstring;
  sel_attrs : list (jsstring * option jsstring)
}.

(** A selector: a comma-separated list of descendant chains, each chain
    written outermost compound first. *)
Definition selector := list (list compound).

Definition any : compound :=
  {| sel_tag := None; sel_id := None; sel_classes := []; sel_attrs := [] |}.

Inductive pmode : Type :=
| PTag | PClass | PId | PAttr | PAttrVal (name : jsstring).

Definition flush (m : pmode) (cur : jsstring) (c : compound) : compound :=
  match m, cur with
  | PTag, [] | PClass, [] | PId, [] | PAttr, [] => c
  | PTag, _ =>
      {| sel_tag := Some cur; sel_id := sel_id c;
         sel_classes := sel_classes c; sel_attrs := sel_attrs c |}
  | PClass, _ =>
      {| sel_tag := sel_tag c; sel_id := sel_id c;
         sel_classes := sel_classes c ++ [cur]; sel_attrs := sel_attrs c |}
  | PId, _ =>
      {| sel_tag := sel_tag c; sel_id := Some cur;
         sel_classes := sel_classes c; sel_attrs := sel_attrs c |}
  | PAttr, _ =>
      {| sel_tag := sel_tag c; sel_id := sel_id c;
         sel_classes := sel_classes c; sel_attrs := sel_attrs c ++ [(cur, None)] |}
  | PAttrVal name, _ =>
      {| sel_tag := sel_tag c; sel_id := sel_id c;
         sel_classes := sel_classes c;
         sel_attrs := sel_attrs c ++ [(name, Some cur)] |}
  end.

Definition in_brackets (m : pmode) : bool :=
  match m with PAttr | PAttrVal _ => true | _ => false end.

(** Reads one compound selector of the selector strings of the source
    ([h1.title], [#content], [a[href]], [meta[name=author]]). *)
Fixpoint parse_compound (m : pmode) (cur : jsstring) (c : compound)
  (s : jsstring) : compound :=
  match s with
  | [] => flush m cur c
  | x :: s' =>
      if in_brackets m then
        if char_eqb x 93%N (* ] *) then parse_compound PTag [] (flush m cur c) s'
        else if char_eqb x 61%N (* = *) then parse_compound (PAttrVal cur) [] c s'
        else parse_compound m (cur ++ [x]) c s'
      else if char_eqb x 46%N (* . *) then parse_compound PClass [] (flush m cur c) s'
      else if char_eqb x 35%N (* # *) then parse_compound PId [] (flush m cur c) s'
      else if char_eqb x 91%N (* [ *) then parse_compound PAttr [] (flush m cur c) s'
      else parse_compound m (cur ++ [x]) c s'
  end.

Definition parse_chain (s : jsstring) : list compound :=
  List.map (parse_compound PTag [] any)
    (List.filter truthy (splitChar 32%N [] s)).

(** The selector denoted by a selector string of the source. *)
Definition sel (s : string) : selector :=
  List.map parse_chain (splitChar 44%N [] (lit s)).

(** What a compound selector looks at: the tag and the attributes. *)
Definition einfo : Type := (jsstring * list (jsstring * jsstring))%type.

Definition opt_eqb (o : option jsstring) (v : jsstring) : bool :=
  match o with
  | Some x => str_eqb x v
  | None => false
  end.

(** The class names of an element: the whitespace-separated words of its
    [class] attribute. *)
Definition classes_of (e : einfo) : list jsstring :=
  match lookup (lit "class") (snd e) with
  | Some v => split (Plus isSpace) v
  | None => []
  end.

(** The attributes whose value an attribute selector compares without
    regard to case in an HTML document (the selector engine's
    [caseInsensitiveAttributes]). *)
Definition caseInsensitiveAttributes : list string :=
  ["accept"; "accept-charset"; "align"; "alink"; "axis"; "bgcolor";
   "charset"; "checked"; "clear"; "codetype"; "color"; "compact";
   "declare"; "defer"; "dir"; "direction"; "disabled"; "enctype"; "face";
   "frame"; "hreflang"; "http-equiv"; "lang"; "language"; "link"; "media";
   "method"; "multiple"; "nohref"; "noresize"; "noshade"; "nowrap";
   "readonly"; "rel"; "rev"; "rules"; "scope"; "scrolling"; "selected";
   "shape"; "target"; "text"; "type"; "valign"; "valuetype"; "vlink"]%string.

(** A selected element together with its parent element, if it has one. *)
Record hit : Type := { h_elem : node; h_parent : option node }.

Section WithPlatform.
Context {P : Platform}.

(** [[name=v]] against the value [x] of the attribute: for an attribute of
    the list above
    [x.length === v.toLowerCase().length && x.toLowerCase() === v.toLowerCase()],
    for any other [x === v]. *)
Definition attr_eqb (name x v : jsstring) : bool :=
  if arrayIncludes (List.map lit caseInsensitiveAttributes) name
  then (Nat.eqb (List.length x) (List.length (toLowerCase v))
        && str_eqb (toLowerCase x) (toLowerCase v))%bool
  else str_eqb x v.

Definition matches_compound (c : compound) (e : einfo) : bool :=
  (match sel_tag c with Some t => str_eqb t (fst e) | None => true end
   && match sel_id c with Some i => opt_eqb (lookup (lit "id") (snd e)) i | None => true end
   && forallb (arrayIncludes (classes_of e)) (sel_classes c)
   && forallb (fun av =>
                 match lookup (fst av) (snd e), snd av with
                 | Some _, None => true
                 | Some x, Some v => attr_eqb (fst av) x v
                 | None, _ => false
                 end) (sel_attrs c))%bool.

(** The outer compounds of a chain (innermost first) against the ancestors
    (nearest first). *)
Fixpoint matches_ancestors (chain : list compound) (ancs : list einfo) : bool :=
  match chain with
  | [] => true
  | c :: chain' =>
      match ancs with
      | [] => false
      | a :: ancs' =>
          if matches_compound c a then matches_ancestors chain' ancs'
          else matches_ancestors chain ancs'
      end
  end.

Definition matches_chain (chain : list compound) (ancs : list einfo) (e : einfo)
  : bool :=
  match rev chain with
  | [] => false
  | c :: outer => (matches_compound c e && matches_ancestors outer ancs)%bool
  end.

Definition matches (s : selector) (ancs : list einfo) (e : einfo) : bool :=
  existsb (fun chain => matches_chain chain ancs e) s.

Fixpoint select_node (s : selector) (ancs : list einfo) (parent : option node)
  (n : node) : list hit :=
  match n with
  | Text _ => []
  | Elem t a kids =>
      (if matches s ancs (t, a)
       then [{| h_elem := n; h_parent := parent |}] else [])
      ++ (fix go (l : list node) : list hit :=
            match l with
            | [] => []
            | k :: l' => select_node s ((t, a) :: ancs) (Some n) k ++ go l'
            end) kids
  end.

(** [$(selector)]: the matching elements in document order. *)
Definition select (s : string) (doc : DocumentTree) : list hit :=
  flat_map (select_node (sel s) [] None) doc.

(** [$el.find(selector)] *)
Definition find (s : string) (n : node) : list hit :=
  match n with
  | Text _ => []
  | Elem t a kids => flat_map (select_node (sel s) [(t, a)] (Some n)) kids
  end.

(** [.first()] *)
Definition first (l : list hit) : option hit := hd_error l.

(** [.text()] of a collection: the texts of its elements, concatenated. *)
Definition textAll (l : list hit) : jsstring :=
  flat_map (fun h => text (h_elem h)) l.

(** [$el.parent().text()]; a top-level element has no parent element. *)
Definition parentText (h : hit) : jsstring :=
  match h_parent h with
  | Some p => text p
  | None => []
  end.

Fixpoint remove_node (s : selector) (ancs : list einfo) (n : node) : option node :=
  match n with
  | Text _ => Some n
  | Elem t a kids =>
      if matches s ancs (t, a) then None
      else Some (Elem t a
        ((fix go (l : list node) : list node :=
            match l with
            | [] => []
            | k :: l' =>
                match remove_node s ((t, a) :: ancs) k with
                | Some k' => k' :: go l'
                | None => go l'
                end
            end) kids))
  end.

(** [$(selector).remove()] *)
Definition remove (s : string) (doc : DocumentTree) : DocumentTree :=
  flat_map (fun n => match remove_node (sel s) [] n with
                     | Some n' => [n']
                     | None => []
                     end) doc.

End WithPlatform.

End Dom.
Import Dom.

(** The headless browser: the rendered page behind a URL, or [None] when
    navigation fails. *)
Definition Web : Type := jsstring -> option DocumentTree.

(* ================================================================== *)
(** * The [stories] table *)
(* ================================================================== *)

Module Store.

(** A row of [stories]; [url] carries a UNIQUE constraint and [id] is
    INTEGER PRIMARY KEY AUTOINCREMENT. *)
Record row : Type := {
  id : Z;
  url : jsstring;
  title : jsstring;
  content : jsstring;
  author : option jsstring;
  word_count : nat;
  domain : jsstring
}.

(** The table and the largest id handed out so far. *)
Record Database : Type := { rows : list row; last_id : Z }.

(** The table right after [CREATE TABLE stories]. *)
Definition created : Database := {| rows := []; last_id := 0 |}.

Definition has_url (u : jsstring) (r : row) : bool := str_eqb (url r) u.

(** [SELECT * FROM stories WHERE url = ?] through [db.get]: the first row. *)
Definition getStoryByUrl (u : jsstring) (d : Database) : option row :=
  List.find (has_url u) (rows d).

(** [DELETE FROM stories WHERE url = ?]; also the number of deleted rows. *)
Definition deleteStoryByUrl (u : jsstring) (d : Database) : nat * Database :=
  (List.length (List.filter (has_url u) (rows d)),
   {| rows := List.filter (fun r => negb (has_url u r)) (rows d);
      last_id := last_id d |}).

(** [INSERT OR REPLACE INTO stories (url, title, content, author,
    word_count, domain) VALUES (...)]: the rows that would violate the
    UNIQUE constraint on [url] are deleted, then the new row is inserted
    under a fresh id. *)
Definition insertOrReplace (u t c : jsstring) (a : option jsstring)
  (wc : nat) (dom : jsstring) (d : Database) : Database :=
  let i := (last_id d + 1)%Z in
  {| rows := List.filter (fun r => negb (has_url u r)) (rows d)
             ++ [{| id := i; url := u; title := t; content := c; author := a;
                    word_count := wc; domain := dom |}];
     last_id := i |}.

(** [INSERT INTO stories (...) VALUES (...)]: fails on a row that would
    violate the UNIQUE constraint. *)
Definition insert (u t c : jsstring) (a : option jsstring)
  (wc : nat) (dom : jsstring) (d : Database) : option (Z * Database) :=
  if existsb (has_url u) (rows d) then None
  else
    let i := (last_id d + 1)%Z in
    Some (i, {| rows := rows d
                 ++ [{| id := i; url := u; title := t; content := c;
                        author := a; word_count := wc; domain := dom |}];
                last_id := i |}).

End Store.

(* ================================================================== *)
(** * The state of a run and the monad of the asynchronous methods *)
(* ================================================================== *)

(** What a run of the scraper changes: the table, and the list of pages the
    browser was asked to open, oldest first. *)
Record World : Type := { db : Store.Database; visited : list jsstring }.

(** An [async] method: it reads and changes the world and either resolves
    with a value or rejects. *)
Definition M (A : Type) : Type := World -> option A * World.

Definition ret {A : Type} (a : A) : M A := fun w => (Some a, w).

Definition throw {A : Type} : M A := fun w => (None, w).

Definition bind {A B : Type} (m : M A) (f : A -> M B) : M B :=
  fun w =>
    match m w with
    | (Some a, w') => f a w'
    | (None, w') => (None, w')
    end.

Notation "x <- m ;; k" := (bind m (fun x => k))
  (at level 61, m at next level, right associativity).

(** [try { m } catch { h }] *)
Definition try_catch {A : Type} (m : M A) (h : M A) : M A :=
  fun w =>
    match m w with
    | (Some a, w') => (Some a, w')
    | (None, w') => h w'
    end.

Definition of_option {A : Type} (o : option A) : M A :=
  match o with
  | Some a => ret a
  | None => throw
  end.

Definition readDb {A : Type} (f : Store.Database -> A) : M A :=
  fun w => (Some (f (db w)), w).

Definition writeDb (f : Store.Database -> Store.Database) : M unit :=
  fun w => (Some tt, {| db := f (db w); visited := visited w |}).

(** [page.goto(url)], [page.content()] and [cheerio.load(html)]. *)
Definition goto (web : Web) (u : jsstring) : M DocumentTree :=
  fun w =>
    (web u, {| db := db w; visited := visited w ++ [u] |}).

(* ================================================================== *)
(** * Engine revision 2 ([enhanced-scraper-v2.js]) *)
(* ================================================================== *)

Module V2.

Section WithPlatform.
Context {P : Platform}.

(** ** Title *)

(** The class [[-|\u2013\u2014]]: hyphen, pipe, en dash, em dash. *)
Definition isSeparator (c : char) : bool := one_of [45; 124; 8211; 8212]%N c.

(** [/\s*[-|\u2013\u2014]\s*.+$/] *)
Definition re_after_dash : regex :=
  seqs [Star isSpace; Chr isSeparator; Star isSpace; Plus isDot; Eol].

(** [/\s*\|\s*.+$/] *)
Definition re_after_pipe : regex :=
  seqs [Star isSpace; Chr (chr 124%N); Star isSpace; Plus isDot; Eol].

(** [/^(story|chapter|part)\s*:?\s*/i] *)
Definition re_role_prefix : regex :=
  seqs [Bol; alts [str_i "story"; str_i "chapter"; str_i "part"];
        Star isSpace; Opt (Chr (chr 58%N)); Star isSpace].

(** [/\s*-\s*(read online|free|story)$/i] *)
Definition re_qualifier : regex :=
  seqs [Star isSpace; Chr (chr 45%N); Star isSpace;
        alts [str_i "read online"; str_i "free"; str_i "story"]; Eol].

(** [/\s*\(.*\)$/] *)
Definition re_parenthetical : regex :=
  seqs [Star isSpace; Chr (chr 40%N); Star isDot; Chr (chr 41%N); Eol].

Definition title_patterns : list regex :=
  [re_role_prefix; re_qualifier; re_parenthetical].

(** The five patterns of [cleanTitle] in the order in which it applies
    them. *)
Definition cleaning_rules : list regex :=
  re_after_dash :: re_after_pipe :: title_patterns.

Definition cleanTitle (title : jsstring) : jsstring :=
  if negb (truthy title) then []
  else
    let title := replace re_after_dash [] title in
    let title := replace re_after_pipe [] title in
    let title :=
      fold_left (fun t pattern => replace pattern [] t) title_patterns title in
    trim title.

(** The test [text && text.length > 3 && text.length < 200]. *)
Definition title_sized (t : jsstring) : bool :=
  (truthy t && (3 <? List.length t) && (List.length t <? 200))%bool.

(** The loop over [primarySelectors]: the first selector whose first
    element has a text of acceptable size decides. *)
Fixpoint title_from_first (selectors : list string) (doc : DocumentTree)
  : option jsstring :=
  match selectors with
  | [] => None
  | selector :: rest =>
      match first (select selector doc) with
      | Some element =>
          let t := trim (text (h_elem element)) in
          if title_sized t then Some (cleanTitle t)
          else title_from_first rest doc
      | None => title_from_first rest doc
      end
  end.

(** The loop over [headingSelectors], which reads the text of a possibly
    empty collection. *)
Fixpoint title_from_heading (selectors : list string) (doc : DocumentTree)
  : option jsstring :=
  match selectors with
  | [] => None
  | selector :: rest =>
      let t := trim (textAll (firstn 1 (select selector doc))) in
      if title_sized t then Some (cleanTitle t)
      else title_from_heading rest doc
  end.

Definition title_selectors : list string :=
  ["h1.story-title"; "h1.post-title"; "h1.chapter-title";
   ".story-title"; ".post-title"; ".chapter-title"; ".entry-title";
   "h1.title"; ".title h1"; "#title h1";
   "article h1"; "main h1"; ".content h1"]%string.

Definition extractTitle (doc : DocumentTree) : jsstring :=
  match title_from_first title_selectors doc with
  | Some t => t
  | None =>
  match title_from_heading ["h1"%string] doc with
  | Some t => t
  | None =>
  match title_from_heading ["h2"; "h3"]%string doc with
  | Some t => t
  | None =>
      let pageTitle := trim (textAll (select "title" doc)) in
      let fallback := lit "Untitled Story" in
      if (truthy pageTitle && (3 <? List.length pageTitle))%bool then
        let cleanedTitle := cleanTitle pageTitle in
        if ((3 <? List.length cleanedTitle)
            && (List.length cleanedTitle <? 200))%bool
        then cleanedTitle else fallback
      else fallback
  end end end.

(** ** Content *)

Definition unwantedSelectors : list string :=
  ["script"; "style"; "nav"; "header"; "footer";
   ".navigation"; ".nav"; ".menu"; ".sidebar";
   ".advertisement"; ".ad"; ".ads"; ".advert";
   ".social"; ".share"; ".sharing";
   ".comments"; ".comment-section";
   ".related"; ".recommended";
   ".breadcrumb"; ".breadcrumbs";
   ".tags"; ".tag-list";
   ".author-bio"; ".author-info";
   ".newsletter"; ".subscription";
   ".popup"; ".modal"; ".overlay"]%string.

Definition removeUnwantedElements (doc : DocumentTree) : DocumentTree :=
  fold_left (fun d selector => remove selector d) unwantedSelectors doc.

(** [text.split('\n').filter(line => line.trim().length > 0)] *)
Definition nonEmptyLines (t : jsstring) : list jsstring :=
  List.filter (fun line => 0 <? List.length (trim line)) (splitChar 10%N [] t).

(** [lines.length > 0 ? text.length / lines.length : 0], as the exact
    quotient. *)
Definition avgLineLength (t : jsstring) (lines : list jsstring) : QArith_base.Q :=
  match List.length lines with
  | O => QArith_base.Qmake 0 1
  | S _ =>
      QArith_base.Qmake (Z.of_nat (List.length t)) (Pos.of_nat (List.length lines))
  end.

Definition Qltb (a b : QArith_base.Q) : bool := negb (QArith_base.Qle_bool b a).

Definition keywordScore (className : jsstring) (delta : Z)
  (keywords : list jsstring) (score : Z) : Z :=
  fold_left (fun sc keyword =>
               if includes className keyword then (sc + delta)%Z else sc)
            keywords score.

Definition scoreContentElement (el : node) (t : jsstring) : Z :=
  let score := Z.of_nat (List.length t) in
  let paragraphs := List.length (find "p" el) in
  let score := (score + Z.of_nat paragraphs * 50)%Z in
  let className := match attr "class" el with Some c => c | None => [] end in
  let storyKeywords :=
    List.map lit ["story"; "chapter"; "content"; "text"; "body"; "post"]%string in
  let score := keywordScore className 100 storyKeywords score in
  let navKeywords :=
    List.map lit ["nav"; "menu"; "sidebar"; "footer"; "header"]%string in
  let score := keywordScore className (-200) navKeywords score in
  let lines := nonEmptyLines t in
  if Qltb (avgLineLength t lines) (QArith_base.Qmake 30 1)
  then (score - 100)%Z else score.

Definition contentSelectors : list string :=
  ["article";
   ".story-content"; ".story-text"; ".story-body";
   ".chapter-content"; ".chapter-text"; ".chapter-body";
   ".post-content"; ".post-body"; ".post-text";
   ".content"; ".main-content";
   "main";
   ".entry-content";
   "#content";
   ".text-content"]%string.

(** One step of [elements.each]: the running best text and its score. *)
Definition considerElement (best : jsstring * Z) (el : hit) : jsstring * Z :=
  let t := trim (text (h_elem el)) in
  let score := scoreContentElement (h_elem el) t in
  if ((snd best <? score)%Z && (100 <? List.length t))%bool
  then (t, score) else best.

Definition extractFromParagraphs (doc : DocumentTree) : jsstring :=
  let step (st : list (list jsstring) * list jsstring) (el : hit) :=
    let t := trim (text (h_elem el)) in
    if 20 <? List.length t then (fst st, snd st ++ [t])
    else
      match snd st with
      | _ :: _ => (fst st ++ [snd st], [])
      | [] => st
      end in
  let '(groups, currentGroup) := fold_left step (select "p" doc) ([], []) in
  let paragraphGroups :=
    match currentGroup with
    | _ :: _ => groups ++ [currentGroup]
    | [] => groups
    end in
  fst (fold_left
         (fun (best : jsstring * nat) group =>
            let c := join [10; 10]%N group in
            let score := List.length c + List.length group * 20 in
            if snd best <? score then (c, score) else best)
         paragraphGroups ([], 0)).

Definition isLikelyBoilerplate (el : node) (t : jsstring) : bool :=
  let className :=
    toLowerCase (match attr "class" el with Some c => c | None => [] end) in
  let id :=
    toLowerCase (match attr "id" el with Some c => c | None => [] end) in
  let boilerplateKeywords :=
    List.map lit ["nav"; "menu"; "sidebar"; "footer"; "header";
                  "advertisement"; "ad"; "social"; "share";
                  "comment"; "related"; "recommended"]%string in
  let hasBoilerplateKeyword :=
    existsb (fun keyword =>
               (includes className keyword || includes id keyword)%bool)
            boilerplateKeywords in
  if hasBoilerplateKeyword then true
  else
    let lines := nonEmptyLines t in
    (Qltb (avgLineLength t lines) (QArith_base.Qmake 20 1)
     && (5 <? List.length lines))%bool.

Definition findLargestTextBlock (doc : DocumentTree) : jsstring :=
  fold_left
    (fun bestContent el =>
       let t := trim (text (h_elem el)) in
       if isLikelyBoilerplate (h_elem el) t then bestContent
       else if ((List.length bestContent <? List.length t)
                && (100 <? List.length t))%bool
            then t else bestContent)
    (select "div, section, article, main" doc) [].

(** [/^(home|back to top|skip to content|menu|navigation)/i] *)
Definition re_chrome_prefix : regex :=
  seqs [Bol; alts [str_i "home"; str_i "back to top"; str_i "skip to content";
                   str_i "menu"; str_i "navigation"]].

(** [/(copyright|all rights reserved|\u00a9)/i] *)
Definition re_copyright : regex :=
  alts [str_i "copyright"; str_i "all rights reserved"; Chr (chr_i 169%N)].

(** [/^(share|like|tweet|pin)/i] *)
Definition re_social_prefix : regex :=
  seqs [Bol; alts [str_i "share"; str_i "like"; str_i "tweet"; str_i "pin"]].

Definition cleanContent (content : jsstring) : jsstring :=
  if negb (truthy content) then []
  else
    let content := trim (replaceAll (Plus isSpace) (lit " ") content) in
    let boilerplatePatterns :=
      [re_chrome_prefix; re_copyright; re_social_prefix] in
    let content :=
      fold_left (fun c pattern => replace pattern [] c)
                boilerplatePatterns content in
    trim content.

(** [extractContent] changes the page it is given; the changed page is
    returned next to the text. *)
Definition extractContent (doc : DocumentTree) : jsstring * DocumentTree :=
  let doc := removeUnwantedElements doc in
  let best :=
    fold_left (fun best selector =>
                 fold_left considerElement (select selector doc) best)
              contentSelectors ([], 0%Z) in
  let bestContent := fst best in
  let bestContent :=
    if List.length bestContent <? 200 then extractFromParagraphs doc
    else bestContent in
  let bestContent :=
    if List.length bestContent <? 200 then findLargestTextBlock doc
    else bestContent in
  (cleanContent bestContent, doc).

(** ** Author *)

(** [/^(by|author:|written by|story by)\s*/i] *)
Definition re_by_prefix : regex :=
  seqs [Bol; alts [str_i "by"; str_i "author:"; str_i "written by";
                   str_i "story by"]; Star isSpace].

(** [/\s*(writes?|says?|posted|published).*$/i] *)
Definition re_verb_suffix : regex :=
  seqs [Star isSpace;
        alts [Seq (str_i "write") (Opt (Chr (chr_i 115%N)));
              Seq (str_i "say") (Opt (Chr (chr_i 115%N)));
              str_i "posted"; str_i "published"];
        Star isDot; Eol].

Definition isAsciiLetter (c : char) : bool :=
  (isAsciiLower c || isAsciiUpper c)%bool.

Definition genericPatterns : list regex :=
  [ (* /^(admin|administrator|user|guest|anonymous)$/i *)
    seqs [Bol; alts [str_i "admin"; str_i "administrator"; str_i "user";
                     str_i "guest"; str_i "anonymous"]; Eol];
    (* /^(unknown|n\/a|none)$/i *)
    seqs [Bol; alts [str_i "unknown"; str_i "n/a"; str_i "none"]; Eol];
    (* /^\d+$/ *)
    seqs [Bol; Plus isDigit; Eol];
    (* /^[a-z]{1,2}$/i *)
    seqs [Bol; Rep isAsciiLetter 1 1; Eol] ].

Definition cleanAuthor (author : jsstring) : option jsstring :=
  if negb (truthy author) then None
  else
    let author := replace re_by_prefix [] author in
    let author := replace re_verb_suffix [] author in
    let author := trim (replaceAll (Plus isSpace) (lit " ") author) in
    if existsb (fun pattern => test pattern author) genericPatterns then None
    else if ((1 <? List.length author) && (List.length author <? 100))%bool
         then Some author else None.

Definition authorSelectors : list string :=
  [".story-author"; ".post-author"; ".chapter-author";
   ".author"; ".by-author"; ".byline";
   "[rel=author]"; "[itemprop=author]";
   ".author-name"; ".writer"; ".creator";
   "article .author"; "main .author"; ".content .author"]%string.

(** The loop over [authorSelectors]; the outer [Some] is a [return]. *)
Fixpoint author_from_selectors (selectors : list string) (doc : DocumentTree)
  : option (option jsstring) :=
  match selectors with
  | [] => None
  | selector :: rest =>
      match first (select selector doc) with
      | Some element =>
          let t := trim (text (h_elem element)) in
          if (truthy t && (1 <? List.length t) && (List.length t <? 100))%bool
          then Some (cleanAuthor t)
          else author_from_selectors rest doc
      | None => author_from_selectors rest doc
      end
  end.

(** [/(?:^|\s)(?:by|author:|written by)\s+([a-zA-Z\s]{2,50})(?:\s|$|\.)/i],
    in three parts: before the group, the group, after the group. *)
Definition byPattern : regex * regex * regex :=
  (seqs [Alt Bol (Chr isSpace);
         alts [str_i "by"; str_i "author:"; str_i "written by"];
         Plus isSpace],
   Rep (fun c => (isAsciiLetter c || isSpace c)%bool) 2 48,
   alts [Chr isSpace; Eol; Chr (chr 46%N)]).

Definition extractAuthor (doc : DocumentTree) : option jsstring :=
  match author_from_selectors authorSelectors doc with
  | Some r => r
  | None =>
      let metaAuthor :=
        match first (select "meta[name=author]" doc) with
        | Some m => attr "content" (h_elem m)
        | None => None
        end in
      let fromMeta :=
        match metaAuthor with
        | Some a =>
            if (truthy a && (1 <? List.length (trim a)))%bool
            then Some (cleanAuthor (trim a)) else None
        | None => None
        end in
      match fromMeta with
      | Some r => r
      | None =>
          let bodyText := textAll (select "body" doc) in
          let '(pre, group, post) := byPattern in
          match capture pre group post bodyText with
          | Some m =>
              let author := trim m in
              if ((1 <? List.length author) && (List.length author <? 50))%bool
              then cleanAuthor author else None
          | None => None
          end
      end
  end.

(** ** Scraping one page *)

Record ExtractionResult : Type := {
  title : jsstring;
  content : jsstring;
  author : option jsstring;
  wordCount : nat;
  domain : jsstring
}.

Variable web : Web.

Definition scrape (url : jsstring) : M ExtractionResult :=
  doc <- goto web url ;;
  let title := extractTitle doc in
  let '(content, doc) := extractContent doc in
  let author := extractAuthor doc in
  domain <- of_option (URL_hostname url) ;;
  let wordCount := List.length (split (Plus isSpace) content) in
  _ <- writeDb (Store.insertOrReplace url title content author wordCount domain) ;;
  ret {| title := title; content := content; author := author;
         wordCount := wordCount; domain := domain |}.

Definition getStoryByUrl (url : jsstring) : M (option Store.row) :=
  readDb (Store.getStoryByUrl url).

Definition deleteStoryByUrl (url : jsstring) : M nat :=
  fun w =>
    let '(changes, d) := Store.deleteStoryByUrl url (db w) in
    (Some changes, {| db := d; visited := visited w |}).

(** ** Finding the story links of a page *)

Record Options : Type := {
  linkSelector : string;
  filterPatterns : list jsstring;
  excludePatterns : list jsstring;
  maxLinks : Z;
  sameDomainOnly : bool;
  minContentLength : Z;
  storyKeywords : list jsstring
}.

(** The defaults of the destructured [options]. *)
Definition defaultOptions : Options := {|
  linkSelector := "a[href]";
  filterPatterns := [];
  excludePatterns :=
    List.map lit ["/css/"; "/js/"; "/images/"; ".jpg"; ".png"; ".gif";
                  ".pdf"; ".zip"; ".exe"; "mailto:"; "tel:"]%string;
  maxLinks := 50;
  sameDomainOnly := true;
  minContentLength := 500;
  storyKeywords :=
    List.map lit ["story"; "chapter"; "tale"; "fiction"; "novel"; "book";
                  "read"]%string
|}.

Record Link : Type := {
  link_url : jsstring;
  link_text : jsstring;
  link_parentText : jsstring
}.

(** The body of [$(linkSelector).each]. *)
Definition linkOf (pageUrl : jsstring) (element : hit) : list Link :=
  let linkText := trim (text (h_elem element)) in
  let parentText := trim (parentText element) in
  match attr "href" (h_elem element) with
  | Some href =>
      if truthy href then
        match URL_href href pageUrl with
        | Some fullUrl =>
            [{| link_url := fullUrl; link_text := linkText;
                link_parentText := parentText |}]
        | None => []
        end
      else []
  | None => []
  end.

Definition allLinksOf (o : Options) (pageUrl : jsstring) (doc : DocumentTree)
  : list Link :=
  flat_map (linkOf pageUrl) (select (linkSelector o) doc).

Definition excludeTexts : list jsstring :=
  List.map lit ["home"; "about"; "contact"; "login"; "register"; "search";
                "menu"; "navigation"; "footer"; "header"; "sidebar"]%string.

Definition genericTexts : list jsstring :=
  List.map lit ["more"; "click"; "here"; "link"; "page"]%string.

(** [/chapter|part|episode|\d+/] *)
Definition re_chapter : regex :=
  alts [str "chapter"; str "part"; str "episode"; Plus isDigit].

(** The lower-cased URL and the lower-cased link text joined with the
    text of the parent. *)
Definition lowerUrl (link : Link) : jsstring := toLowerCase (link_url link).
Definition lowerText (link : Link) : jsstring :=
  toLowerCase (link_text link ++ lit " " ++ link_parentText link).

(** The first four tests of the filter: [true] when one of them rejects. *)
Definition rejected (o : Options) (baseDomain linkDomain : jsstring)
  (link : Link) : bool :=
  let url := lowerUrl link in
  let t := lowerText link in
  ((sameDomainOnly o && negb (str_eqb linkDomain baseDomain))
   || existsb (fun pattern => includes url (toLowerCase pattern))
              (excludePatterns o)
   || existsb (fun exclude =>
                 (includes t exclude && (List.length t <? 50))%bool)
              excludeTexts
   || ((List.length (link_text link) <? 3)
       || arrayIncludes genericTexts (toLowerCase (link_text link))))%bool.

(** The test of [filterPatterns]. *)
Definition matchesPattern (o : Options) (link : Link) : bool :=
  existsb (fun pattern =>
             (includes (lowerUrl link) (toLowerCase pattern)
              || includes (lowerText link) (toLowerCase pattern))%bool)
          (filterPatterns o).

(** The "smart story detection" at the end of the filter. *)
Definition looksLikeStory (o : Options) (link : Link) : bool :=
  let url := lowerUrl link in
  let t := lowerText link in
  let hasStoryKeywords :=
    existsb (fun keyword => (includes url keyword || includes t keyword)%bool)
            (storyKeywords o) in
  let hasMeaningfulText :=
    ((10 <? List.length (link_text link))
     && (List.length (link_text link) <? 200))%bool in
  let hasChapterNumbers := test re_chapter t in
  (hasStoryKeywords || hasMeaningfulText || hasChapterNumbers)%bool.

(** The callback of [allLinks.filter]; [None] when [new URL(link.url)]
    throws. *)
Definition linkFilter (o : Options) (baseDomain : jsstring) (link : Link)
  : option bool :=
  match URL_hostname (link_url link) with
  | None => None
  | Some linkDomain =>
      Some (if rejected o baseDomain linkDomain link then false
            else match filterPatterns o with
                 | _ :: _ => matchesPattern o link
                 | [] => looksLikeStory o link
                 end)
  end.

(** [Array.prototype.filter] with a callback that may throw. *)
Fixpoint filterM (A : Type) (f : A -> option bool) (l : list A)
  : option (list A) :=
  match l with
  | [] => Some []
  | x :: l' =>
      match f x with
      | None => None
      | Some b =>
          match filterM f l' with
          | None => None
          | Some r => Some (if b then x :: r else r)
          end
      end
  end.

(** [[...new Map(filteredLinks.map(link => [link.url, link])).values()]] *)
Definition uniqueLinksOf (filteredLinks : list Link) : list Link :=
  uniqueBy link_url filteredLinks.

(** The links a page scan hands to the crawl, and the number of links
    found before filtering. *)
Definition linksToScrapeOf (o : Options) (pageUrl : jsstring)
  (doc : DocumentTree) : option (list Link * nat) :=
  match URL_hostname pageUrl with
  | None => None
  | Some baseDomain =>
      let allLinks := allLinksOf o pageUrl doc in
      match filterM (linkFilter o baseDomain) allLinks with
      | None => None
      | Some filteredLinks =>
          let uniqueLinks := uniqueLinksOf filteredLinks in
          Some (slice0 (maxLinks o) uniqueLinks, List.length allLinks)
      end
  end.

(** ** Crawling the links *)

Inductive Reason : Type := already_exists | content_too_short.

Inductive Status : Type :=
| st_success (story : ExtractionResult)
| st_skipped (reason : Reason).

Record Outcome : Type := {
  out_url : jsstring;
  out_status : Status;
  out_linkText : jsstring
}.

Record Failure : Type := { err_url : jsstring; err_linkText : jsstring }.

Record Summary : Type := { successful : nat; skipped : nat; failed : nat }.

Record Report : Type := {
  pageUrl : jsstring;
  totalLinksFound : nat;
  linksProcessed : nat;
  results : list Outcome;
  errors : list Failure;
  summary : Summary
}.

Definition isSuccess (r : Outcome) : bool :=
  match out_status r with st_success _ => true | st_skipped _ => false end.
Definition isSkipped (r : Outcome) : bool :=
  match out_status r with st_success _ => false | st_skipped _ => true end.

(** One turn of the [for] loop over [linksToScrape]. *)
Definition scrapeLink (minLength : Z) (link : Link)
  (acc : list Outcome * list Failure) : M (list Outcome * list Failure) :=
  let '(results, errors) := acc in
  let push st :=
    results ++ [{| out_url := link_url link; out_status := st;
                   out_linkText := link_text link |}] in
  try_catch
    (existing <- getStoryByUrl (link_url link) ;;
     match existing with
     | Some _ => ret (push (st_skipped already_exists), errors)
     | None =>
         result <- scrape (link_url link) ;;
         if (Z.of_nat (List.length (content result)) <? minLength)%Z then
           _ <- deleteStoryByUrl (link_url link) ;;
           ret (push (st_skipped content_too_short), errors)
         else ret (push (st_success result), errors)
     end)
    (ret (results,
          errors ++ [{| err_url := link_url link;
                        err_linkText := link_text link |}])).

Fixpoint scrapeLinks (minLength : Z) (links : list Link)
  (acc : list Outcome * list Failure) : M (list Outcome * list Failure) :=
  match links with
  | [] => ret acc
  | link :: rest =>
      acc' <- scrapeLink minLength link acc ;;
      scrapeLinks minLength rest acc'
  end.

Definition summarise (results : list Outcome) (errors : list Failure)
  : Summary :=
  {| successful := List.length (List.filter isSuccess results);
     skipped := List.length (List.filter isSkipped results);
     failed := List.length errors |}.

(** The crawl over a given list of links: the second half of
    [scrapeLinksFromPage]. *)
Definition crawl (page : jsstring) (total : nat) (o : Options)
  (linksToScrape : list Link) : M Report :=
  acc <- scrapeLinks (minContentLength o) linksToScrape ([], []) ;;
  ret {| pageUrl := page; totalLinksFound := total;
         linksProcessed := List.length linksToScrape;
         results := fst acc; errors := snd acc;
         summary := summarise (fst acc) (snd acc) |}.

Definition scrapeLinksFromPage (page : jsstring) (o : Options) : M Report :=
  doc <- goto web page ;;
  found <- of_option (linksToScrapeOf o page doc) ;;
  let '(linksToScrape, total) := found in
  match linksToScrape with
  | [] =>
      ret {| pageUrl := page; totalLinksFound := total; linksProcessed := 0;
             results := []; errors := [];
             summary := {| successful := 0; skipped := 0; failed := 0 |} |}
  | _ :: _ => crawl page total o linksToScrape
  end.

End WithPlatform.

End V2.

(* ================================================================== *)
(** * Engine revision 3 ([enhanced-scraper-v3.js]) *)
(* ================================================================== *)

Module V3.

Section WithPlatform.
Context {P : Platform}.

(** The method [cleanTitle] is the same text in both revisions. *)
Definition cleanTitle : jsstring -> jsstring := V2.cleanTitle.

Definition title_selectors : list string :=
  ["h1"; ".title"; ".story-title"; ".post-title"; ".entry-title"; "title";
   ".headline"; ".article-title"]%string.

Fixpoint title_from (selectors : list string) (doc : DocumentTree)
  : option jsstring :=
  match selectors with
  | [] => None
  | selector :: rest =>
      match first (select selector doc) with
      | Some element =>
          let t := trim (text (h_elem element)) in
          if truthy t then Some (cleanTitle t) else title_from rest doc
      | None => title_from rest doc
      end
  end.

Definition extractTitle (doc : DocumentTree) : jsstring :=
  match title_from title_selectors doc with
  | Some t => t
  | None =>
      let pageTitle := trim (textAll (select "title" doc)) in
      if truthy pageTitle then cleanTitle pageTitle else lit "Untitled"
  end.

(** [/[.!?]+/] *)
Definition re_sentence_end : regex := Plus (one_of [46; 33; 63]%N).

Definition scoreContent (t : jsstring) : Z :=
  if negb (truthy t) then 0%Z
  else
    let wordCount := List.length (split (Plus isSpace) t) in
    let sentenceCount := List.length (split re_sentence_end t) in
    let avgWordsPerSentence :=
      QArith_base.Qmake (Z.of_nat wordCount)
                        (Pos.of_nat (Nat.max sentenceCount 1)) in
    let score := Z.of_nat wordCount in
    let score :=
      if (V2.Qltb (QArith_base.Qmake 5 1) avgWordsPerSentence
          && V2.Qltb avgWordsPerSentence (QArith_base.Qmake 30 1))%bool
      then (score + 50)%Z else score in
    if wordCount <? 50 then (score - 100)%Z else score.

Definition contentSelectors : list string :=
  [".story-content"; ".post-content"; ".entry-content"; ".article-content";
   ".content"; "article"; ".main-content"; "#content"; ".text"; "main"]%string.

Definition extractContent (doc : DocumentTree) : jsstring * DocumentTree :=
  let doc :=
    remove "script, style, nav, header, footer, .sidebar, .menu, .navigation, .ads, .advertisement"
           doc in
  let best :=
    fold_left
      (fun (best : jsstring * Z) selector =>
         match first (select selector doc) with
         | Some element =>
             let t := trim (text (h_elem element)) in
             let score := scoreContent t in
             if (snd best <? score)%Z then (t, score) else best
         | None => best
         end)
      contentSelectors ([], 0%Z) in
  let '(bestContent, bestScore) := best in
  let bestContent :=
    if (negb (truthy bestContent) || (bestScore <? 100)%Z)%bool then
      let paragraphs :=
        List.map (fun el => trim (text (h_elem el))) (select "p" doc) in
      let combinedText := join [10; 10]%N paragraphs in
      if (bestScore <? scoreContent combinedText)%Z then combinedText
      else bestContent
    else bestContent in
  (if truthy bestContent then bestContent else lit "No content found", doc).

(** [/^by\s+/i] *)
Definition re_by : regex := seqs [Bol; str_i "by"; Plus isSpace].

Definition authorSelectors : list string :=
  [".author"; ".by-author"; ".story-author"; ".post-author"; ".byline";
   "[rel=author]"; ".writer"; ".created-by"]%string.

Fixpoint extractAuthor_from (selectors : list string) (doc : DocumentTree)
  : option jsstring :=
  match selectors with
  | [] => None
  | selector :: rest =>
      match first (select selector doc) with
      | Some element =>
          let t := trim (text (h_elem element)) in
          if truthy t then Some (replace re_by [] t)
          else extractAuthor_from rest doc
      | None => extractAuthor_from rest doc
      end
  end.

Definition extractAuthor (doc : DocumentTree) : option jsstring :=
  extractAuthor_from authorSelectors doc.

(** The [story] object of a fresh scrape. *)
Record Story : Type := {
  story_id : Z;
  title : jsstring;
  content : jsstring;
  author : option jsstring;
  wordCount : nat;
  domain : jsstring;
  url : jsstring
}.

(** What [scrape] resolves with: [{ story, skipped: false }] after a fresh
    scrape, [{ skipped: true, reason, story: existingStory }] when the URL
    already has a record. *)
Inductive ScrapeResult : Type :=
| fresh (story : Story)
| existing (story_id : Z) (story_title : jsstring).

(** [result.wordCount]: neither object has a property of that name, so the
    read gives [undefined]. *)
Definition result_wordCount (result : ScrapeResult) : option nat :=
  match result with
  | fresh _ => None
  | existing _ _ => None
  end.

(** [x < n] for a value that may be [undefined]: [undefined] converts to
    NaN, and every comparison with NaN is false. *)
Definition lessThan (x : option nat) (n : Z) : bool :=
  match x with
  | Some v => (Z.of_nat v <? n)%Z
  | None => false
  end.

Variable web : Web.

(** The column [similarity_keywords], which [scrape] computes from the
    extraction and which nothing in the crawl reads, is left out of the
    row. *)
Definition scrape (u : jsstring) : M ScrapeResult :=
  existingStory <- readDb (Store.getStoryByUrl u) ;;
  match existingStory with
  | Some row => ret (existing (Store.id row) (Store.title row))
  | None =>
      doc <- goto web u ;;
      let title := extractTitle doc in
      let '(content, doc) := extractContent doc in
      let author := extractAuthor doc in
      domain <- of_option (URL_hostname u) ;;
      let wordCount := List.length (split (Plus isSpace) content) in
      inserted <- readDb (Store.insert u title content author wordCount domain) ;;
      match inserted with
      | None => throw
      | Some (storyId, d) =>
          _ <- writeDb (fun _ => d) ;;
          ret (fresh {| story_id := storyId; title := title;
                        content := content; author := author;
                        wordCount := wordCount; domain := domain; url := u |})
      end
  end.

Definition getStoryByUrl (u : jsstring) : M (option Store.row) :=
  readDb (Store.getStoryByUrl u).

(** ** Finding the links of a page *)

Record Options : Type := {
  linkSelector : string;
  filterPatterns : list jsstring;
  excludePatterns : list jsstring;
  sameDomain : bool;
  maxLinks : Z;
  keywords : list jsstring
}.

Definition defaultOptions : Options := {|
  linkSelector := "a[href]";
  filterPatterns := [];
  excludePatterns :=
    List.map lit ["/css/"; "/js/"; "/images/"; ".jpg"; ".png"; ".gif";
                  ".pdf"; ".zip"; ".exe"; "mailto:"; "tel:"]%string;
  sameDomain := true;
  maxLinks := 10;
  keywords := []
|}.

Record Link : Type := {
  link_url : jsstring;
  link_text : jsstring;
  link_domain : jsstring
}.

(** The test of [keywords]. *)
Definition hasKeyword (o : Options) (t fullUrl : jsstring) : bool :=
  let linkText := toLowerCase t in
  existsb (fun keyword =>
             (includes linkText (toLowerCase keyword)
              || includes (toLowerCase fullUrl) (toLowerCase keyword))%bool)
          (keywords o).

(** The tests of the body of [$(linkSelector).each]: [true] when the link
    is pushed. *)
Definition kept (o : Options) (baseDomain linkDomain fullUrl t : jsstring)
  : bool :=
  if (sameDomain o && negb (str_eqb linkDomain baseDomain))%bool then false
  else if existsb (fun pattern => includes fullUrl pattern) (excludePatterns o)
  then false
  else match keywords o with
       | _ :: _ => hasKeyword o t fullUrl
       | [] => true
       end.

(** The body of [$(linkSelector).each]; [None] when [new URL(fullUrl)]
    throws. *)
Definition linkOf (o : Options) (pageUrl baseDomain : jsstring) (element : hit)
  : option (list Link) :=
  let t := trim (text (h_elem element)) in
  match attr "href" (h_elem element) with
  | Some href =>
      if truthy href then
        match URL_href href pageUrl with
        | None => Some []
        | Some fullUrl =>
            match URL_hostname fullUrl with
            | None => None
            | Some linkDomain =>
                Some (if kept o baseDomain linkDomain fullUrl t
                      then [{| link_url := fullUrl; link_text := t;
                               link_domain := linkDomain |}]
                      else [])
            end
        end
      else Some []
  | None => Some []
  end.

Fixpoint collect (A B : Type) (f : A -> option (list B)) (l : list A)
  : option (list B) :=
  match l with
  | [] => Some []
  | x :: l' =>
      match f x with
      | None => None
      | Some ys =>
          match collect f l' with
          | None => None
          | Some r => Some (ys ++ r)
          end
      end
  end.

Record Found : Type := {
  totalFound : nat;
  uniqueLinks : nat;
  linksToScrape : list Link;
  preview : list Link
}.

Definition found (o : Options) (pageUrl : jsstring) (doc : DocumentTree)
  : option Found :=
  match URL_hostname pageUrl with
  | None => None
  | Some baseDomain =>
      match collect (linkOf o pageUrl baseDomain) (select (linkSelector o) doc) with
      | None => None
      | Some links =>
          let unique := uniqueBy link_url links in
          let toScrape := slice0 (maxLinks o) unique in
          Some {| totalFound := List.length links;
                  uniqueLinks := List.length unique;
                  linksToScrape := toScrape;
                  preview := slice0 10 toScrape |}
      end
  end.

Definition scrapeLinksFromPage (pageUrl : jsstring) (o : Options) : M Found :=
  doc <- goto web pageUrl ;;
  of_option (found o pageUrl doc).

(** ** Scraping a batch of links *)

Record BatchOptions : Type := {
  delay : Z;
  skipExisting : bool;
  minWordCount : Z
}.

Definition defaultBatchOptions : BatchOptions :=
  {| delay := 2000; skipExisting := true; minWordCount := 100 |}.

Record BatchResults : Type := {
  successful : nat;
  skipped : nat;
  failed : nat;
  stories : list ScrapeResult
}.

Definition countSkipped (r : BatchResults) : BatchResults :=
  {| successful := successful r; skipped := S (skipped r);
     failed := failed r; stories := stories r |}.

Definition countFailed (r : BatchResults) : BatchResults :=
  {| successful := successful r; skipped := skipped r;
     failed := S (failed r); stories := stories r |}.

Definition countSuccessful (result : ScrapeResult) (r : BatchResults)
  : BatchResults :=
  {| successful := S (successful r); skipped := skipped r;
     failed := failed r; stories := stories r ++ [result] |}.

(** One turn of the [for] loop of [batchScrapeFromLinks]. *)
Definition batchLink (o : BatchOptions) (link : Link) (results : BatchResults)
  : M BatchResults :=
  try_catch
    (known <- (if skipExisting o then getStoryByUrl (link_url link)
               else ret None) ;;
     match known with
     | Some _ => ret (countSkipped results)
     | None =>
         result <- scrape (link_url link) ;;
         if lessThan (result_wordCount result) (minWordCount o)
         then ret (countSkipped results)
         else ret (countSuccessful result results)
     end)
    (ret (countFailed results)).

Fixpoint batchLinks (o : BatchOptions) (links : list Link)
  (results : BatchResults) : M BatchResults :=
  match links with
  | [] => ret results
  | link :: rest =>
      results' <- batchLink o link results ;;
      batchLinks o rest results'
  end.

Definition batchScrapeFromLinks (links : list Link) (o : BatchOptions)
  : M BatchResults :=
  batchLinks o links
    {| successful := 0; skipped := 0; failed := 0; stories := [] |}.

End WithPlatform.

End V3.

(* ================================================================== *)
(** * A reference platform and sample pages *)
(* ================================================================== *)

Module Sample.

Fixpoint takeUntil (c : char) (s : jsstring) : jsstring :=
  match s with
  | [] => []
  | x :: s' => if char_eqb x c then [] else x :: takeUntil c s'
  end.

(** The host of [http://host/path]. *)
Definition hostOf (u : jsstring) : option jsstring :=
  if startsWith (lit "http://") u then Some (takeUntil 47%N (skipn 7 u))
  else None.

(** The built-ins on the inputs of the examples below: ASCII text, and
    absolute [http://host/path] URLs in normal form (lower-case host, no
    port, no credentials, no dot segments), which [new URL] returns
    unchanged; a path starting with [/] is resolved against the host of the
    base. *)
#[export] Instance platform : Platform := {|
  toLowerCase := List.map asciiLower;
  URL_href := fun href base =>
    if startsWith (lit "http://") href then Some href
    else if startsWith (lit "/") href then
      match hostOf base with
      | Some h => Some (lit "http://" ++ h ++ href)
      | None => None
      end
    else None;
  URL_hostname := hostOf
|}.

Definition el (tag : string) (attrs : list (string * string))
  (children : list node) : node :=
  Elem (lit tag) (List.map (fun kv => (lit (fst kv), lit (snd kv))) attrs) children.

Definition txt (s : string) : node := Text (lit s).

(** [<html><head>...</head><body>...</body></html>] *)
Definition page (head body : list node) : DocumentTree :=
  [el "html" [] [el "head" [] head; el "body" [] body]].

Definition a (href text : string) : node :=
  el "a" [("href"%string, href)] [txt text].

(** A story index at [http://a.com/index]: five links, three of them to
    the same story. *)
Definition indexUrl : jsstring := lit "http://a.com/index".

Definition index : DocumentTree :=
  page [el "title" [] [txt "Stories"]]
    [el "p" [] [a "http://a.com/s/1" "Home"];
     el "p" [] [a "http://a.com/s/2" "The long road north"];
     el "p" [] [a "http://a.com/s/1" "A tale of two rivers"];
     el "p" [] [a "http://a.com/s/1" "A tale of two rivers, continued"];
     el "p" [] [a "http://b.com/s/3" "Elsewhere: a long story"]].

Definition link (url text : string) : V2.Link :=
  {| V2.link_url := lit url; V2.link_text := lit text;
     V2.link_parentText := lit text |}.

(** Three story pages: [s/1] already has a record, [s/2] renders to a page
    whose content is 50 code units long (46 letters in five words; the runs
    of blanks between them make the raw text 126 code units long), [s/3] to
    a page whose article (a heading of 19 code units and a paragraph of
    1981) has 2000 code units. *)
Definition urlA : jsstring := lit "http://a.com/s/1".
Definition urlB : jsstring := lit "http://a.com/s/2".
Definition urlC : jsstring := lit "http://a.com/s/3".

Definition letters (n : nat) : jsstring := repeat 120%N n.

Definition shortPage : DocumentTree :=
  page [el "title" [] [txt "Stub"]]
    [el "div" []
       [Text (join (repeat 32%N 20)
                [letters 10; letters 10; letters 10; letters 10; letters 6])]].

Definition longPage : DocumentTree :=
  page [el "title" [] [txt "The long road north"]]
    [el "article" []
       [el "h1" [] [txt "The long road north"];
        el "p" []
          [Text (join (lit " ") (repeat (letters 9) 197 ++ [letters 11]))]]].

(** A page of two paragraphs, the first one empty, the second one of 60
    words. *)
Definition blankFirstPage : DocumentTree :=
  page []
    [el "p" [] [];
     el "p" [] [Text (join (lit " ") (repeat (letters 2) 60))]].

(** A page without any content. *)
Definition emptyPage : DocumentTree := page [] [].

(** A page whose only heading reads [Story]. *)
Definition storyPage : DocumentTree :=
  page [el "title" [] [txt "Story"]] [el "h1" [] [txt "Story"]].

Definition shelfUrl : jsstring := lit "http://a.com/shelf".

Definition shelf : DocumentTree :=
  page [el "title" [] [txt "Shelf"]]
    [el "p" [] [a "http://a.com/s/1" "A tale of two rivers"];
     el "p" [] [a "http://a.com/s/2" "A stub of a story"];
     el "p" [] [a "http://a.com/s/3" "The long road north"]].

Definition web : Web := fun u =>
  if str_eqb u urlB then Some shortPage
  else if str_eqb u urlC then Some longPage
  else if str_eqb u shelfUrl then Some shelf
  else if str_eqb u indexUrl then Some index
  else if str_eqb u (lit "http://a.com/empty") then Some emptyPage
  else if str_eqb u (lit "http://a.com/story") then Some storyPage
  else if str_eqb u (lit "http://a.com/blank") then Some blankFirstPage
  else None.

(** A table that already holds a record for [s/1]. *)
Definition seeded : World := {|
  db := {| Store.rows :=
             [{| Store.id := 1; Store.url := urlA;
                 Store.title := lit "A tale of two rivers";
                 Store.content := lit "Once upon a time";
                 Store.author := None; Store.word_count := 4;
                 Store.domain := lit "a.com" |}];
           Store.last_id := 1 |};
  visited := [] |}.

Definition link3 (url text : string) : V3.Link :=
  {| V3.link_url := lit url; V3.link_text := lit text;
     V3.link_domain := lit "a.com" |}.

(** The default options with [filterPatterns: ['Story']]. *)
Definition onlyStory : V2.Options := {|
  V2.linkSelector := V2.linkSelector V2.defaultOptions;
  V2.filterPatterns := [lit "Story"];
  V2.excludePatterns := V2.excludePatterns V2.defaultOptions;
  V2.maxLinks := V2.maxLinks V2.defaultOptions;
  V2.sameDomainOnly := V2.sameDomainOnly V2.defaultOptions;
  V2.minContentLength := V2.minContentLength V2.defaultOptions;
  V2.storyKeywords := V2.storyKeywords V2.defaultOptions
|}.

End Sample.

(* ================================================================== *)
(** * The properties under verification, as the design states them *)
(* ================================================================== *)

Module ScoreSpec.

(** The score as the design states it: the text length, 50 per paragraph,
    100 per story keyword and -200 per navigation keyword found in the
    class attribute, and -100 when the text length divided by the number of
    non-empty lines is below 30. *)
Definition occurrences (className : jsstring) (keywords : list string) : Z :=
  Z.of_nat (List.length
              (List.filter (fun k => includes className (lit k)) keywords)).

(** The penalty for short lines.  A text without a non-empty line has no
    average line length; the penalty applies to it as well. *)
Definition shortLinePenalty (textLength nonEmptyLineCount : nat) : Z :=
  match nonEmptyLineCount with
  | O => 100%Z
  | S _ =>
      match QArith_base.Qcompare
              (QArith_base.Qdiv
                 (QArith_base.inject_Z (Z.of_nat textLength))
                 (QArith_base.inject_Z (Z.of_nat nonEmptyLineCount)))
              (QArith_base.inject_Z 30) with
      | Lt => 100%Z
      | _ => 0%Z
      end
  end.

Definition score (textLength paragraphCount : nat) (className : jsstring)
  (nonEmptyLineCount : nat) : Z :=
  (Z.of_nat textLength + 50 * Z.of_nat paragraphCount
   + 100 * occurrences className
             ["story"; "chapter"; "content"; "text"; "body"; "post"]%string
   - 200 * occurrences className
             ["nav"; "menu"; "sidebar"; "footer"; "header"]%string
   - shortLinePenalty textLength nonEmptyLineCount)%Z.

(** ** The metadata of an element and of its text, read off the tree and
    the text themselves *)

(** The class string: the value of the [class] attribute, empty when the
    element has none. *)
Definition className (el : node) : jsstring :=
  match el with
  | Elem _ attrs _ =>
      match lookup (lit "class") attrs with Some c => c | None => [] end
  | Text _ => []
  end.

Definition isParagraph (n : node) : bool :=
  match n with
  | Elem t _ _ => str_eqb t (lit "p")
  | Text _ => false
  end.

(** The paragraph children of an element: its child nodes that are [p]
    elements. *)
Definition paragraphChildren (el : node) : nat :=
  match el with
  | Elem _ _ kids => List.length (List.filter isParagraph kids)
  | Text _ => 0
  end.

(** The [p] elements of a subtree, its root included. *)
Fixpoint paragraphsOf (n : node) : nat :=
  match n with
  | Text _ => 0
  | Elem t _ kids =>
      (if str_eqb t (lit "p") then 1 else 0)
      + (fix go (l : list node) : nat :=
           match l with
           | [] => 0
           | k :: l' => paragraphsOf k + go l'
           end) kids
  end.

(** The paragraphs below an element, at any depth. *)
Definition paragraphDescendants (el : node) : nat :=
  match el with
  | Elem _ _ kids => list_sum (List.map paragraphsOf kids)
  | Text _ => 0
  end.

(** The number of lines of a text, cut at line feeds, that hold a code unit
    other than whitespace; [blank] tells that the line being read has held
    none so far. *)
Fixpoint linesFrom (blank : bool) (s : jsstring) : nat :=
  match s with
  | [] => if blank then 0 else 1
  | c :: s' =>
      if char_eqb c 10%N then (if blank then 0 else 1) + linesFrom true s'
      else linesFrom (blank && isSpace c) s'
  end.

Definition nonEmptyLineCount (t : jsstring) : nat := linesFrom true t.

Section WithPlatform.
Context {P : Platform}.

(** The score with 50 for each paragraph child of the element. *)
Definition countsParagraphChildren : Prop :=
  forall (el : node) (t : jsstring),
    V2.scoreContentElement el t
    = score (List.length t) (paragraphChildren el) (className el)
        (nonEmptyLineCount t).

End WithPlatform.

End ScoreSpec.


Module TitleSpec.

(** The patterns applied one after the other, each removing its leftmost
    match. *)
Definition applyRules (rules : list regex) (t : jsstring) : jsstring :=
  fold_left (fun t pattern => replace pattern [] t) rules t.

(** [s] starts with [p], letters compared without regard to their ASCII
    case. *)
Fixpoint startsWith_i (p s : jsstring) : bool :=
  match p, s with
  | [], _ => true
  | x :: p', y :: s' =>
      (char_eqb (asciiUpper y) (asciiUpper x) && startsWith_i p' s')%bool
  | _ :: _, [] => false
  end.

(** The title starts with one of the role markers. *)
Definition hasRoleMarker (t : jsstring) : bool :=
  existsb (fun w => startsWith_i (lit w) t) ["story"; "chapter"; "part"]%string.

(** A title on which no pattern of [cleanTitle] can act: no dash or pipe,
    no opening parenthesis, no leading role marker. *)
Definition plain (t : jsstring) : bool :=
  (negb (existsb V2.isSeparator t) && negb (existsb (chr 40%N) t)
   && negb (hasRoleMarker t))%bool.

End TitleSpec.

Module WordSpec.

(** The whitespace-delimited tokens of a text: its maximal runs of code
    units that are not whitespace. [cur] is the token being read. *)
Fixpoint tokens_from (cur : jsstring) (s : jsstring) : list jsstring :=
  match s with
  | [] => match cur with [] => [] | _ :: _ => [cur] end
  | c :: s' =>
      if isSpace c then
        match cur with
        | [] => tokens_from [] s'
        | _ :: _ => cur :: tokens_from [] s'
        end
      else tokens_from (cur ++ [c]) s'
  end.

Definition tokens (s : jsstring) : list jsstring := tokens_from [] s.

End WordSpec.

Module LinkSpec.


(** [a] can be obtained from [b] by deleting elements. *)
Fixpoint subsequence (a b : list jsstring) {struct b} : bool :=
  match a, b with
  | [], _ => true
  | _ :: _, [] => false
  | x :: a', y :: b' =>
      if str_eqb x y then subsequence a' b' else subsequence a b'
  end.

Definition firstWithUrl (u : jsstring) (l : list V2.Link) : option V2.Link :=
  firstWith V2.link_url u l.

Definition lastWithUrl (u : jsstring) (l : list V2.Link) : option V2.Link :=
  lastWith V2.link_url u l.

Section WithPlatform.
Context {P : Platform}.

(** The link passes the filter of the page scan. *)
Definition passes (o : V2.Options) (pageUrl : jsstring) (l : V2.Link) : bool :=
  match URL_hostname pageUrl with
  | Some baseDomain =>
      match V2.linkFilter o baseDomain l with
      | Some true => true
      | _ => false
      end
  | None => false
  end.

(** The links of the raw scan that pass the filter, in scan order. *)
Definition passingLinks (o : V2.Options) (pageUrl : jsstring)
  (doc : DocumentTree) : list V2.Link :=
  List.filter (passes o pageUrl) (V2.allLinksOf o pageUrl doc).

(** The deduplication as the design states it: no two returned links
    share a URL, the URLs come in the order of their first occurrence in
    the raw scan, and the link returned for a URL is the first link of the
    raw scan with that URL. *)
Definition keepsFirstSeen (o : V2.Options) (pageUrl : jsstring)
  (doc : DocumentTree) : Prop :=
  forall links total,
    V2.linksToScrapeOf o pageUrl doc = Some (links, total) ->
    NoDup (List.map V2.link_url links)
    /\ subsequence (List.map V2.link_url links)
         (firstOccurrences
            (List.map V2.link_url (V2.allLinksOf o pageUrl doc))) = true
    /\ forall l, In l links ->
         firstWithUrl (V2.link_url l) (V2.allLinksOf o pageUrl doc) = Some l.

(** The allowlist as the design states it: with a non-empty
    [filterPatterns], a link that survives the first four tests is kept
    exactly when some pattern occurs in its URL or in its link text joined
    with the text of its parent. *)
Definition allowlistBySubstring (o : V2.Options) (baseDomain : jsstring)
  (link : V2.Link) : Prop :=
  V2.filterPatterns o <> [] ->
  forall linkDomain,
    URL_hostname (V2.link_url link) = Some linkDomain ->
    V2.rejected o baseDomain linkDomain link = false ->
    (V2.linkFilter o baseDomain link = Some true
     <-> exists pattern,
           In pattern (V2.filterPatterns o)
           /\ (includes (V2.link_url link) pattern = true
               \/ includes (V2.link_text link ++ lit " "
                            ++ V2.link_parentText link) pattern = true)).
End WithPlatform.

End LinkSpec.

Module CrawlSpec.
Section WithPlatform.
Context {P : Platform}.

(** What [scrape] extracts from a rendered page of a given host. *)
Definition extracted (doc : DocumentTree) (host : jsstring) : V2.ExtractionResult :=
  let content := fst (V2.extractContent doc) in
  {| V2.title := V2.extractTitle doc;
     V2.content := content;
     V2.author := V2.extractAuthor (snd (V2.extractContent doc));
     V2.wordCount := List.length (split (Plus isSpace) content);
     V2.domain := host |}.

(** The row [scrape] writes for an extraction. *)
Definition stored (i : Z) (u : jsstring) (r : V2.ExtractionResult) : Store.row :=
  {| Store.id := i; Store.url := u; Store.title := V2.title r;
     Store.content := V2.content r; Store.author := V2.author r;
     Store.word_count := V2.wordCount r; Store.domain := V2.domain r |}.

(** The rows of the table that belong to other URLs. *)
Definition others (u : jsstring) (d : Store.Database) : list Store.row :=
  List.filter (fun r => negb (Store.has_url u r)) (Store.rows d).

(** No two rows of the table share a URL. *)
Definition uniqueUrls (d : Store.Database) : Prop :=
  NoDup (List.map Store.url (Store.rows d)).

(** The world after scraping the given URLs one after the other, whether
    the single scrapes resolve or reject. *)
Definition afterScrapes (web : Web) (urls : list jsstring) (w : World) : World :=
  fold_left (fun w u => snd (V2.scrape web u w)) urls w.

Definition outcome (link : V2.Link) (st : V2.Status) : V2.Outcome :=
  {| V2.out_url := V2.link_url link; V2.out_status := st;
     V2.out_linkText := V2.link_text link |}.

End WithPlatform.
End CrawlSpec.

From Stdlib Require DecimalString.

(* ================================================================== *)
(** * Normal forms of the extracted text *)
(* ================================================================== *)

Module TextSpec.

(** Every whitespace code unit is a plain space (U+0020). *)
Definition plainSpaces (s : jsstring) : bool :=
  forallb (fun c => implb (isSpace c) (N.eqb c 32)) s.

(** Every whitespace code unit is a plain space, and no plain space is
    followed by whitespace. *)
Fixpoint singleSpaced (s : jsstring) : bool :=
  match s with
  | [] => true
  | c :: s' =>
      ((if isSpace c
        then (N.eqb c 32
              && match s' with d :: _ => negb (isSpace d) | [] => true end)
        else true)
       && singleSpaced s')%bool
  end.

(** Equality of two strings under the [i] flag. *)
Definition sameIgnoringCase (a b : jsstring) : bool :=
  str_eqb (List.map asciiUpper a) (List.map asciiUpper b).

(** The names [cleanAuthor] refuses. *)
Definition genericNames : list jsstring :=
  List.map lit ["admin"; "administrator"; "user"; "guest"; "anonymous";
                "unknown"; "n/a"; "none"]%string.

(** A generic name, a number, or at most two letters. *)
Definition generic (r : jsstring) : bool :=
  (existsb (sameIgnoringCase r) genericNames
   || forallb isDigit r
   || ((List.length r <=? 2) && forallb V2.isAsciiLetter r))%bool.

(** The shape of an author name: no surrounding whitespace, words
    separated by single spaces, two to ninety-nine code units, not
    generic. *)
Definition authorName (r : jsstring) : Prop :=
  trim r = r
  /\ singleSpaced r = true
  /\ 2 <= List.length r < 100
  /\ generic r = false.

End TextSpec.


(* ================================================================== *)
(** * Bringing an older table up to date ([updateExistingRecords]) *)
(* ================================================================== *)

Module Migration.

(** A row of a [stories] table that is older than the columns
    [word_count] and [domain]: every column but [id] may be NULL. *)
Record record : Type := {
  id : Z;
  url : option jsstring;
  title : option jsstring;
  content : option jsstring;
  author : option jsstring;
  word_count : option nat;
  domain : option jsstring
}.

(** [WHERE word_count IS NULL OR domain IS NULL] *)
Definition incomplete (r : record) : bool :=
  match word_count r, domain r with
  | Some _, Some _ => false
  | _, _ => true
  end.

(** [record.content ? record.content.split(/\s+/).length : 0]; NULL and the
    empty string are falsy. *)
Definition wordCountOf (c : option jsstring) : nat :=
  match c with
  | Some (x :: s) => List.length (split (Plus isSpace) (x :: s))
  | _ => 0
  end.

(** [UPDATE stories SET word_count = ?, domain = ? WHERE id = ?] *)
Definition update (wordCount : nat) (dom : option jsstring) (i : Z)
  (table : list record) : list record :=
  List.map (fun r =>
              if (id r =? i)%Z then
                {| id := id r; url := url r; title := title r;
                   content := content r; author := author r;
                   word_count := Some wordCount; domain := dom |}
              else r) table.

Section WithPlatform.
Context {P : Platform}.

(** [record.url ? new URL(record.url).hostname : noUrl], where [noUrl] is
    [null] in revision 2 and the empty string in revision 3; [None] when
    the constructor throws. *)
Definition domainOf (noUrl : option jsstring) (u : option jsstring)
  : option (option jsstring) :=
  match u with
  | Some (x :: s) =>
      match URL_hostname (x :: s) with
      | Some h => Some (Some h)
      | None => None
      end
  | _ => Some noUrl
  end.

(** The body of the loop over [recordsToUpdate]: a record whose URL makes
    the constructor throw is left as it is (the [catch] only logs). *)
Definition updateRecord (noUrl : option jsstring) (table : list record)
  (rec : record) : list record :=
  match domainOf noUrl (url rec) with
  | Some dom => update (wordCountOf (content rec)) dom (id rec) table
  | None => table
  end.

(** The table after [updateExistingRecords]. *)
Definition updateExistingRecords (noUrl : option jsstring)
  (table : list record) : list record :=
  let recordsToUpdate := List.filter incomplete table in
  fold_left (updateRecord noUrl) recordsToUpdate table.

(** Revision 2 writes [null] as the domain of a record without URL,
    revision 3 the empty string. *)
Definition updateExistingRecords_v2 : list record -> list record :=
  updateExistingRecords None.
Definition updateExistingRecords_v3 : list record -> list record :=
  updateExistingRecords (Some []).



End WithPlatform.

End Migration.

(* ================================================================== *)
(** * The search statement ([searchStories]) *)
(* ================================================================== *)

Module Search.

(** A value bound to a placeholder of the statement. *)
Inductive param : Type :=
| PText (s : jsstring)
| PNumber (n : Z).

(** The destructured [options] with the defaults applied, for options of
    the intended types: flags, numbers or [null], a string or [null]. *)
Record Options : Type := {
  searchContent : bool;
  searchTitle : bool;
  searchAuthor : bool;
  collectionId : option Z;
  minWordCount : option Z;
  maxWordCount : option Z;
  domain : option jsstring;
  limit : Z
}.

Definition defaultOptions : Options := {|
  searchContent := true;
  searchTitle := true;
  searchAuthor := true;
  collectionId := None;
  minWordCount := None;
  maxWordCount := None;
  domain := None;
  limit := 50
|}.

(** Truthiness of a number that may be [null]: [null] and 0 are falsy. *)
Definition truthyNumber (o : option Z) : bool :=
  match o with
  | Some n => negb (n =? 0)%Z
  | None => false
  end.

(** Truthiness of a string that may be [null] or [undefined]. *)
Definition truthyText (o : option jsstring) : bool :=
  match o with
  | Some s => truthy s
  | None => false
  end.

Definition text (o : option jsstring) : jsstring :=
  match o with Some s => s | None => [] end.

Definition number (o : option Z) : Z :=
  match o with Some n => n | None => 0%Z end.

(** The statement and the parameters that [searchStories] hands to
    [db.all]. *)
Definition searchStories (query : option jsstring) (o : Options)
  : jsstring * list param :=
  let sql := lit "SELECT * FROM stories WHERE 1=1" in
  let params : list param := [] in
  let '(sql, params) :=
    if (truthyText query && truthy (trim (text query)))%bool then
      let searchConditions : list jsstring := [] in
      let searchTerm := lit "%" ++ trim (text query) ++ lit "%" in
      let '(searchConditions, params) :=
        if searchTitle o
        then (searchConditions ++ [lit "title LIKE ?"],
              params ++ [PText searchTerm])
        else (searchConditions, params) in
      let '(searchConditions, params) :=
        if searchAuthor o
        then (searchConditions ++ [lit "author LIKE ?"],
              params ++ [PText searchTerm])
        else (searchConditions, params) in
      let '(searchConditions, params) :=
        if searchContent o
        then (searchConditions ++ [lit "content LIKE ?"],
              params ++ [PText searchTerm])
        else (searchConditions, params) in
      if 0 <? List.length searchConditions
      then (sql ++ lit " AND (" ++ join (lit " OR ") searchConditions ++ lit ")",
            params)
      else (sql, params)
    else (sql, params) in
  let '(sql, params) :=
    if truthyNumber (collectionId o)
    then (sql ++ lit " AND id IN (SELECT story_id FROM story_collections WHERE collection_id = ?)",
          params ++ [PNumber (number (collectionId o))])
    else (sql, params) in
  let '(sql, params) :=
    if truthyNumber (minWordCount o)
    then (sql ++ lit " AND word_count >= ?",
          params ++ [PNumber (number (minWordCount o))])
    else (sql, params) in
  let '(sql, params) :=
    if truthyNumber (maxWordCount o)
    then (sql ++ lit " AND word_count <= ?",
          params ++ [PNumber (number (maxWordCount o))])
    else (sql, params) in
  let '(sql, params) :=
    if truthyText (domain o)
    then (sql ++ lit " AND domain LIKE ?",
          params ++ [PText (lit "%" ++ text (domain o) ++ lit "%")])
    else (sql, params) in
  let sql := sql ++ lit " ORDER BY scraped_at DESC LIMIT ?" in
  let params := params ++ [PNumber (limit o)] in
  (sql, params).

(** The number of placeholders of a statement. *)
Definition placeholders (sql : jsstring) : nat :=
  List.length (List.filter (N.eqb 63) sql).

(** Which parts of the statement a call asks for: whether there is a
    search text, the three flags, and which of the four filters are set. *)
Definition shape (query : option jsstring) (o : Options) : list bool :=
  [(truthyText query && truthy (trim (text query)))%bool;
   searchTitle o; searchAuthor o; searchContent o;
   truthyNumber (collectionId o); truthyNumber (minWordCount o);
   truthyNumber (maxWordCount o); truthyText (domain o)].

End Search.

(* ================================================================== *)
(** * Patterns with a lazy group *)
(* ================================================================== *)

Module Groups.

Section Matcher.
Variable R : Type.

(** [[\s\S]*?] followed by the rest of the pattern: the shortest text is
    tried first.  [seen] is the text taken so far, last code unit first. *)
Fixpoint lazyAny (k : jsstring -> jsstring -> option R) (seen : jsstring)
  (s : jsstring) : option R :=
  match k (rev seen) s with
  | Some x => Some x
  | None =>
      match s with
      | [] => None
      | c :: s' => lazyAny k (c :: seen) s'
      end
  end.
End Matcher.

(** Match [pre([\s\S]*?)post] at the front of the suffix [s] of a subject of
    length [n0]: the text of the group and the suffix left after the
    match. *)
Definition groupAt (n0 : nat) (pre post : regex) (s : jsstring)
  : option (jsstring * jsstring) :=
  rmatch n0 pre s (fun s1 =>
    lazyAny (fun cap s2 => rmatch n0 post s2 (fun rest => Some (cap, rest)))
            [] s1).

Fixpoint searchGroup (n0 : nat) (pre post : regex) (s : jsstring)
  : option jsstring :=
  match groupAt n0 pre post s with
  | Some (cap, _) => Some cap
  | None =>
      match s with
      | [] => None
      | _ :: s' => searchGroup n0 pre post s'
      end
  end.

(** [s.match(/pre([\s\S]*?)post/)]: the group of the leftmost match. *)
Definition matchGroup (pre post : regex) (s : jsstring) : option jsstring :=
  searchGroup (List.length s) pre post s.

(** [s.replace(/pre([\s\S]*?)post/g, '$1')]: every match is replaced by the
    text of its group.  [skip] counts the code units of the current match
    that are still to be passed over. *)
Fixpoint unwrapAll_go (n0 : nat) (pre post : regex) (skip : nat)
  (s : jsstring) : jsstring :=
  match s with
  | [] =>
      match groupAt n0 pre post [] with
      | Some (cap, _) => cap
      | None => []
      end
  | c :: s' =>
      match skip with
      | S n => unwrapAll_go n0 pre post n s'
      | O =>
          match groupAt n0 pre post s with
          | Some (cap, rest) =>
              match List.length s - List.length rest with
              | O => cap ++ c :: unwrapAll_go n0 pre post 0 s'
              | S n => cap ++ unwrapAll_go n0 pre post n s'
              end
          | None => c :: unwrapAll_go n0 pre post 0 s'
          end
      end
  end.

Definition unwrapAll (pre post : regex) (s : jsstring) : jsstring :=
  unwrapAll_go (List.length s) pre post 0 s.

(** The loop [while ((match = re.exec(s)) !== null)] over a pattern
    [/pre([\s\S]*?)post/g]: the groups of the successive matches.  A match
    that takes no text leaves [lastIndex] where it is, and the loop does not
    end: that is [None]. *)
Fixpoint execAll_go (n0 : nat) (pre post : regex) (skip : nat) (s : jsstring)
  : option (list jsstring) :=
  match s with
  | [] =>
      match groupAt n0 pre post [] with
      | Some _ => None
      | None => Some []
      end
  | c :: s' =>
      match skip with
      | S n => execAll_go n0 pre post n s'
      | O =>
          match groupAt n0 pre post s with
          | Some (cap, rest) =>
              match List.length s - List.length rest with
              | O => None
              | S n => option_map (cons cap) (execAll_go n0 pre post n s')
              end
          | None => execAll_go n0 pre post 0 s'
          end
      end
  end.

Definition execAll (pre post : regex) (s : jsstring) : option (list jsstring) :=
  execAll_go (List.length s) pre post 0 s.

End Groups.

(* ================================================================== *)
(** * Reading a feed ([parseRSSItems]) *)
(* ================================================================== *)

Module Rss.

(** [[^>]] *)
Definition notGt (c : char) : bool := negb (char_eqb c 62%N).

(** [/<!\[CDATA\[([\s\S]*?)\]\]>/g] *)
Definition cdata_open : regex := str "<![CDATA[".
Definition cdata_close : regex := str "]]>".

(** [/<[^>]+>/g] *)
Definition re_tag : regex := seqs [Chr (chr 60%N); Plus notGt; Chr (chr 62%N)].

Definition cleanXMLContent (content : jsstring) : jsstring :=
  trim (replaceAll re_tag [] (Groups.unwrapAll cdata_open cdata_close content)).

(** [new RegExp(`<${tagName}[^>]*>([\\s\\S]*?)<\\/${tagName}>`, 'i')] for a
    tag name of letters, as the four calls pass it. *)
Definition tag_open (tagName : string) : regex :=
  seqs [Chr (chr 60%N); seq_of chr_i (lit tagName); Star notGt; Chr (chr 62%N)].
Definition tag_close (tagName : string) : regex :=
  seqs [Chr (chr 60%N); Chr (chr 47%N); seq_of chr_i (lit tagName);
        Chr (chr 62%N)].

Definition extractXMLTag (xml : jsstring) (tagName : string) : jsstring :=
  match Groups.matchGroup (tag_open tagName) (tag_close tagName) xml with
  | Some group => group
  | None => []
  end.

(** An entry of a feed.  [pubDate] is the text handed to the [Date]
    constructor, or [None] where the source takes the current time. *)
Record Item : Type := {
  title : jsstring;
  url : jsstring;
  description : jsstring;
  pubDate : option jsstring
}.

(** The body of the loop over the matches of [itemRegex]. *)
Definition itemOf (itemXml : jsstring) : list Item :=
  let title := extractXMLTag itemXml "title" in
  let link := extractXMLTag itemXml "link" in
  let description := extractXMLTag itemXml "description" in
  let pubDate := extractXMLTag itemXml "pubDate" in
  if (truthy title && truthy link)%bool then
    [{| title := cleanXMLContent title;
        url := cleanXMLContent link;
        description := cleanXMLContent description;
        pubDate := if truthy pubDate then Some pubDate else None |}]
  else [].

(** [/<item[^>]*>([\s\S]*?)<\/item>/gi] *)
Definition item_open : regex := tag_open "item".
Definition item_close : regex := tag_close "item".

(** [None] stands for a loop that does not end. *)
Definition parseRSSItems (xmlText : jsstring) : option (list Item) :=
  option_map (flat_map itemOf) (Groups.execAll item_open item_close xmlText).

(** A text starts with a tag: [<], a code unit other than [>], and a [>]
    somewhere after it. *)
Definition tagAt (t : jsstring) : bool :=
  match t with
  | c :: d :: s => (char_eqb c 60%N && notGt d && existsb (chr 62%N) s)%bool
  | _ => false
  end.

End Rss.

(* ================================================================== *)
(** * Exporting the stories as CSV ([exportCSV]) *)
(* ================================================================== *)

Module Exports.

(** A column value as the database driver hands it over: [null], an
    integer (of a size that a JavaScript number holds exactly) or a
    string. *)
Inductive value : Type :=
| VNull
| VNumber (n : Z)
| VText (s : jsstring).

(** A row of [SELECT * FROM stories]. *)
Record story : Type := {
  id : value;
  url : value;
  title : value;
  content : value;
  author : value;
  word_count : value;
  domain : value;
  scraped_at : value
}.

Definition headers : list string :=
  ["id"; "title"; "author"; "domain"; "word_count"; "scraped_at"; "url"]%string.

(** [story[header]]; a property the row does not have is [undefined],
    which is falsy like [null]. *)
Definition get (s : story) (header : string) : value :=
  if String.eqb header "id" then id s
  else if String.eqb header "url" then url s
  else if String.eqb header "title" then title s
  else if String.eqb header "content" then content s
  else if String.eqb header "author" then author s
  else if String.eqb header "word_count" then word_count s
  else if String.eqb header "domain" then domain s
  else if String.eqb header "scraped_at" then scraped_at s
  else VNull.

(** [String(value || '')] *)
Definition cell (v : value) : jsstring :=
  match v with
  | VNull => []
  | VNumber 0 => []
  | VNumber n => lit (DecimalString.NilZero.string_of_int (Z.to_int n))
  | VText s => s
  end.

(** The template literal that puts a text between double quotes, the double
    quotes inside it doubled. *)
Definition quote (t : jsstring) : jsstring :=
  [34%N] ++ replaceAll (Chr (chr 34%N)) [34; 34]%N t ++ [34%N].

Definition line (s : story) : jsstring :=
  join (lit ",")
       (List.map (fun header => quote (cell (get s header))) headers).

(** The seven texts of the line of a story, before they are quoted. *)
Definition cells (s : story) : list jsstring :=
  List.map (fun header => cell (get s header)) headers.

(** The text [exportCSV] writes to the file. *)
Definition csvContent (stories : list story) : jsstring :=
  match stories with
  | [] => []
  | _ :: _ =>
      join [10%N] (join (lit ",") (List.map lit headers) :: List.map line stories)
  end.

(** What [exportCSV] returns. *)
Record Result : Type := {
  filename : jsstring;
  count : nat;
  format : jsstring
}.

(** The file written, as a pair of its name and its text, and the value
    returned. *)
Definition exportCSV (stories : list story) (file : jsstring)
  : (jsstring * jsstring) * Result :=
  ((file, csvContent stories),
   {| filename := file; count := List.length stories; format := lit "CSV" |}).

End Exports.

(** Reading a CSV text the way RFC 4180 describes it: records end at a
    line feed, fields at a comma; a field may stand between double quotes,
    and a doubled double quote inside such a field is one double quote. *)
Module CsvSpec.

Inductive state : Type := FieldStart | Bare | Quoted | QuoteSeen.

Record config : Type := {
  st : state;
  cur : jsstring;
  row : list jsstring;
  rows : list (list jsstring)
}.

Definition start : config :=
  {| st := FieldStart; cur := []; row := []; rows := [] |}.

Definition endField (c : config) : config :=
  {| st := FieldStart; cur := []; row := row c ++ [cur c]; rows := rows c |}.

Definition endRecord (c : config) : config :=
  {| st := FieldStart; cur := []; row := [];
     rows := rows c ++ [row c ++ [cur c]] |}.

Definition put (s : state) (x : char) (c : config) : config :=
  {| st := s; cur := cur c ++ [x]; row := row c; rows := rows c |}.

Definition goto (s : state) (c : config) : config :=
  {| st := s; cur := cur c; row := row c; rows := rows c |}.

Definition step (c : config) (x : char) : option config :=
  match st c with
  | FieldStart =>
      if char_eqb x 34%N then Some (goto Quoted c)
      else if char_eqb x 44%N then Some (endField c)
      else if char_eqb x 10%N then Some (endRecord c)
      else Some (put Bare x c)
  | Bare =>
      if char_eqb x 34%N then None
      else if char_eqb x 44%N then Some (endField c)
      else if char_eqb x 10%N then Some (endRecord c)
      else Some (put Bare x c)
  | Quoted =>
      if char_eqb x 34%N then Some (goto QuoteSeen c)
      else Some (put Quoted x c)
  | QuoteSeen =>
      if char_eqb x 34%N then Some (put Quoted x c)
      else if char_eqb x 44%N then Some (endField c)
      else if char_eqb x 10%N then Some (endRecord c)
      else None
  end.

Fixpoint steps (c : config) (s : jsstring) : option config :=
  match s with
  | [] => Some c
  | x :: s' =>
      match step c x with
      | Some c' => steps c' s'
      | None => None
      end
  end.

(** The records of a text; [None] for a text that is not well formed. *)
Definition read (s : jsstring) : option (list (list jsstring)) :=
  match steps start s with
  | Some c =>
      match st c with
      | Quoted => None
      | _ => Some (rows (endRecord c))
      end
  | None => None
  end.

End CsvSpec.

(* ================================================================== *)
(** * Runs of paragraphs ([extractFromParagraphs]) *)
(* ================================================================== *)

(** What [extractFromParagraphs] groups: the maximal runs of consecutive
    paragraphs whose trimmed text has more than 20 code units. *)

Module ParagraphSpec.

Definition long (t : jsstring) : bool := 20 <? List.length t.

Definition endsShort (pre : list jsstring) : Prop :=
  pre = [] \/ exists p t, pre = p ++ [t] /\ long t = false.

Definition startsShort (post : list jsstring) : Prop :=
  post = [] \/ exists t p, post = t :: p /\ long t = false.

(** [group] is a run of [ps]: long paragraphs only, with a short one or
    nothing on either side. *)
Definition run (ps pre group post : list jsstring) : Prop :=
  ps = pre ++ group ++ post
  /\ group <> []
  /\ forallb long group = true
  /\ endsShort pre
  /\ startsShort post.

(** The score [extractFromParagraphs] gives a group. *)
Definition score (group : list jsstring) : nat :=
  List.length (join [10; 10]%N group) + List.length group * 20.

(** The runs of [current ++ ps], read from left to right. *)
Fixpoint groupsOf (ps current : list jsstring) : list (list jsstring) :=
  match ps with
  | [] => match current with [] => [] | _ :: _ => [current] end
  | t :: ps' =>
      if long t then groupsOf ps' (current ++ [t])
      else
        match current with
        | [] => groupsOf ps' []
        | _ :: _ => current :: groupsOf ps' []
        end
  end.

End ParagraphSpec.

(* ================================================================== *)
(** * The feed tables ([checkRSSFeed], [addRSSItem]) *)
(* ================================================================== *)

Module Feeds.

(** A row of [rss_feeds], with the columns [checkRSSFeed] reads and writes.
    [last_checked] is NULL until the first check and then holds the time of
    the last one. *)
Record feed : Type := {
  feed_id : Z;
  feed_url : jsstring;
  last_checked : option nat
}.

(** A row of [rss_items]; [url] carries a UNIQUE constraint and [id] is
    INTEGER PRIMARY KEY AUTOINCREMENT.  The columns [title], [url],
    [description] and [pub_date] are those of the item. *)
Record itemRow : Type := {
  item_id : Z;
  item_feed : Z;
  item : Rss.Item;
  scraped : bool;
  story_id : option Z
}.

(** The two tables and the largest item id handed out so far. *)
Record Tables : Type := {
  rss_feeds : list feed;
  rss_items : list itemRow;
  last_item_id : Z
}.

Definition has_url (u : jsstring) (r : itemRow) : bool :=
  str_eqb (Rss.url (item r)) u.

(** [INSERT OR IGNORE INTO rss_items (feed_id, title, url, description,
    pub_date) VALUES (...)]: a row that would violate the UNIQUE constraint
    on [url] is not inserted.  The result is [this.changes > 0]. *)
Definition addRSSItem (feedId : Z) (it : Rss.Item) (t : Tables)
  : bool * Tables :=
  if existsb (has_url (Rss.url it)) (rss_items t) then (false, t)
  else
    let i := (last_item_id t + 1)%Z in
    (true,
     {| rss_feeds := rss_feeds t;
        rss_items := rss_items t
                     ++ [{| item_id := i; item_feed := feedId; item := it;
                            scraped := false; story_id := None |}];
        last_item_id := i |}).

(** [SELECT * FROM rss_feeds WHERE id = ?] through [db.get]. *)
Definition getFeed (feedId : Z) (t : Tables) : option feed :=
  List.find (fun f => Z.eqb (feed_id f) feedId) (rss_feeds t).

(** [UPDATE rss_feeds SET last_checked = CURRENT_TIMESTAMP WHERE id = ?],
    run at the time [now]. *)
Definition setLastChecked (now : nat) (feedId : Z) (t : Tables) : Tables :=
  {| rss_feeds :=
       List.map (fun f =>
                   if Z.eqb (feed_id f) feedId
                   then {| feed_id := feed_id f; feed_url := feed_url f;
                           last_checked := Some now |}
                   else f) (rss_feeds t);
     rss_items := rss_items t;
     last_item_id := last_item_id t |}.

Record CheckResult : Type := { newItems : nat; totalItems : nat }.

(** The statements of a run are counted from 0, and [fails k] tells that
    the database reports an error for statement [k]; a statement that fails
    changes nothing and its promise rejects. *)
Section Run.
Variable fails : nat -> bool.

(** The loop over the items, whose first [INSERT] is statement [k]: the
    count of new items, or [None] when an [INSERT] fails, and the tables. *)
Fixpoint addItems (k : nat) (feedId : Z) (items : list Rss.Item)
  (newItems : nat) (t : Tables) : option nat * Tables :=
  match items with
  | [] => (Some newItems, t)
  | it :: rest =>
      if fails k then (None, t)
      else
        let '(added, t') := addRSSItem feedId it t in
        addItems (S k) feedId rest (if added then S newItems else newItems) t'
  end.

(** [checkRSSFeed]: [fetch] gives the text behind a URL, or nothing where
    the request fails; [now] is the time of the UPDATE; the result [None]
    is a rejection. *)
Definition checkRSSFeed (fetch : jsstring -> option jsstring) (now : nat)
  (feedId : Z) (t : Tables) : option CheckResult * Tables :=
  if fails 0 then (None, t)
  else
    match getFeed feedId t with
    | None => (None, t)
    | Some f =>
        match fetch (feed_url f) with
        | None => (None, t)
        | Some xmlText =>
            match Rss.parseRSSItems xmlText with
            | None => (None, t)
            | Some items =>
                match addItems 1 feedId items 0 t with
                | (None, t') => (None, t')
                | (Some n, t') =>
                    if fails (S (List.length items)) then (None, t')
                    else
                      (Some {| newItems := n;
                               totalItems := List.length items |},
                       setLastChecked now feedId t')
                end
            end
        end
    end.

End Run.


Definition urls (t : Tables) : list jsstring :=
  List.map (fun r => Rss.url (item r)) (rss_items t).

End Feeds.

(* ================================================================== *)
(** * Further sample inputs *)
(* ================================================================== *)

Module Cases.

(** A story page with site chrome around the text and a byline. *)
Definition bylinePage : DocumentTree :=
  Sample.page
    [Sample.el "title" [] [Sample.txt "A tale of two rivers"];
     Sample.el "script" [] [Sample.txt "var visits = 1;"]]
    [Sample.el "nav" [] [Sample.a "http://a.com/index" "All stories"];
     Sample.el "div" [("class", "byline")%string] [Sample.txt "  By  Jane   Doe "];
     Sample.el "div" [("class", "sidebar ads")%string] [Sample.txt "Buy now"];
     Sample.el "article" []
       [Sample.el "p" [] [Sample.txt "Once upon a time two rivers met."]]].

(** The batch options with [skipExisting: false]. *)
Definition rescrape : V3.BatchOptions :=
  {| V3.delay := 2000; V3.skipExisting := false; V3.minWordCount := 100 |}.

(** A table from before the migration: a row to fill in, a row without
    URL and with an empty content, a row whose URL is none, and a row that
    is complete. *)
Definition oldTable : list Migration.record :=
  [{| Migration.id := 1; Migration.url := Some (lit "http://a.com/s/1");
      Migration.title := Some (lit "A tale of two rivers");
      Migration.content := Some (lit "Once upon a time");
      Migration.author := None;
      Migration.word_count := None; Migration.domain := None |};
   {| Migration.id := 2; Migration.url := None;
      Migration.title := Some (lit "Lost");
      Migration.content := Some [];
      Migration.author := None;
      Migration.word_count := None; Migration.domain := None |};
   {| Migration.id := 3; Migration.url := Some (lit "not a url");
      Migration.title := None;
      Migration.content := Some (lit "a b");
      Migration.author := None;
      Migration.word_count := None; Migration.domain := None |};
   {| Migration.id := 4; Migration.url := Some (lit "http://b.com/s/9");
      Migration.title := Some (lit "Elsewhere");
      Migration.content := Some (lit "far away");
      Migration.author := Some (lit "Jane Doe");
      Migration.word_count := Some 2; Migration.domain := Some (lit "b.com") |}].

(** A story whose title holds double quotes, a comma and a line feed, and
    whose word count is 0. *)
Definition quotedStory : Exports.story :=
  {| Exports.id := Exports.VNumber 12;
     Exports.url := Exports.VText (lit "http://a.com/s/1");
     Exports.title :=
       Exports.VText (lit "He said " ++ [34%N] ++ lit "no" ++ [34%N]
                      ++ lit ", twice" ++ [10%N] ++ lit "and left");
     Exports.content := Exports.VText (lit "Once upon a time");
     Exports.author := Exports.VNull;
     Exports.word_count := Exports.VNumber 0;
     Exports.domain := Exports.VText (lit "a.com");
     Exports.scraped_at := Exports.VText (lit "2024-05-01 10:00:00") |}.

(** A page of four paragraphs: two of 30 code units each, a short one, and
    one of 70. *)
Definition twoRuns : DocumentTree :=
  Sample.page []
    [Sample.el "p" [] [Text (Sample.letters 30)];
     Sample.el "p" [] [Text (repeat 121%N 30)];
     Sample.el "p" [] [Sample.txt "* * *"];
     Sample.el "p" [] [Text (Sample.letters 70)]].

(** An element whose only paragraph is the child of its child. *)
Definition nestedParagraph : node :=
  Sample.el "div" []
    [Sample.el "section" []
       [Sample.el "p" [] [Sample.txt "Once upon a time"]]].

(** A feed that lists the story [s/2] twice and the story [s/1], which the
    table knows already, once. *)
Definition feedUrl : jsstring := lit "http://a.com/feed".

Definition feedText : jsstring :=
  lit "<rss><channel><title>Stories</title><item><title>Two</title><link>http://a.com/s/2</link></item><item><title>One</title><link>http://a.com/s/1</link></item><item><title>Two, again</title><link>http://a.com/s/2</link></item></channel></rss>".

Definition feedFetch (u : jsstring) : option jsstring :=
  if str_eqb u feedUrl then Some feedText else None.

Definition feedTables : Feeds.Tables :=
  {| Feeds.rss_feeds :=
       [{| Feeds.feed_id := 1; Feeds.feed_url := feedUrl;
           Feeds.last_checked := None |}];
     Feeds.rss_items :=
       [{| Feeds.item_id := 1; Feeds.item_feed := 1;
           Feeds.item := {| Rss.title := lit "One";
                            Rss.url := lit "http://a.com/s/1";
                            Rss.description := []; Rss.pubDate := None |};
           Feeds.scraped := true; Feeds.story_id := Some 1%Z |}];
     Feeds.last_item_id := 1 |}.

End Cases.
(* ================================================================== *)
(** * Properties *)
(* ================================================================== *)

Unset Implicit Arguments.

(** ** Strings *)

Lemma char_eqb_eq (a b : char) : char_eqb a b = true <-> a = b.
Proof. unfold char_eqb. apply N.eqb_eq. Qed.

Lemma str_eqb_eq (a b : jsstring) : str_eqb a b = true <-> a = b.
Proof.
  revert b. induction a as [|x a IH]; intros [|y b]; simpl; split;
    try congruence; try reflexivity.
  - intros H. apply andb_true_iff in H as [Hx Ha].
    apply char_eqb_eq in Hx. apply IH in Ha. congruence.
  - intros H. injection H as -> ->. apply andb_true_iff. split.
    + now apply char_eqb_eq.
    + now apply IH.
Qed.

Lemma str_eqb_refl (a : jsstring) : str_eqb a a = true.
Proof. now apply str_eqb_eq. Qed.

Lemma str_eqb_neq (a b : jsstring) : str_eqb a b = false <-> a <> b.
Proof.
  split.
  - intros H E. apply str_eqb_eq in E. congruence.
  - intros H. destruct (str_eqb a b) eqn:E; [|reflexivity].
    apply str_eqb_eq in E. contradiction.
Qed.

Lemma str_eqb_sym (a b : jsstring) : str_eqb a b = str_eqb b a.
Proof.
  destruct (str_eqb a b) eqn:E.
  - apply str_eqb_eq in E. subst. symmetry. apply str_eqb_refl.
  - symmetry. apply str_eqb_neq. apply str_eqb_neq in E. congruence.
Qed.

(** ** The matcher *)

Section MatcherFacts.
Variable R : Type.
Variable n0 : nat.

Lemma star_sound (p : char -> bool) (k : jsstring -> option R) (s : jsstring)
  (x : R) :
  star p k s = Some x ->
  exists m rest,
    s = m ++ rest /\ Forall (fun c => p c = true) m /\ k rest = Some x.
Proof.
  induction s as [|c s IH]; simpl; intros H.
  - exists [], []. now repeat split.
  - destruct (p c) eqn:Hc.
    + destruct (star p k s) as [y|] eqn:Hs.
      * injection H as ->. destruct (IH eq_refl) as [m [rest [-> [Hm Hk]]]].
        exists (c :: m), rest. repeat split; [now constructor|exact Hk].
      * exists [], (c :: s). now repeat split.
    + exists [], (c :: s). now repeat split.
Qed.

Lemma rep_sound (p : char -> bool) (lo extra : nat)
  (k : jsstring -> option R) (s : jsstring) (x : R) :
  rep p lo extra k s = Some x ->
  exists m rest,
    s = m ++ rest /\ Forall (fun c => p c = true) m
    /\ lo <= List.length m /\ List.length m <= lo + extra /\ k rest = Some x.
Proof.
  revert s. induction lo as [|lo IH]; intros s.
  - simpl. revert s. induction extra as [|e IHe]; intros s H.
    + exists [], s. repeat split; [constructor|simpl; lia|simpl; lia|exact H].
    + destruct s as [|c s].
      * exists [], []. repeat split; [constructor|simpl; lia|simpl; lia|exact H].
      * destruct (p c) eqn:Hc.
        -- match type of H with
           | match ?t with _ => _ end = _ => destruct t as [y|] eqn:Hs
           end.
           ++ injection H as ->.
              destruct (IHe s Hs) as [m [rest [-> [Hm [Hlo [Hhi Hk]]]]]].
              exists (c :: m), rest.
              repeat split; [now constructor|simpl; lia|simpl in *; lia|exact Hk].
           ++ exists [], (c :: s).
              repeat split; [constructor|simpl; lia|simpl; lia|exact H].
        -- exists [], (c :: s).
           repeat split; [constructor|simpl; lia|simpl; lia|exact H].
  - simpl. destruct s as [|c s]; [discriminate|].
    destruct (p c) eqn:Hc; [|discriminate]. intros H.
    destruct (IH s H) as [m [rest [-> [Hm [Hlo [Hhi Hk]]]]]].
    exists (c :: m), rest.
    repeat split; [now constructor|simpl; lia|simpl in *; lia|exact Hk].
Qed.

(** The matcher is sound: what it consumes is a match of the pattern. *)
Lemma rmatch_sound (r : regex) :
  forall (s : jsstring) (k : jsstring -> option R) (x : R),
    rmatch n0 r s k = Some x ->
    exists m rest, s = m ++ rest /\ denotes n0 r m rest /\ k rest = Some x.
Proof.
  induction r as [| p | | | r1 IH1 r2 IH2 | r1 IH1 r2 IH2 | p | p lo extra];
    intros s k x H; simpl in H.
  - exists [], s. now repeat split.
  - destruct s as [|c s]; [discriminate|].
    destruct (p c) eqn:Hc; [|discriminate].
    exists [c], s. repeat split; [|exact H]. now exists c.
  - destruct (Nat.eqb (List.length s) n0) eqn:E; [|discriminate].
    apply Nat.eqb_eq in E. exists [], s. now repeat split.
  - destruct s; [|discriminate]. exists [], []. now repeat split.
  - apply IH1 in H as [m1 [s1 [-> [H1 H]]]].
    apply IH2 in H as [m2 [rest [-> [H2 H]]]].
    exists (m1 ++ m2), rest. rewrite app_assoc. repeat split; [|exact H].
    now exists m1, m2.
  - destruct (rmatch n0 r1 s k) as [y|] eqn:E.
    + injection H as ->. apply IH1 in E as [m [rest [-> [Hm Hk]]]].
      exists m, rest. repeat split; [now left|exact Hk].
    + apply IH2 in H as [m [rest [-> [Hm Hk]]]].
      exists m, rest. repeat split; [now right|exact Hk].
  - apply star_sound in H as [m [rest [-> [Hm Hk]]]]. now exists m, rest.
  - apply rep_sound in H as [m [rest [-> [Hm [Hlo [Hhi Hk]]]]]].
    exists m, rest. now repeat split.
Qed.

Lemma denotes_min_len (r : regex) :
  forall m rest, denotes n0 r m rest -> min_len r <= List.length m.
Proof.
  induction r as [| p | | | r1 IH1 r2 IH2 | r1 IH1 r2 IH2 | p | p lo extra];
    intros m rest H; simpl in *; try lia.
  - destruct H as [c [-> _]]. simpl. lia.
  - destruct H as [m1 [m2 [-> [H1 H2]]]]. rewrite length_app.
    apply IH1 in H1. apply IH2 in H2. lia.
  - destruct H as [H|H]; [apply IH1 in H|apply IH2 in H]; lia.
Qed.
End MatcherFacts.

Lemma search_sound (n0 : nat) (r : regex) :
  forall (s pre pre' post : jsstring),
    search n0 r pre s = Some (pre', post) ->
    exists skipped m,
      pre' = pre ++ skipped /\ s = skipped ++ m ++ post /\ denotes n0 r m post.
Proof.
  induction s as [|c s IH]; intros pre pre' post H; simpl in H.
  - destruct (matchAt n0 r []) as [rest|] eqn:E; [|discriminate].
    injection H as <- <-. apply rmatch_sound in E as [m [rest' [Hs [Hm Hk]]]].
    injection Hk as ->. exists [], m. rewrite app_nil_r. now repeat split.
  - destruct (matchAt n0 r (c :: s)) as [rest|] eqn:E.
    + injection H as <- <-. apply rmatch_sound in E as [m [rest' [Hs [Hm Hk]]]].
      injection Hk as ->. exists [], m. rewrite app_nil_r. now repeat split.
    + apply IH in H as [skipped [m [-> [-> Hm]]]].
      exists (c :: skipped), m. rewrite <- app_assoc. now repeat split.
Qed.

(** A successful [exec] cuts the subject into the text before the match, a
    match of the pattern, and the text after it. *)
Lemma exec_sound (r : regex) (s pre post : jsstring) :
  exec r s = Some (pre, post) ->
  exists m, s = pre ++ m ++ post /\ denotes (List.length s) r m post.
Proof.
  unfold exec. intros H. apply search_sound in H as [skipped [m [-> [-> Hm]]]].
  now exists m.
Qed.

Lemma replace_unmatched (r : regex) (by_ s : jsstring) :
  test r s = false -> replace r by_ s = s.
Proof. unfold test, replace. now destruct (exec r s) as [[pre post]|]. Qed.

Lemma replace_shorter (r : regex) (s : jsstring) :
  List.length (replace r [] s) <= List.length s.
Proof.
  unfold replace. destruct (exec r s) as [[pre post]|] eqn:E; [|lia].
  apply exec_sound in E as [m [-> _]]. rewrite !length_app. simpl. lia.
Qed.

Lemma replace_matched_shorter (r : regex) (s : jsstring) :
  test r s = true ->
  List.length (replace r [] s) + min_len r <= List.length s.
Proof.
  unfold test, replace. destruct (exec r s) as [[pre post]|] eqn:E;
    [|discriminate].
  intros _. apply exec_sound in E as [m [Hs Hm]].
  apply denotes_min_len in Hm.
  assert (Hl : List.length s = List.length pre + List.length m + List.length post)
    by (rewrite Hs, !length_app; lia).
  rewrite !length_app. simpl. lia.
Qed.

(** ** Trimming *)

Lemma dropWhile_length (p : char -> bool) (s : jsstring) :
  List.length (dropWhile p s) <= List.length s.
Proof.
  induction s as [|c s IH]; simpl; [lia|]. destruct (p c); simpl; lia.
Qed.

Lemma dropWhile_idem (p : char -> bool) (s : jsstring) :
  dropWhile p (dropWhile p s) = dropWhile p s.
Proof.
  induction s as [|c s IH]; simpl; [reflexivity|].
  destruct (p c) eqn:E; [exact IH|]. simpl. now rewrite E.
Qed.

Lemma dropWhile_split (p : char -> bool) (s : jsstring) :
  exists w, s = w ++ dropWhile p s.
Proof.
  induction s as [|c s [w IH]]; simpl.
  - now exists [].
  - destruct (p c).
    + exists (c :: w). simpl. now f_equal.
    + now exists [].
Qed.

Lemma dropWhile_prefix (p : char -> bool) (x w : jsstring) :
  dropWhile p (x ++ w) = x ++ w -> dropWhile p x = x.
Proof.
  destruct x as [|c x]; simpl; [reflexivity|].
  destruct (p c); [|reflexivity]. intros H.
  pose proof (dropWhile_length p (x ++ w)) as Hl.
  rewrite H in Hl. simpl in Hl. lia.
Qed.

Lemma trimEnd_split (s : jsstring) : exists w, s = trimEnd s ++ w.
Proof.
  unfold trimEnd. destruct (dropWhile_split isSpace (rev s)) as [w Hw].
  exists (rev w). rewrite <- rev_app_distr, <- Hw. now rewrite rev_involutive.
Qed.

Lemma trim_length (s : jsstring) : List.length (trim s) <= List.length s.
Proof.
  unfold trim, trimEnd, trimStart. rewrite length_rev.
  pose proof (dropWhile_length isSpace (rev (dropWhile isSpace s))) as H.
  rewrite length_rev in H. pose proof (dropWhile_length isSpace s). lia.
Qed.

Lemma trim_idem (s : jsstring) : trim (trim s) = trim s.
Proof.
  unfold trim. set (a := trimStart s).
  assert (Ha : trimStart a = a) by apply dropWhile_idem.
  assert (Hb : trimStart (trimEnd a) = trimEnd a).
  { destruct (trimEnd_split a) as [w Hw]. unfold trimStart in *.
    apply dropWhile_prefix with (w := w). now rewrite <- Hw. }
  rewrite Hb. unfold trimEnd. rewrite rev_involutive.
  now rewrite dropWhile_idem.
Qed.

Lemma trim_no_leading (s : jsstring) : dropWhile isSpace (trim s) = trim s.
Proof.
  unfold trim. set (a := trimStart s).
  assert (Ha : trimStart a = a) by apply dropWhile_idem.
  destruct (trimEnd_split a) as [w Hw]. unfold trimStart in *.
  apply dropWhile_prefix with (w := w). now rewrite <- Hw.
Qed.

Lemma trim_no_trailing (s : jsstring) :
  dropWhile isSpace (rev (trim s)) = rev (trim s).
Proof.
  unfold trim, trimEnd. rewrite rev_involutive. apply dropWhile_idem.
Qed.

(** ** Splitting at whitespace (C1) *)

Lemma star_all (R : Type) (p : char -> bool) (k : jsstring -> option R)
  (s : jsstring) :
  (forall rest, k rest <> None) -> star p k s = k (dropWhile p s).
Proof.
  intros Hk. induction s as [|c s IH]; simpl; [reflexivity|].
  destruct (p c); [|reflexivity]. rewrite IH.
  destruct (k (dropWhile p s)) eqn:E; [reflexivity|]. now apply Hk in E.
Qed.

Lemma matchAt_spaces (n0 : nat) (c : char) (s : jsstring) :
  matchAt n0 (Plus isSpace) (c :: s)
  = if isSpace c then Some (dropWhile isSpace s) else None.
Proof.
  unfold matchAt, Plus. simpl. destruct (isSpace c); [|reflexivity].
  apply star_all. discriminate.
Qed.

Lemma split_go_skip (n0 : nat) (r : regex) (n : nat) :
  forall (s cur : jsstring),
    S n <= List.length s ->
    split_go n0 r (S n) cur s = split_go n0 r 0 [] (skipn (S n) s).
Proof.
  induction n as [|n IH]; intros [|c s] cur Hlen; simpl in Hlen; try lia.
  - reflexivity.
  - change (split_go n0 r (S (S n)) cur (c :: s)) with (split_go n0 r (S n) [] s).
    rewrite IH by lia. reflexivity.
Qed.

Lemma skipn_dropWhile (p : char -> bool) (s : jsstring) :
  skipn (List.length s - List.length (dropWhile p s)) s = dropWhile p s.
Proof.
  destruct (dropWhile_split p s) as [w Hw].
  assert (Hl : List.length s = List.length w + List.length (dropWhile p s))
    by (rewrite Hw at 1; apply length_app).
  replace (List.length s - List.length (dropWhile p s)) with (List.length w) by lia.
  rewrite Hw at 1. rewrite skipn_app, skipn_all, Nat.sub_diag. reflexivity.
Qed.

Lemma split_go_space (n0 : nat) (c : char) (cur s : jsstring) :
  isSpace c = true ->
  split_go n0 (Plus isSpace) 0 cur (c :: s)
  = cur :: split_go n0 (Plus isSpace) 0 [] (dropWhile isSpace s).
Proof.
  intros Hc. cbn [split_go]. rewrite matchAt_spaces, Hc.
  pose proof (dropWhile_length isSpace s) as Hl.
  replace (List.length (c :: s) - List.length (dropWhile isSpace s))
    with (S (List.length s - List.length (dropWhile isSpace s)))
    by (change (List.length (c :: s)) with (S (List.length s)); lia).
  f_equal.
  destruct (List.length s - List.length (dropWhile isSpace s)) as [|n] eqn:E.
  - rewrite <- (skipn_dropWhile isSpace s), E. reflexivity.
  - rewrite split_go_skip by lia. now rewrite <- E, skipn_dropWhile.
Qed.

Lemma split_go_char (n0 : nat) (c : char) (cur s : jsstring) :
  isSpace c = false ->
  split_go n0 (Plus isSpace) 0 cur (c :: s)
  = split_go n0 (Plus isSpace) 0 (cur ++ [c]) s.
Proof. intros Hc. cbn [split_go]. now rewrite matchAt_spaces, Hc. Qed.

Lemma tokens_from_dropWhile (s : jsstring) :
  WordSpec.tokens_from [] (dropWhile isSpace s) = WordSpec.tokens_from [] s.
Proof.
  induction s as [|c s IH]; simpl; [reflexivity|].
  destruct (isSpace c) eqn:E; [exact IH|]. simpl. now rewrite E.
Qed.

Lemma no_trailing_tail (c : char) (s : jsstring) :
  dropWhile isSpace (rev (c :: s)) = rev (c :: s) ->
  dropWhile isSpace (rev s) = rev s.
Proof. simpl. apply dropWhile_prefix. Qed.

Lemma no_trailing_dropWhile (s : jsstring) :
  dropWhile isSpace (rev s) = rev s ->
  dropWhile isSpace (rev (dropWhile isSpace s)) = rev (dropWhile isSpace s).
Proof.
  destruct (dropWhile_split isSpace s) as [w Hw]. intros H.
  rewrite Hw, rev_app_distr in H. now apply dropWhile_prefix in H.
Qed.

Lemma dropWhile_nil_rev (s : jsstring) :
  dropWhile isSpace s = [] -> dropWhile isSpace (rev s) = [].
Proof.
  intros H.
  assert (Hall : forall l, Forall (fun c => isSpace c = true) l ->
                           dropWhile isSpace l = []).
  { induction l as [|c l IH]; simpl; intros Hl; [reflexivity|].
    inversion Hl as [|? ? Hc Hl']; subst. rewrite Hc. now apply IH. }
  apply Hall. apply Forall_rev.
  induction s as [|c s IH]; [constructor|]. simpl in H.
  destruct (isSpace c) eqn:E; [|discriminate]. constructor; [exact E|now apply IH].
Qed.

(** On a text that neither starts nor ends with whitespace, splitting at
    whitespace gives the tokens. *)
Lemma split_go_tokens (n0 : nat) (n : nat) :
  forall (s cur : jsstring),
    List.length s <= n ->
    dropWhile isSpace (rev s) = rev s ->
    (s = [] -> cur <> []) ->
    (cur = [] -> dropWhile isSpace s = s) ->
    split_go n0 (Plus isSpace) 0 cur s = WordSpec.tokens_from cur s.
Proof.
  induction n as [|n IH]; intros s cur Hlen Hend Hnil Hstart.
  - destruct s; [|simpl in Hlen; lia].
    specialize (Hnil eq_refl). now destruct cur.
  - destruct s as [|c s].
    + specialize (Hnil eq_refl). now destruct cur.
    + simpl in Hlen. destruct (isSpace c) eqn:Hc.
      * rewrite split_go_space by exact Hc.
        assert (Hcur : cur <> []).
        { intros ->. specialize (Hstart eq_refl). simpl in Hstart.
          rewrite Hc in Hstart. pose proof (dropWhile_length isSpace s) as Hl.
          rewrite Hstart in Hl. simpl in Hl. lia. }
        simpl. rewrite Hc. destruct cur as [|x cur]; [contradiction|].
        f_equal. rewrite <- tokens_from_dropWhile.
        pose proof (dropWhile_length isSpace s) as Hl.
        apply IH.
        -- lia.
        -- apply no_trailing_dropWhile. now apply no_trailing_tail in Hend.
        -- intros Hd. apply dropWhile_nil_rev in Hd.
           assert (Hs : dropWhile isSpace (rev s) = rev s)
             by now apply no_trailing_tail in Hend.
           rewrite Hd in Hs. symmetry in Hs.
           assert (s = []) by (apply (f_equal (@rev char)) in Hs;
                               now rewrite rev_involutive in Hs).
           subst s. simpl in Hend. rewrite Hc in Hend. discriminate.
        -- intros _. apply dropWhile_idem.
      * rewrite split_go_char by exact Hc. simpl. rewrite Hc. apply IH.
        -- lia.
        -- now apply no_trailing_tail in Hend.
        -- intros _. now destruct cur.
        -- intros Hcur. now destruct cur.
Qed.

Lemma split_tokens (s : jsstring) :
  s <> [] ->
  dropWhile isSpace s = s ->
  dropWhile isSpace (rev s) = rev s ->
  split (Plus isSpace) s = WordSpec.tokens s.
Proof.
  intros Hne Hstart Hend. unfold split, WordSpec.tokens.
  destruct s as [|c s]; [contradiction|].
  apply (split_go_tokens _ (List.length (c :: s))); try (intros; assumption);
    [lia|discriminate].
Qed.

(** ** Title cleaning (C2) *)

Lemma cleanTitle_rules (t : jsstring) :
  V2.cleanTitle t
  = if negb (truthy t) then [] else trim (TitleSpec.applyRules V2.cleaning_rules t).
Proof. reflexivity. Qed.

Lemma cleanTitle_trimmed (t : jsstring) :
  trim (V2.cleanTitle t) = V2.cleanTitle t.
Proof.
  rewrite cleanTitle_rules. destruct (negb (truthy t)); [reflexivity|].
  apply trim_idem.
Qed.

Lemma applyRules_unmatched (rules : list regex) (t : jsstring) :
  (forall r, In r rules -> test r t = false) -> TitleSpec.applyRules rules t = t.
Proof.
  unfold TitleSpec.applyRules. induction rules as [|r rules IH]; simpl; intros H;
    [reflexivity|].
  rewrite replace_unmatched by (apply H; now left).
  apply IH. intros r' Hr'. apply H. now right.
Qed.

Lemma applyRules_shorter (rules : list regex) :
  forall t, List.length (TitleSpec.applyRules rules t) <= List.length t.
Proof.
  unfold TitleSpec.applyRules. induction rules as [|r rules IH]; simpl; intros t; [lia|].
  specialize (IH (replace r [] t)). pose proof (replace_shorter r t). lia.
Qed.

Lemma applyRules_matched (rules : list regex) (t : jsstring) :
  (forall r, In r rules -> 1 <= min_len r) ->
  (exists r, In r rules /\ test r t = true) ->
  List.length (TitleSpec.applyRules rules t) < List.length t.
Proof.
  induction rules as [|r rules IH]; intros Hmin [r0 [Hin Ht]];
    [contradiction|].
  change (TitleSpec.applyRules (r :: rules) t) with (TitleSpec.applyRules rules (replace r [] t)).
  destruct (test r t) eqn:E.
  - pose proof (replace_matched_shorter r t E) as H1.
    pose proof (applyRules_shorter rules (replace r [] t)) as H2.
    specialize (Hmin r (or_introl eq_refl)). lia.
  - rewrite replace_unmatched by exact E. apply IH.
    + intros r' Hr'. apply Hmin. now right.
    + destruct Hin as [->|Hin]; [congruence|]. now exists r0.
Qed.

Lemma cleaning_rules_consume :
  forall r, In r V2.cleaning_rules -> 1 <= min_len r.
Proof.
  assert (H : forallb (fun r => 1 <=? min_len r) V2.cleaning_rules = true)
    by (vm_compute; reflexivity).
  intros r Hr. rewrite forallb_forall in H. apply Nat.leb_le. now apply H.
Qed.

Lemma cleaning_rules_empty :
  forall r, In r V2.cleaning_rules -> test r [] = false.
Proof.
  assert (H : forallb (fun r => negb (test r [])) V2.cleaning_rules = true)
    by (vm_compute; reflexivity).
  intros r Hr. rewrite forallb_forall in H. apply negb_true_iff. now apply H.
Qed.

(** A title is a fixed point of [cleanTitle] exactly when it is trimmed
    and none of the five patterns matches it. *)
Lemma cleanTitle_fixed_point (x : jsstring) :
  V2.cleanTitle x = x
  <-> trim x = x /\ forall r, In r V2.cleaning_rules -> test r x = false.
Proof.
  rewrite cleanTitle_rules. split.
  - intros H. split.
    + rewrite <- H at 1. rewrite <- cleanTitle_rules.
      rewrite cleanTitle_trimmed, cleanTitle_rules. exact H.
    + intros r Hr. destruct (test r x) eqn:E; [exfalso|reflexivity].
      destruct x as [|c x].
      * rewrite (cleaning_rules_empty r Hr) in E. discriminate.
      * simpl negb in H. cbv iota in H.
        assert (Hlt : List.length (TitleSpec.applyRules V2.cleaning_rules (c :: x))
                      < List.length (c :: x)).
        { apply applyRules_matched; [exact cleaning_rules_consume|].
          now exists r. }
        pose proof (trim_length (TitleSpec.applyRules V2.cleaning_rules (c :: x))) as Hl.
        rewrite H in Hl. lia.
  - intros [Htrim Hnone]. rewrite (applyRules_unmatched _ _ Hnone), Htrim.
    destruct x; reflexivity.
Qed.

(** C2, as the code has it. Cleaning a title a second time changes nothing
    exactly when none of the five patterns of [cleanTitle] (text after a
    dash or pipe, text after a pipe, a leading story/chapter/part, a
    trailing "- read online/free/story", a trailing parenthesis) matches
    the title cleaned once. *)
Theorem cleanTitle_twice (t : jsstring) :
  V2.cleanTitle (V2.cleanTitle t) = V2.cleanTitle t
  <-> forall r, In r V2.cleaning_rules -> test r (V2.cleanTitle t) = false.
Proof.
  rewrite cleanTitle_fixed_point. split.
  - now intros [_ H].
  - intros H. split; [apply cleanTitle_trimmed|exact H].
Qed.

(** Titles without separator, parenthesis and role marker are left alone. *)

Lemma test_denotes (r : regex) (s : jsstring) :
  test r s = true ->
  exists pre m post,
    s = pre ++ m ++ post /\ denotes (List.length s) r m post.
Proof.
  unfold test. destruct (exec r s) as [[pre post]|] eqn:E; [|discriminate].
  intros _. apply exec_sound in E as [m [Hs Hm]]. now exists pre, m, post.
Qed.

Lemma existsb_middle (p : char -> bool) (a b : jsstring) (c : char) :
  p c = true -> existsb p (a ++ c :: b) = true.
Proof.
  intros Hc. rewrite existsb_app. simpl. rewrite Hc. apply orb_true_r.
Qed.

Lemma seq_of_chr_i_prefix (n0 : nat) (w : jsstring) :
  forall m rest tail,
    denotes n0 (seq_of chr_i w) m rest ->
    TitleSpec.startsWith_i w (m ++ tail) = true.
Proof.
  induction w as [|c w IH]; intros m rest tail H; [reflexivity|].
  destruct w as [|c' w].
  - destruct H as [x [-> Hx]]. simpl. unfold chr_i in Hx. now rewrite Hx.
  - destruct H as [m1 [m2 [-> [[x [-> Hx]] H2]]]].
    cbn [app TitleSpec.startsWith_i]. unfold chr_i in Hx. rewrite Hx.
    apply (IH m2 rest tail H2).
Qed.

Lemma plain_after_dash (x : jsstring) :
  existsb V2.isSeparator x = false -> test V2.re_after_dash x = false.
Proof.
  intros Hx. destruct (test V2.re_after_dash x) eqn:E; [|reflexivity].
  apply test_denotes in E as [pre [m [post [Hs Hm]]]].
  destruct Hm as [m1 [m2 [-> [_ [m3 [m4 [-> [[c [-> Hc]] _]]]]]]]].
  rewrite Hs in Hx. rewrite <- !app_assoc in Hx.
  rewrite (app_assoc pre m1) in Hx. cbn [app] in Hx.
  now rewrite (existsb_middle _ _ _ _ Hc) in Hx.
Qed.

Lemma plain_after_pipe (x : jsstring) :
  existsb V2.isSeparator x = false -> test V2.re_after_pipe x = false.
Proof.
  intros Hx. destruct (test V2.re_after_pipe x) eqn:E; [|reflexivity].
  apply test_denotes in E as [pre [m [post [Hs Hm]]]].
  destruct Hm as [m1 [m2 [-> [_ [m3 [m4 [-> [[c [-> Hc]] _]]]]]]]].
  apply char_eqb_eq in Hc. subst c.
  rewrite Hs in Hx. rewrite <- !app_assoc in Hx.
  rewrite (app_assoc pre m1) in Hx. cbn [app] in Hx.
  now rewrite (existsb_middle V2.isSeparator _ _ 124%N eq_refl) in Hx.
Qed.

Lemma plain_qualifier (x : jsstring) :
  existsb V2.isSeparator x = false -> test V2.re_qualifier x = false.
Proof.
  intros Hx. destruct (test V2.re_qualifier x) eqn:E; [|reflexivity].
  apply test_denotes in E as [pre [m [post [Hs Hm]]]].
  destruct Hm as [m1 [m2 [-> [_ [m3 [m4 [-> [[c [-> Hc]] _]]]]]]]].
  apply char_eqb_eq in Hc. subst c.
  rewrite Hs in Hx. rewrite <- !app_assoc in Hx.
  rewrite (app_assoc pre m1) in Hx. cbn [app] in Hx.
  now rewrite (existsb_middle V2.isSeparator _ _ 45%N eq_refl) in Hx.
Qed.

Lemma plain_parenthetical (x : jsstring) :
  existsb (chr 40%N) x = false -> test V2.re_parenthetical x = false.
Proof.
  intros Hx. destruct (test V2.re_parenthetical x) eqn:E; [|reflexivity].
  apply test_denotes in E as [pre [m [post [Hs Hm]]]].
  destruct Hm as [m1 [m2 [-> [_ [m3 [m4 [-> [[c [-> Hc]] _]]]]]]]].
  rewrite Hs in Hx. rewrite <- !app_assoc in Hx.
  rewrite (app_assoc pre m1) in Hx. cbn [app] in Hx.
  now rewrite (existsb_middle _ _ _ _ Hc) in Hx.
Qed.

Lemma plain_role_prefix (x : jsstring) :
  TitleSpec.hasRoleMarker x = false -> test V2.re_role_prefix x = false.
Proof.
  intros Hx. destruct (test V2.re_role_prefix x) eqn:E; [|reflexivity].
  apply test_denotes in E as [pre [m [post [Hs Hm]]]].
  destruct Hm as [m1 [m2 [-> [[-> Hbol] [m3 [m4 [-> [Hword _]]]]]]]].
  assert (Hpre : pre = []).
  { apply (f_equal (@List.length char)) in Hs.
    rewrite !length_app in Hs. rewrite !length_app in Hbol.
    destruct pre; [reflexivity|]. simpl in Hs, Hbol. lia. }
  subst pre. cbn [app] in Hs. subst x.
  unfold TitleSpec.hasRoleMarker in Hx. cbn [existsb] in Hx.
  apply orb_false_iff in Hx as [H1 Hx]. apply orb_false_iff in Hx as [H2 Hx].
  apply orb_false_iff in Hx as [H3 _].
  rewrite <- app_assoc in H1, H2, H3.
  destruct Hword as [Hw|[Hw|Hw]].
  - apply seq_of_chr_i_prefix with (tail := m4 ++ post) in Hw.
    unfold lit in H1. simpl in H1, Hw. congruence.
  - apply seq_of_chr_i_prefix with (tail := m4 ++ post) in Hw.
    unfold lit in H2. simpl in H2, Hw. congruence.
  - apply seq_of_chr_i_prefix with (tail := m4 ++ post) in Hw.
    unfold lit in H3. simpl in H3, Hw. congruence.
Qed.

(** A trimmed title without dash, pipe, opening parenthesis and leading
    role marker is a fixed point of [cleanTitle]; so cleaning is idempotent
    on every title whose cleaned form is of that kind. *)
Lemma cleanTitle_plain (t : jsstring) :
  TitleSpec.plain (V2.cleanTitle t) = true ->
  V2.cleanTitle (V2.cleanTitle t) = V2.cleanTitle t.
Proof.
  unfold TitleSpec.plain. intros H.
  apply andb_true_iff in H as [H Hrole]. apply andb_true_iff in H as [Hsep Hpar].
  apply negb_true_iff in Hrole, Hsep, Hpar.
  apply cleanTitle_fixed_point. split; [apply cleanTitle_trimmed|].
  intros r Hr.
  destruct Hr as [<-|[<-|[<-|[<-|[<-|[]]]]]].
  - now apply plain_after_dash.
  - now apply plain_after_pipe.
  - now apply plain_role_prefix.
  - now apply plain_qualifier.
  - now apply plain_parenthetical.
Qed.

Lemma cleanTitle_length (t : jsstring) :
  List.length (V2.cleanTitle t) <= List.length t.
Proof.
  rewrite cleanTitle_rules. destruct (negb (truthy t)); [simpl; lia|].
  pose proof (trim_length (TitleSpec.applyRules V2.cleaning_rules t)).
  pose proof (applyRules_shorter V2.cleaning_rules t). lia.
Qed.

(** ** The content score (C5) *)

Lemma keywordScore_count (className : jsstring) (delta : Z)
  (keywords : list string) (score : Z) :
  V2.keywordScore className delta (List.map lit keywords) score
  = (score + delta * ScoreSpec.occurrences className keywords)%Z.
Proof.
  unfold V2.keywordScore, ScoreSpec.occurrences.
  revert score. induction keywords as [|k ks IH]; intros score; simpl.
  - lia.
  - rewrite IH. destruct (includes className (lit k)); simpl List.length; lia.
Qed.

(** On a quotient with a positive divisor, [<] as the code tests it is the
    order of the rationals. *)
Lemma Qltb_quotient (textLength n : nat) (b : Z) :
  V2.Qltb (QArith_base.Qmake (Z.of_nat textLength) (Pos.of_nat (S n)))
          (QArith_base.Qmake b 1)
  = match QArith_base.Qcompare
            (QArith_base.Qdiv (QArith_base.inject_Z (Z.of_nat textLength))
                              (QArith_base.inject_Z (Z.of_nat (S n))))
            (QArith_base.inject_Z b) with
    | Lt => true
    | _ => false
    end.
Proof.
  assert (Hq : QArith_base.Qeq
                 (QArith_base.Qdiv (QArith_base.inject_Z (Z.of_nat textLength))
                                   (QArith_base.inject_Z (Z.of_nat (S n))))
                 (QArith_base.Qmake (Z.of_nat textLength) (Pos.of_nat (S n)))).
  { rewrite QArith_base.Qmake_Qdiv.
    replace (Z.pos (Pos.of_nat (S n))) with (Z.of_nat (S n)); [reflexivity|].
    rewrite <- Pos.of_nat_succ. now rewrite Zpos_P_of_succ_nat, Nat2Z.inj_succ. }
  rewrite Hq. unfold V2.Qltb, QArith_base.Qle_bool, QArith_base.Qcompare.
  cbn [QArith_base.Qnum QArith_base.Qden QArith_base.inject_Z].
  rewrite Z.leb_compare, (Z.compare_antisym (Z.of_nat textLength * 1)).
  now destruct (Z.of_nat textLength * 1 ?= b * Z.pos (Pos.of_nat (S n)))%Z.
Qed.

(** With at least one non-empty line the quotient is below 30 exactly when
    the text length is below 30 times the number of lines. *)
Lemma shortLinePenalty_lines (textLength n : nat) :
  ScoreSpec.shortLinePenalty textLength (S n)
  = if textLength <? 30 * S n then 100%Z else 0%Z.
Proof.
  unfold ScoreSpec.shortLinePenalty.
  pose proof (Qltb_quotient textLength n 30) as H.
  change (QArith_base.inject_Z 30) with (QArith_base.Qmake 30 1).
  change (QArith_base.inject_Z 30) with (QArith_base.Qmake 30 1) in H.
  destruct (QArith_base.Qcompare _ _);
    unfold V2.Qltb, QArith_base.Qle_bool in H;
    cbn [QArith_base.Qnum QArith_base.Qden] in H;
    rewrite <- Pos.of_nat_succ, Zpos_P_of_succ_nat in H;
    destruct (Nat.ltb_spec textLength (30 * S n)); try reflexivity;
    apply (f_equal negb) in H; rewrite negb_involutive in H; cbn [negb] in H;
    [apply Z.leb_le in H|apply Z.leb_gt in H|apply Z.leb_le in H]; lia.
Qed.

Lemma trim_nil_spaces (line : jsstring) :
  trim line = [] -> forallb isSpace line = true.
Proof.
  unfold trim, trimEnd, trimStart. intros H.
  assert (Hd : dropWhile isSpace line = []).
  { destruct (dropWhile isSpace line) as [|c rest] eqn:E; [reflexivity|].
    exfalso.
    assert (Hc : isSpace c = false).
    { pose proof (dropWhile_idem isSpace line) as Hi. rewrite E in Hi.
      simpl in Hi. destruct (isSpace c); [|reflexivity].
      pose proof (dropWhile_length isSpace rest) as Hl. rewrite Hi in Hl.
      simpl in Hl. lia. }
    apply (f_equal (@rev char)) in H. rewrite rev_involutive in H.
    simpl in H. destruct (dropWhile_split isSpace (rev rest ++ [c])) as [w Hw].
    rewrite H, app_nil_r in Hw.
    assert (Hall : forall l, dropWhile isSpace l = [] -> forallb isSpace l = true).
    { induction l as [|x l IH]; simpl; [reflexivity|].
      destruct (isSpace x); [exact IH|discriminate]. }
    apply Hall in H. rewrite forallb_app in H. simpl in H.
    rewrite Hc in H. rewrite andb_false_r in H. discriminate. }
  clear H. induction line as [|x l IH]; simpl in *; [reflexivity|].
  destruct (isSpace x); [now apply IH|discriminate].
Qed.

Lemma nonEmptyLines_nil_spaces (s : jsstring) :
  forall cur,
    List.filter (fun line => 0 <? List.length (trim line)) (splitChar 10%N cur s)
    = [] ->
    forallb isSpace (cur ++ s) = true.
Proof.
  induction s as [|c s IH]; intros cur H; simpl in H.
  - rewrite app_nil_r. destruct (trim cur) eqn:E; [|discriminate].
    now apply trim_nil_spaces.
  - destruct (char_eqb c 10%N) eqn:Ec.
    + apply char_eqb_eq in Ec. subst c. simpl in H.
      destruct (trim cur) eqn:E; [|discriminate]. simpl in H.
      apply trim_nil_spaces in E. apply IH in H. simpl in H.
      rewrite forallb_app. simpl. now rewrite E, H.
    + apply IH in H. now rewrite <- app_assoc in H.
Qed.

(** A text that is trimmed and not empty has a non-empty line, so the
    average of [scoreContentElement] is 0 only for the empty text. *)
Lemma trimmed_text_has_line (t : jsstring) :
  t <> [] -> trim t = t -> V2.nonEmptyLines t <> [].
Proof.
  intros Hne Htrim Hnil. unfold V2.nonEmptyLines in Hnil.
  apply nonEmptyLines_nil_spaces in Hnil. simpl in Hnil.
  destruct t as [|c t]; [contradiction|].
  pose proof (trim_no_leading (c :: t)) as Hl. rewrite Htrim in Hl.
  simpl in Hl, Hnil. destruct (isSpace c); [|discriminate].
  pose proof (dropWhile_length isSpace t) as Hlen. rewrite Hl in Hlen.
  simpl in Hlen. lia.
Qed.

Lemma filter_twice (A : Type) (f g : A -> bool) (l : list A) :
  List.filter f (List.filter g l) = List.filter (fun x => (g x && f x)%bool) l.
Proof.
  induction l as [|x l IH]; simpl; [reflexivity|].
  destruct (g x); simpl; [destruct (f x)|]; now rewrite IH.
Qed.

(** ** [Map] *)

Section MapFacts.
Variable V : Type.
Implicit Types (m : JSMap V) (k : jsstring) (v : V).

Lemma keys_map_set_in k v m :
  In k (keys m) -> keys (map_set k v m) = keys m.
Proof.
  induction m as [|[k' v'] m IH]; simpl; intros Hin; [contradiction|].
  destruct (str_eqb k' k) eqn:E; [reflexivity|].
  simpl. f_equal. apply IH. destruct Hin as [->|Hin]; [|exact Hin].
  rewrite str_eqb_refl in E. discriminate.
Qed.

Lemma keys_map_set_notin k v m :
  ~ In k (keys m) -> keys (map_set k v m) = keys m ++ [k].
Proof.
  induction m as [|[k' v'] m IH]; simpl; intros Hin; [reflexivity|].
  destruct (str_eqb k' k) eqn:E.
  - apply str_eqb_eq in E. subst. exfalso. apply Hin. now left.
  - simpl. f_equal. apply IH. intros H. apply Hin. now right.
Qed.

Lemma map_get_set_eq k v m : map_get k (map_set k v m) = Some v.
Proof.
  induction m as [|[k' v'] m IH]; simpl.
  - now rewrite str_eqb_refl.
  - destruct (str_eqb k' k) eqn:E; simpl; rewrite E; [reflexivity|exact IH].
Qed.

Lemma map_get_set_neq k k' v m :
  k <> k' -> map_get k' (map_set k v m) = map_get k' m.
Proof.
  intros Hne. induction m as [|[k1 v1] m IH]; simpl.
  - apply str_eqb_neq in Hne. now rewrite Hne.
  - destruct (str_eqb k1 k) eqn:E; simpl.
    + apply str_eqb_eq in E. subst k1.
      apply str_eqb_neq in Hne. now rewrite Hne.
    + destruct (str_eqb k1 k'); [reflexivity|exact IH].
Qed.

Lemma map_get_in k v m :
  NoDup (keys m) -> In (k, v) m -> map_get k m = Some v.
Proof.
  induction m as [|[k' v'] m IH]; simpl; intros Hnd Hin; [contradiction|].
  inversion Hnd as [|? ? Hk Hnd']; subst.
  destruct Hin as [E|Hin].
  - injection E as -> ->. now rewrite str_eqb_refl.
  - destruct (str_eqb k' k) eqn:E.
    + apply str_eqb_eq in E. subst. exfalso. apply Hk.
      change k with (fst (k, v)). now apply in_map.
    + now apply IH.
Qed.

Lemma map_get_some_in k v m : map_get k m = Some v -> In (k, v) m.
Proof.
  induction m as [|[k' v'] m IH]; simpl; [discriminate|].
  destruct (str_eqb k' k) eqn:E.
  - apply str_eqb_eq in E. intros H. injection H as ->. subst. now left.
  - intros H. right. now apply IH.
Qed.

Lemma lastValue_snoc k (entries : list (jsstring * V)) (kv : jsstring * V) :
  lastValue k (entries ++ [kv])
  = if str_eqb (fst kv) k then Some (snd kv) else lastValue k entries.
Proof.
  unfold lastValue. rewrite rev_app_distr. simpl.
  destruct (str_eqb (fst kv) k); reflexivity.
Qed.

Lemma map_get_build k (entries : list (jsstring * V)) :
  forall m, map_get k (build entries m)
            = match lastValue k entries with
              | Some v => Some v
              | None => map_get k m
              end.
Proof.
  induction entries as [|kv entries IH] using rev_ind; intros m.
  - reflexivity.
  - unfold build. rewrite fold_left_app. simpl. fold (build entries m).
    rewrite lastValue_snoc. destruct (str_eqb (fst kv) k) eqn:E.
    + apply str_eqb_eq in E. subst. apply map_get_set_eq.
    + rewrite map_get_set_neq; [apply IH|]. now apply str_eqb_neq.
Qed.

(** The keys of a map keep the order of their first insertion. *)
Lemma keys_build (entries : list (jsstring * V)) :
  forall m, NoDup (keys m) ->
    keys (build entries m)
    = keys m ++ List.filter (fun k => negb (existsb (str_eqb k) (keys m)))
                  (firstOccurrences (List.map fst entries)).
Proof.
  induction entries as [|[k v] entries IH]; intros m Hnd; simpl.
  - now rewrite app_nil_r.
  - destruct (existsb (str_eqb k) (keys m)) eqn:E; simpl.
    + assert (Hin : In k (keys m)).
      { apply existsb_exists in E as [x [Hx Hk]].
        apply str_eqb_eq in Hk. now subst. }
      rewrite IH.
      * rewrite keys_map_set_in by exact Hin. f_equal.
        rewrite filter_twice. apply filter_ext_in. intros x _.
        destruct (existsb (str_eqb x) (keys m)) eqn:Ex; simpl;
          [now rewrite andb_false_r|].
        destruct (str_eqb x k) eqn:Exk; [|reflexivity].
        apply str_eqb_eq in Exk. subst. congruence.
      * now rewrite keys_map_set_in.
    + assert (Hin : ~ In k (keys m)).
      { intros H. assert (existsb (str_eqb k) (keys m) = true); [|congruence].
        apply existsb_exists. exists k. split; [exact H|apply str_eqb_refl]. }
      rewrite IH.
      * rewrite keys_map_set_notin by exact Hin. rewrite <- app_assoc. simpl.
        do 2 f_equal. rewrite filter_twice. apply filter_ext_in.
        intros x _. rewrite existsb_app. simpl. rewrite orb_false_r.
        rewrite negb_orb. rewrite (str_eqb_sym x k). apply andb_comm.
      * rewrite keys_map_set_notin by exact Hin.
        apply NoDup_app; [exact Hnd|repeat constructor; intros []|].
        intros x Hx [<-|[]]. contradiction.
Qed.

Lemma NoDup_firstOccurrences (l : list jsstring) :
  NoDup (firstOccurrences l).
Proof.
  induction l as [|x l IH]; simpl; constructor.
  - intros H. apply filter_In in H as [_ H]. now rewrite str_eqb_refl in H.
  - now apply NoDup_filter.
Qed.

Lemma keys_newMap (entries : list (jsstring * V)) :
  keys (newMap entries) = firstOccurrences (List.map fst entries).
Proof.
  unfold newMap. fold (build entries []).
  rewrite keys_build by constructor. simpl.
  apply forallb_filter_id. apply forallb_forall. reflexivity.
Qed.

Lemma map_get_newMap k (entries : list (jsstring * V)) :
  map_get k (newMap entries) = lastValue k entries.
Proof.
  unfold newMap. fold (build entries []). rewrite map_get_build.
  now destruct (lastValue k entries).
Qed.
End MapFacts.

(** ** Deduplication through a [Map] *)

Section UniqueByFacts.
Variable A : Type.
Variable key : A -> jsstring.

Lemma keyed_map_set k (v : A) (m : JSMap A) :
  k = key v ->
  Forall (fun kv => fst kv = key (snd kv)) m ->
  Forall (fun kv => fst kv = key (snd kv)) (map_set k v m).
Proof.
  intros Hk. induction m as [|[k' v'] m IH]; simpl; intros H.
  - repeat constructor. exact Hk.
  - inversion H as [|? ? Hkv Hm]; subst. destruct (str_eqb k' _) eqn:E.
    + apply str_eqb_eq in E. constructor; [exact E|exact Hm].
    + constructor; [exact Hkv|now apply IH].
Qed.

Lemma keyed_build (l : list A) :
  forall m,
    Forall (fun kv => fst kv = key (snd kv)) m ->
    Forall (fun kv => fst kv = key (snd kv)) (build (keyed key l) m).
Proof.
  induction l as [|x l IH]; simpl; intros m Hm; [exact Hm|].
  apply IH. now apply keyed_map_set.
Qed.

Lemma keyed_newMap (l : list A) :
  Forall (fun kv => fst kv = key (snd kv)) (newMap (keyed key l)).
Proof. apply (keyed_build l []). constructor. Qed.

(** The keys of the deduplicated list are the keys of the list in the
    order of their first occurrence. *)
Lemma uniqueBy_keys (l : list A) :
  List.map key (uniqueBy key l) = firstOccurrences (List.map key l).
Proof.
  unfold uniqueBy.
  transitivity (keys (newMap (keyed key l))).
  - unfold values, keys. rewrite map_map.
    apply map_ext_in. intros kv Hin. symmetry.
    exact (proj1 (Forall_forall _ _) (keyed_newMap l) kv Hin).
  - rewrite keys_newMap. unfold keyed. now rewrite map_map.
Qed.

Lemma lastValue_keyed u (l : list A) :
  lastValue u (keyed key l) = lastWith key u l.
Proof.
  unfold lastValue, lastWith, firstWith, keyed.
  rewrite <- map_rev. induction (rev l) as [|x r IH]; simpl; [reflexivity|].
  destruct (str_eqb (key x) u); [reflexivity|exact IH].
Qed.

(** Each element of the deduplicated list is the last element of the list
    with its key. *)
Lemma uniqueBy_last (l : list A) (x : A) :
  In x (uniqueBy key l) -> lastWith key (key x) l = Some x.
Proof.
  unfold uniqueBy. unfold values.
  intros Hin. apply in_map_iff in Hin as [[k v] [Hv Hin]]. simpl in Hv. subst v.
  assert (Hk : k = key x)
    by exact (proj1 (Forall_forall _ _) (keyed_newMap l) _ Hin).
  subst k. rewrite <- lastValue_keyed, <- map_get_newMap.
  apply map_get_in; [|exact Hin].
  change (NoDup (keys (newMap (keyed key l)))).
  rewrite keys_newMap. apply NoDup_firstOccurrences.
Qed.

Lemma lastWith_In u (l : list A) (x : A) :
  lastWith key u l = Some x -> In x l.
Proof.
  unfold lastWith, firstWith. intros H.
  apply find_some in H as [H _]. now apply in_rev.
Qed.

Lemma uniqueBy_In (l : list A) (x : A) : In x (uniqueBy key l) -> In x l.
Proof. intros H. apply uniqueBy_last in H. now apply lastWith_In in H. Qed.

Lemma uniqueBy_NoDup (l : list A) : NoDup (List.map key (uniqueBy key l)).
Proof. rewrite uniqueBy_keys. apply NoDup_firstOccurrences. Qed.
End UniqueByFacts.

(** ** The page scan (C3, C4, C9) *)

Lemma slice0_firstn (A : Type) (n : Z) (l : list A) :
  exists m, slice0 n l = firstn m l.
Proof. unfold slice0. destruct (n <? 0)%Z; eexists; reflexivity. Qed.

Lemma slice0_In (A : Type) (n : Z) (l : list A) (x : A) :
  In x (slice0 n l) -> In x l.
Proof.
  destruct (slice0_firstn _ n l) as [m ->].
  rewrite <- (firstn_skipn m l) at 2. intros H. apply in_or_app. now left.
Qed.

Lemma slice0_map (A B : Type) (f : A -> B) (n : Z) (l : list A) :
  List.map f (slice0 n l) = slice0 n (List.map f l).
Proof.
  unfold slice0. rewrite length_map. destruct (n <? 0)%Z; symmetry; apply firstn_map.
Qed.

Lemma NoDup_firstn (A : Type) (m : nat) (l : list A) :
  NoDup l -> NoDup (firstn m l).
Proof.
  revert l. induction m as [|m IH]; intros [|x l] H; simpl; try constructor.
  - inversion H as [|? ? Hx Hl]; subst. intros Hin. apply Hx.
    rewrite <- (firstn_skipn m l). apply in_or_app. now left.
  - inversion H; subst. now apply IH.
Qed.

Lemma filterM_filter (A : Type) (f : A -> option bool) (l r : list A) :
  V2.filterM f l = Some r ->
  r = List.filter (fun x => match f x with Some true => true | _ => false end) l.
Proof.
  revert r. induction l as [|x l IH]; simpl; intros r H.
  - now injection H as <-.
  - destruct (f x) as [b|]; [|discriminate].
    destruct (V2.filterM f l) as [r'|]; [|discriminate].
    injection H as <-. rewrite (IH r' eq_refl). now destruct b.
Qed.

Section Links.
Context {P : Platform}.

Lemma linksToScrapeOf_passing o pageUrl doc links total :
  V2.linksToScrapeOf o pageUrl doc = Some (links, total) ->
  links = slice0 (V2.maxLinks o)
            (V2.uniqueLinksOf (LinkSpec.passingLinks o pageUrl doc)).
Proof.
  unfold V2.linksToScrapeOf, LinkSpec.passingLinks, LinkSpec.passes.
  destruct (URL_hostname pageUrl) as [baseDomain|]; [|discriminate].
  destruct (V2.filterM _ _) as [filtered|] eqn:E; [|discriminate].
  intros H. injection H as <- _. now rewrite (filterM_filter _ _ _ _ E).
Qed.

Lemma uniqueLinksOf_urls (l : list V2.Link) :
  List.map V2.link_url (V2.uniqueLinksOf l)
  = firstOccurrences (List.map V2.link_url l).
Proof. apply uniqueBy_keys. Qed.

Lemma uniqueLinksOf_last (l : list V2.Link) (x : V2.Link) :
  In x (V2.uniqueLinksOf l) ->
  LinkSpec.lastWithUrl (V2.link_url x) l = Some x.
Proof. apply uniqueBy_last. Qed.

Lemma lastWithUrl_In u (l : list V2.Link) (x : V2.Link) :
  LinkSpec.lastWithUrl u l = Some x -> In x l.
Proof. apply lastWith_In. Qed.

Lemma passes_not_rejected o pageUrl link :
  LinkSpec.passes o pageUrl link = true ->
  exists baseDomain linkDomain,
    URL_hostname pageUrl = Some baseDomain
    /\ URL_hostname (V2.link_url link) = Some linkDomain
    /\ V2.rejected o baseDomain linkDomain link = false.
Proof.
  unfold LinkSpec.passes, V2.linkFilter.
  destruct (URL_hostname pageUrl) as [baseDomain|]; [|discriminate].
  destruct (URL_hostname (V2.link_url link)) as [linkDomain|]; [|discriminate].
  destruct (V2.rejected o baseDomain linkDomain link) eqn:E; [discriminate|].
  intros _. now exists baseDomain, linkDomain.
Qed.

Lemma linksToScrapeOf_passes o pageUrl doc links total link :
  V2.linksToScrapeOf o pageUrl doc = Some (links, total) ->
  In link links ->
  LinkSpec.passes o pageUrl link = true.
Proof.
  intros H Hin. apply linksToScrapeOf_passing in H. subst links.
  apply slice0_In, uniqueLinksOf_last, lastWithUrl_In in Hin.
  unfold LinkSpec.passingLinks in Hin. now apply filter_In in Hin.
Qed.
End Links.

(** C4. With [sameDomainOnly] set, every link the page scan returns has the
    host name of the scanned page. *)
Theorem sameDomainOnly_links {P : Platform} (o : V2.Options)
  (pageUrl : jsstring) (doc : DocumentTree) (links : list V2.Link) (total : nat) :
  V2.sameDomainOnly o = true ->
  V2.linksToScrapeOf o pageUrl doc = Some (links, total) ->
  forall link, In link links ->
    exists d, URL_hostname (V2.link_url link) = Some d
              /\ URL_hostname pageUrl = Some d.
Proof.
  intros Hsame H link Hin.
  assert (Hp : LinkSpec.passes o pageUrl link = true)
    by (eapply linksToScrapeOf_passes; eauto).
  apply passes_not_rejected in Hp as [baseDomain [linkDomain [Hb [Hl Hrej]]]].
  exists linkDomain. split; [exact Hl|]. rewrite Hb. f_equal.
  unfold V2.rejected in Hrej. rewrite Hsame in Hrej. simpl in Hrej.
  destruct (str_eqb linkDomain baseDomain) eqn:E.
  - apply str_eqb_eq in E. now subst.
  - simpl in Hrej. discriminate.
Qed.

(** C3, as the code has it. The links the page scan returns have pairwise
    distinct URLs; their URLs come in the order of first occurrence among
    the links of the scan that pass the filter, cut off at [maxLinks]; and
    the link returned for a URL is the last link with that URL that passes
    the filter. *)
Theorem unique_links_keep_last {P : Platform} (o : V2.Options)
  (pageUrl : jsstring) (doc : DocumentTree) (links : list V2.Link) (total : nat) :
  V2.linksToScrapeOf o pageUrl doc = Some (links, total) ->
  NoDup (List.map V2.link_url links)
  /\ List.map V2.link_url links
     = slice0 (V2.maxLinks o)
         (firstOccurrences
            (List.map V2.link_url (LinkSpec.passingLinks o pageUrl doc)))
  /\ forall link, In link links ->
       LinkSpec.lastWithUrl (V2.link_url link)
         (LinkSpec.passingLinks o pageUrl doc) = Some link.
Proof.
  intros H. apply linksToScrapeOf_passing in H. subst links.
  assert (Hurls : List.map V2.link_url
                    (slice0 (V2.maxLinks o)
                       (V2.uniqueLinksOf (LinkSpec.passingLinks o pageUrl doc)))
                  = slice0 (V2.maxLinks o)
                      (firstOccurrences
                         (List.map V2.link_url
                            (LinkSpec.passingLinks o pageUrl doc)))).
  { now rewrite slice0_map, uniqueLinksOf_urls. }
  split; [|split].
  - rewrite Hurls. destruct (slice0_firstn _ (V2.maxLinks o)
      (firstOccurrences
         (List.map V2.link_url (LinkSpec.passingLinks o pageUrl doc)))) as [m ->].
    apply NoDup_firstn, NoDup_firstOccurrences.
  - exact Hurls.
  - intros link Hin. apply uniqueLinksOf_last. now apply slice0_In in Hin.
Qed.

(** C9, as the code has it. With a non-empty [filterPatterns], a link that
    survives the first four tests is kept exactly when some pattern, put in
    lower case, occurs in the lower-cased URL or in the lower-cased link
    text joined with the text of the parent; the story keywords and the
    other heuristics have no part in it. *)
Theorem allowlist_ignores_case {P : Platform} (o : V2.Options)
  (baseDomain linkDomain : jsstring) (link : V2.Link) :
  V2.filterPatterns o <> [] ->
  URL_hostname (V2.link_url link) = Some linkDomain ->
  V2.rejected o baseDomain linkDomain link = false ->
  (V2.linkFilter o baseDomain link = Some true
   <-> exists pattern,
         In pattern (V2.filterPatterns o)
         /\ (includes (toLowerCase (V2.link_url link)) (toLowerCase pattern) = true
             \/ includes (toLowerCase (V2.link_text link ++ lit " "
                                       ++ V2.link_parentText link))
                         (toLowerCase pattern) = true)).
Proof.
  intros Hne Hdom Hrej.
  assert (Hm : V2.linkFilter o baseDomain link = Some (V2.matchesPattern o link)).
  { unfold V2.linkFilter. rewrite Hdom, Hrej.
    destruct (V2.filterPatterns o); [contradiction|reflexivity]. }
  rewrite Hm. unfold V2.matchesPattern, V2.lowerUrl, V2.lowerText.
  split.
  - intros H. assert (H' := f_equal (fun x => match x with Some b => b | None => false end) H).
    simpl in H'. apply existsb_exists in H' as [x [Hx H']].
    exists x. split; [exact Hx|]. now apply orb_true_iff in H'.
  - intros [x [Hx H]]. f_equal. apply existsb_exists. exists x.
    split; [exact Hx|]. now apply orb_true_iff.
Qed.

(** ** The table *)

Lemma others_idem (u : jsstring) (d : Store.Database) :
  List.filter (fun r => negb (Store.has_url u r)) (CrawlSpec.others u d)
  = CrawlSpec.others u d.
Proof.
  unfold CrawlSpec.others. rewrite filter_twice. apply filter_ext.
  intros r. now destruct (Store.has_url u r).
Qed.

Lemma getStoryByUrl_none_others (u : jsstring) (d : Store.Database) :
  Store.getStoryByUrl u d = None -> CrawlSpec.others u d = Store.rows d.
Proof.
  unfold Store.getStoryByUrl, CrawlSpec.others.
  induction (Store.rows d) as [|r rows IH]; simpl; [reflexivity|].
  destruct (Store.has_url u r); simpl; [discriminate|].
  intros H. f_equal. now apply IH.
Qed.

Lemma getStoryByUrl_others (u : jsstring) (d : Store.Database) (i : Z) :
  Store.getStoryByUrl u {| Store.rows := CrawlSpec.others u d; Store.last_id := i |}
  = None.
Proof.
  unfold Store.getStoryByUrl, CrawlSpec.others. simpl.
  induction (Store.rows d) as [|r rows IH]; simpl; [reflexivity|].
  destruct (Store.has_url u r) eqn:E; simpl; [exact IH|]. now rewrite E.
Qed.

Lemma insertOrReplace_rows (u t c : jsstring) (a : option jsstring) (wc : nat)
  (dom : jsstring) (d : Store.Database) :
  Store.rows (Store.insertOrReplace u t c a wc dom d)
  = CrawlSpec.others u d
    ++ [{| Store.id := (Store.last_id d + 1)%Z; Store.url := u; Store.title := t;
           Store.content := c; Store.author := a; Store.word_count := wc;
           Store.domain := dom |}].
Proof. reflexivity. Qed.

Lemma delete_after_insert (u t c : jsstring) (a : option jsstring) (wc : nat)
  (dom : jsstring) (d : Store.Database) :
  Store.rows (snd (Store.deleteStoryByUrl u (Store.insertOrReplace u t c a wc dom d)))
  = CrawlSpec.others u d.
Proof.
  unfold Store.deleteStoryByUrl. cbn [snd Store.rows].
  rewrite insertOrReplace_rows, filter_app, others_idem.
  cbn [List.filter].
  assert (E : forall r, Store.url r = u -> negb (Store.has_url u r) = false).
  { intros r <-. unfold Store.has_url. now rewrite str_eqb_refl. }
  rewrite E by reflexivity. apply app_nil_r.
Qed.

Lemma delete_after_insert_db (u t c : jsstring) (a : option jsstring) (wc : nat)
  (dom : jsstring) (d : Store.Database) :
  snd (Store.deleteStoryByUrl u (Store.insertOrReplace u t c a wc dom d))
  = {| Store.rows := CrawlSpec.others u d;
       Store.last_id := (Store.last_id d + 1)%Z |}.
Proof.
  pose proof (delete_after_insert u t c a wc dom d) as H.
  unfold Store.deleteStoryByUrl in *. cbn [snd Store.rows] in *.
  now rewrite H.
Qed.

Lemma others_urls (u : jsstring) (d : Store.Database) :
  ~ In u (List.map Store.url (CrawlSpec.others u d)).
Proof.
  unfold CrawlSpec.others. intros H. apply in_map_iff in H as [r [Hu H]].
  apply filter_In in H as [_ H]. unfold Store.has_url in H.
  rewrite Hu, str_eqb_refl in H. discriminate.
Qed.

Lemma NoDup_map_filter (A B : Type) (f : A -> B) (p : A -> bool) (l : list A) :
  NoDup (List.map f l) -> NoDup (List.map f (List.filter p l)).
Proof.
  induction l as [|x l IH]; simpl; intros H; [constructor|].
  inversion H as [|? ? Hx Hl]; subst. destruct (p x); simpl; [|now apply IH].
  constructor; [|now apply IH]. intros Hin. apply Hx.
  apply in_map_iff in Hin as [y [Hy Hin]]. apply filter_In in Hin as [Hin _].
  rewrite <- Hy. now apply in_map.
Qed.

Lemma insertOrReplace_unique (u t c : jsstring) (a : option jsstring) (wc : nat)
  (dom : jsstring) (d : Store.Database) :
  CrawlSpec.uniqueUrls d ->
  CrawlSpec.uniqueUrls (Store.insertOrReplace u t c a wc dom d).
Proof.
  unfold CrawlSpec.uniqueUrls. intros H. rewrite insertOrReplace_rows.
  rewrite map_app. simpl. apply NoDup_app.
  - unfold CrawlSpec.others. now apply NoDup_map_filter.
  - repeat constructor. intros [].
  - intros x Hx [<-|[]]. now apply others_urls in Hx.
Qed.

(** ** Scraping one page (C10) *)

Section Scraping.
Context {P : Platform}.
Variable web : Web.

Lemma scrape_resolves (u : jsstring) (doc : DocumentTree) (host : jsstring)
  (w : World) :
  web u = Some doc ->
  URL_hostname u = Some host ->
  V2.scrape web u w
  = (Some (CrawlSpec.extracted doc host),
     {| db := Store.insertOrReplace u
                (V2.title (CrawlSpec.extracted doc host))
                (V2.content (CrawlSpec.extracted doc host))
                (V2.author (CrawlSpec.extracted doc host))
                (V2.wordCount (CrawlSpec.extracted doc host))
                host (db w);
        visited := visited w ++ [u] |}).
Proof.
  intros Hweb Hhost. unfold V2.scrape, bind, goto. rewrite Hweb.
  unfold CrawlSpec.extracted. destruct (V2.extractContent doc) as [c doc'].
  simpl. unfold of_option. rewrite Hhost. reflexivity.
Qed.

Lemma scrape_rejects_page (u : jsstring) (w : World) :
  web u = None ->
  V2.scrape web u w = (None, {| db := db w; visited := visited w ++ [u] |}).
Proof. intros Hweb. unfold V2.scrape, bind, goto. now rewrite Hweb. Qed.

Lemma scrape_rejects_host (u : jsstring) (doc : DocumentTree) (w : World) :
  web u = Some doc ->
  URL_hostname u = None ->
  V2.scrape web u w = (None, {| db := db w; visited := visited w ++ [u] |}).
Proof.
  intros Hweb Hhost. unfold V2.scrape, bind, goto. rewrite Hweb.
  destruct (V2.extractContent doc) as [c doc']. unfold of_option.
  now rewrite Hhost.
Qed.

Lemma scrape_unique (u : jsstring) (w : World) :
  CrawlSpec.uniqueUrls (db w) ->
  CrawlSpec.uniqueUrls (db (snd (V2.scrape web u w))).
Proof.
  intros H. destruct (web u) as [doc|] eqn:Hweb.
  - destruct (URL_hostname u) as [host|] eqn:Hhost.
    + rewrite (scrape_resolves _ _ _ w Hweb Hhost). cbn [snd db].
      now apply insertOrReplace_unique.
    + now rewrite (scrape_rejects_host _ _ w Hweb Hhost).
  - now rewrite (scrape_rejects_page _ w Hweb).
Qed.

Lemma afterScrapes_unique (urls : list jsstring) (w : World) :
  CrawlSpec.uniqueUrls (db w) ->
  CrawlSpec.uniqueUrls (db (CrawlSpec.afterScrapes web urls w)).
Proof.
  unfold CrawlSpec.afterScrapes. revert w.
  induction urls as [|u urls IH]; simpl; intros w H; [exact H|].
  apply IH. now apply scrape_unique.
Qed.

Lemma scrapeLink_existing (minLength : Z) (link : V2.Link)
  (results : list V2.Outcome) (errors : list V2.Failure) (w : World) :
  Store.getStoryByUrl (V2.link_url link) (db w) <> None ->
  V2.scrapeLink web minLength link (results, errors) w
  = (Some (results ++ [CrawlSpec.outcome link (V2.st_skipped V2.already_exists)],
           errors), w).
Proof.
  intros H. unfold V2.scrapeLink, try_catch, bind, V2.getStoryByUrl, readDb.
  destruct (Store.getStoryByUrl (V2.link_url link) (db w)); [reflexivity|].
  contradiction.
Qed.

Lemma scrapeLink_too_short (minLength : Z) (link : V2.Link)
  (results : list V2.Outcome) (errors : list V2.Failure) (w : World)
  (doc : DocumentTree) (host : jsstring) :
  Store.getStoryByUrl (V2.link_url link) (db w) = None ->
  web (V2.link_url link) = Some doc ->
  URL_hostname (V2.link_url link) = Some host ->
  (Z.of_nat (List.length (fst (V2.extractContent doc))) < minLength)%Z ->
  V2.scrapeLink web minLength link (results, errors) w
  = (Some (results ++ [CrawlSpec.outcome link (V2.st_skipped V2.content_too_short)],
           errors),
     {| db := {| Store.rows := Store.rows (db w);
                 Store.last_id := (Store.last_id (db w) + 1)%Z |};
        visited := visited w ++ [V2.link_url link] |}).
Proof.
  intros Hnone Hweb Hhost Hlen.
  unfold V2.scrapeLink, try_catch, bind at 1, V2.getStoryByUrl, readDb.
  rewrite Hnone. unfold bind at 1. rewrite (scrape_resolves _ _ _ w Hweb Hhost).
  assert (Hc : V2.content (CrawlSpec.extracted doc host)
               = fst (V2.extractContent doc)) by reflexivity.
  revert Hc. generalize (CrawlSpec.extracted doc host). intros r Hc.
  rewrite Hc. apply Z.ltb_lt in Hlen. rewrite Hlen.
  unfold bind, V2.deleteStoryByUrl, ret. cbn [db visited].
  rewrite (surjective_pairing (Store.deleteStoryByUrl _ _)).
  rewrite delete_after_insert_db.
  now rewrite (getStoryByUrl_none_others _ _ Hnone).
Qed.

Lemma scrapeLink_success (minLength : Z) (link : V2.Link)
  (results : list V2.Outcome) (errors : list V2.Failure) (w : World)
  (doc : DocumentTree) (host : jsstring) :
  Store.getStoryByUrl (V2.link_url link) (db w) = None ->
  web (V2.link_url link) = Some doc ->
  URL_hostname (V2.link_url link) = Some host ->
  (minLength <= Z.of_nat (List.length (fst (V2.extractContent doc))))%Z ->
  V2.scrapeLink web minLength link (results, errors) w
  = (Some (results
           ++ [CrawlSpec.outcome link
                 (V2.st_success (CrawlSpec.extracted doc host))],
           errors),
     snd (V2.scrape web (V2.link_url link) w)).
Proof.
  intros Hnone Hweb Hhost Hlen.
  unfold V2.scrapeLink, try_catch, bind at 1, V2.getStoryByUrl, readDb.
  rewrite Hnone. unfold bind at 1. rewrite (scrape_resolves _ _ _ w Hweb Hhost).
  assert (Hc : V2.content (CrawlSpec.extracted doc host)
               = fst (V2.extractContent doc)) by reflexivity.
  revert Hc. generalize (CrawlSpec.extracted doc host). intros r Hc.
  rewrite Hc. apply Z.ltb_ge in Hlen. rewrite Hlen. reflexivity.
Qed.

End Scraping.

Lemma getStoryByUrl_rows (u : jsstring) (d d' : Store.Database) :
  Store.rows d = Store.rows d' ->
  Store.getStoryByUrl u d = Store.getStoryByUrl u d'.
Proof. unfold Store.getStoryByUrl. now intros ->. Qed.

Lemma getStoryByUrl_inserted (u t c : jsstring) (a : option jsstring) (wc : nat)
  (dom : jsstring) (d : Store.Database) :
  Store.getStoryByUrl u (Store.insertOrReplace u t c a wc dom d)
  = Some {| Store.id := (Store.last_id d + 1)%Z; Store.url := u; Store.title := t;
            Store.content := c; Store.author := a; Store.word_count := wc;
            Store.domain := dom |}.
Proof.
  unfold Store.getStoryByUrl. rewrite insertOrReplace_rows.
  pose proof (getStoryByUrl_others u d 0) as H.
  unfold Store.getStoryByUrl in H. simpl in H.
  induction (CrawlSpec.others u d) as [|r rows IH]; simpl.
  - unfold Store.has_url. simpl. now rewrite str_eqb_refl.
  - simpl in H. destruct (Store.has_url u r); [discriminate|now apply IH].
Qed.

(** C10. In engine revision 2, scraping a page whose URL may already have
    a record neither skips nor rejects: it resolves with the fresh
    extraction, and the table afterwards consists of the rows of the other
    URLs followed by one new row for this URL, so that URLs stay unique;
    from a newly created table any sequence of scrapes leaves at most one
    row per URL; and the skip of URLs that already have a record is made by
    the loop over the links, which leaves the world as it is. *)
Theorem scrape_replaces_record {P : Platform} (web : Web) :
  (forall u doc host w,
      web u = Some doc ->
      URL_hostname u = Some host ->
      exists w',
        V2.scrape web u w = (Some (CrawlSpec.extracted doc host), w')
        /\ Store.rows (db w')
           = CrawlSpec.others u (db w)
             ++ [CrawlSpec.stored (Store.last_id (db w) + 1) u
                   (CrawlSpec.extracted doc host)]
        /\ Store.getStoryByUrl u (db w')
           = Some (CrawlSpec.stored (Store.last_id (db w) + 1) u
                     (CrawlSpec.extracted doc host))
        /\ (CrawlSpec.uniqueUrls (db w) -> CrawlSpec.uniqueUrls (db w')))
  /\ (forall urls seen,
        CrawlSpec.uniqueUrls
          (db (CrawlSpec.afterScrapes web urls
                 {| db := Store.created; visited := seen |})))
  /\ (forall minLength link results errors w,
        Store.getStoryByUrl (V2.link_url link) (db w) <> None ->
        V2.scrapeLink web minLength link (results, errors) w
        = (Some (results
                 ++ [CrawlSpec.outcome link (V2.st_skipped V2.already_exists)],
                 errors), w)).
Proof.
  split; [|split].
  - intros u doc host w Hweb Hhost. eexists. split; [|split; [|split]].
    + apply (scrape_resolves web _ _ _ w Hweb Hhost).
    + reflexivity.
    + cbn [db]. apply getStoryByUrl_inserted.
    + cbn [db]. apply insertOrReplace_unique.
  - intros urls seen. apply afterScrapes_unique. constructor.
  - intros. now apply scrapeLink_existing.
Qed.

(** The loop of revision 2 takes back what it wrote.  When the content
    extracted for a link is shorter than [minContentLength], the loop first
    lets [scrape] write a record for the URL, then records the link as
    skipped for too short a content and deletes the record: afterwards the
    table holds no record for the URL and has the rows it had before. *)
Theorem too_short_leaves_no_record {P : Platform} (web : Web) (minLength : Z)
  (link : V2.Link) (results : list V2.Outcome) (errors : list V2.Failure)
  (w : World) (doc : DocumentTree) (host : jsstring) :
  Store.getStoryByUrl (V2.link_url link) (db w) = None ->
  web (V2.link_url link) = Some doc ->
  URL_hostname (V2.link_url link) = Some host ->
  (Z.of_nat (List.length (fst (V2.extractContent doc))) < minLength)%Z ->
  exists w1 w',
    V2.scrape web (V2.link_url link) w
    = (Some (CrawlSpec.extracted doc host), w1)
    /\ Store.getStoryByUrl (V2.link_url link) (db w1) <> None
    /\ V2.scrapeLink web minLength link (results, errors) w
       = (Some (results
                ++ [CrawlSpec.outcome link (V2.st_skipped V2.content_too_short)],
                errors), w')
    /\ Store.getStoryByUrl (V2.link_url link) (db w') = None
    /\ Store.rows (db w') = Store.rows (db w).
Proof.
  intros Hnone Hweb Hhost Hlen. eexists. eexists.
  split; [apply (scrape_resolves web _ _ _ w Hweb Hhost)|].
  split; [cbn [db]; rewrite getStoryByUrl_inserted; discriminate|].
  split; [apply (scrapeLink_too_short web minLength link results errors w
                   _ _ Hnone Hweb Hhost Hlen)|].
  split; [|reflexivity].
  cbn [db]. rewrite <- Hnone. now apply getStoryByUrl_rows.
Qed.

(** Whenever the loop records a link as skipped for too short a content,
    no record for its URL is left. *)
Lemma recorded_too_short_no_record {P : Platform} (web : Web) (minLength : Z)
  (link : V2.Link) (results : list V2.Outcome) (errors : list V2.Failure)
  (w w' : World) (results' : list V2.Outcome) (errors' : list V2.Failure) :
  V2.scrapeLink web minLength link (results, errors) w
  = (Some (results', errors'), w') ->
  results'
  = results ++ [CrawlSpec.outcome link (V2.st_skipped V2.content_too_short)] ->
  Store.getStoryByUrl (V2.link_url link) (db w') = None
  /\ Store.rows (db w') = Store.rows (db w).
Proof.
  intros Hrun Hres.
  destruct (Store.getStoryByUrl (V2.link_url link) (db w)) as [r|] eqn:Hex.
  - rewrite scrapeLink_existing in Hrun by (rewrite Hex; discriminate).
    injection Hrun as Hr _ _. rewrite Hres in Hr.
    apply app_inv_head in Hr. discriminate.
  - destruct (web (V2.link_url link)) as [doc|] eqn:Hweb.
    + destruct (URL_hostname (V2.link_url link)) as [host|] eqn:Hhost.
      * destruct (Z.ltb_spec (Z.of_nat (List.length (fst (V2.extractContent doc))))
                    minLength) as [Hlt|Hge].
        -- rewrite (scrapeLink_too_short web minLength link results errors w
                      _ _ Hex Hweb Hhost Hlt) in Hrun.
           injection Hrun as _ _ <-. cbn [db]. split; [|reflexivity].
           rewrite <- Hex. now apply getStoryByUrl_rows.
        -- rewrite (scrapeLink_success web minLength link results errors w
                      _ _ Hex Hweb Hhost Hge) in Hrun.
           injection Hrun as Hr _ _. rewrite Hres in Hr.
           apply app_inv_head in Hr. discriminate.
      * unfold V2.scrapeLink, try_catch, bind at 1, V2.getStoryByUrl, readDb in Hrun.
        rewrite Hex in Hrun. unfold bind at 1 in Hrun.
        rewrite (scrape_rejects_host web _ _ w Hweb Hhost) in Hrun.
        unfold ret in Hrun. injection Hrun as Hr _ _. rewrite Hres in Hr.
        symmetry in Hr. rewrite <- (app_nil_r results) in Hr at 2.
        apply app_inv_head in Hr. discriminate.
    + unfold V2.scrapeLink, try_catch, bind at 1, V2.getStoryByUrl, readDb in Hrun.
      rewrite Hex in Hrun. unfold bind at 1 in Hrun.
      rewrite (scrape_rejects_page web _ w Hweb) in Hrun.
      unfold ret in Hrun. injection Hrun as Hr _ _. rewrite Hres in Hr.
      symmetry in Hr. rewrite <- (app_nil_r results) in Hr at 2.
      apply app_inv_head in Hr. discriminate.
Qed.

(** ** The crawl over the links (C6) *)

(** The loop of revision 2 on a duplicate, a short and a long page.  A
    crawl over three links, of which the first already has a record,
    the second yields a content shorter than [minContentLength] (50
    characters against 500, say) and the third a content that is long
    enough (2000 characters), resolves with the summary
    [{successful: 1, skipped: 2, failed: 0}]; the outcomes stand in the
    order of the links; and the browser opens the second and the third page
    once each and the first page not at all. *)
Theorem crawl_duplicate_short_long {P : Platform} (web : Web)
  (page : jsstring) (total : nat) (o : V2.Options) (A B C : V2.Link)
  (docB docC : DocumentTree) (hostB hostC : jsstring) (w : World) :
  Store.getStoryByUrl (V2.link_url A) (db w) <> None ->
  Store.getStoryByUrl (V2.link_url B) (db w) = None ->
  Store.getStoryByUrl (V2.link_url C) (db w) = None ->
  web (V2.link_url B) = Some docB ->
  URL_hostname (V2.link_url B) = Some hostB ->
  web (V2.link_url C) = Some docC ->
  URL_hostname (V2.link_url C) = Some hostC ->
  (Z.of_nat (List.length (fst (V2.extractContent docB))) < V2.minContentLength o)%Z ->
  (V2.minContentLength o <= Z.of_nat (List.length (fst (V2.extractContent docC))))%Z ->
  exists report w',
    V2.crawl web page total o [A; B; C] w = (Some report, w')
    /\ V2.summary report
       = {| V2.successful := 1; V2.skipped := 2; V2.failed := 0 |}
    /\ V2.results report
       = [CrawlSpec.outcome A (V2.st_skipped V2.already_exists);
          CrawlSpec.outcome B (V2.st_skipped V2.content_too_short);
          CrawlSpec.outcome C (V2.st_success (CrawlSpec.extracted docC hostC))]
    /\ V2.errors report = []
    /\ visited w' = visited w ++ [V2.link_url B; V2.link_url C].
Proof.
  intros HA HB HC HwB HhB HwC HhC HlenB HlenC.
  unfold V2.crawl, V2.scrapeLinks.
  unfold bind at 1. unfold bind at 1.
  rewrite (scrapeLink_existing web (V2.minContentLength o) A [] [] w HA).
  unfold bind at 1.
  rewrite (scrapeLink_too_short web (V2.minContentLength o) B _ [] w
             _ _ HB HwB HhB HlenB).
  unfold bind at 1.
  match goal with
  | |- context [V2.scrapeLink web _ C _ ?w1] =>
      assert (HC1 : Store.getStoryByUrl (V2.link_url C) (db w1) = None)
        by (rewrite <- HC; now apply getStoryByUrl_rows);
      rewrite (scrapeLink_success web (V2.minContentLength o) C _ [] w1
                 _ _ HC1 HwC HhC HlenC);
      rewrite (scrape_resolves web _ _ _ w1 HwC HhC)
  end.
  cbn [snd ret]. eexists. eexists. split; [reflexivity|].
  cbn [V2.summary V2.results V2.errors V2.summarise visited fst snd app].
  split; [reflexivity|]. split; [reflexivity|]. split; [reflexivity|].
  now rewrite <- app_assoc.
Qed.

(** ** Word counts in engine revision 2 (C1) *)

Lemma cleanContent_trimmed {P : Platform} (c : jsstring) :
  dropWhile isSpace (V2.cleanContent c) = V2.cleanContent c
  /\ dropWhile isSpace (rev (V2.cleanContent c)) = rev (V2.cleanContent c).
Proof.
  unfold V2.cleanContent. destruct (negb (truthy c)); [now split|].
  split; [apply trim_no_leading|apply trim_no_trailing].
Qed.

(** Whenever the extracted content is not empty, the word count of engine
    revision 2 is the number of whitespace-delimited tokens of the content;
    for the empty content it is 1. *)
Lemma wordCount_tokens {P : Platform} (doc : DocumentTree) (host : jsstring) :
  (V2.content (CrawlSpec.extracted doc host) <> [] ->
   V2.wordCount (CrawlSpec.extracted doc host)
   = List.length (WordSpec.tokens (V2.content (CrawlSpec.extracted doc host))))
  /\ (V2.content (CrawlSpec.extracted doc host) = [] ->
      V2.wordCount (CrawlSpec.extracted doc host) = 1).
Proof.
  unfold CrawlSpec.extracted. cbn [V2.content V2.wordCount].
  unfold V2.extractContent. cbn [fst].
  match goal with
  | |- context [V2.cleanContent ?b] =>
      destruct (cleanContent_trimmed b) as [Hs He];
      generalize dependent (V2.cleanContent b)
  end.
  intros c Hs He. split.
  - intros Hne. now rewrite split_tokens.
  - intros ->. reflexivity.
Qed.

(** ** Engine revision 3 *)

Section Revision3.
Context {P : Platform}.
Variable web : Web.

Lemma collect_In (A B : Type) (f : A -> option (list B)) (l : list A)
  (r : list B) (y : B) :
  V3.collect f l = Some r -> In y r ->
  exists x ys, In x l /\ f x = Some ys /\ In y ys.
Proof.
  revert r. induction l as [|x l IH]; simpl; intros r H Hin.
  - injection H as <-. contradiction.
  - destruct (f x) as [ys|] eqn:Ex; [|discriminate].
    destruct (V3.collect f l) as [r'|]; [|discriminate].
    injection H as <-. apply in_app_or in Hin as [Hin|Hin].
    + exists x, ys. auto.
    + destruct (IH r' eq_refl Hin) as [x' [ys' [Hx' [Hf Hy]]]].
      exists x', ys'. auto.
Qed.

(** The page scan of revision 3 also returns links with pairwise distinct
    URLs, and with [sameDomain] set each of them has the host name of the
    scanned page. *)
Lemma found_links (o : V3.Options) (pageUrl : jsstring) (doc : DocumentTree)
  (f : V3.Found) :
  V3.found o pageUrl doc = Some f ->
  NoDup (List.map V3.link_url (V3.linksToScrape f))
  /\ (V3.sameDomain o = true ->
      forall link, In link (V3.linksToScrape f) ->
        URL_hostname (V3.link_url link) = URL_hostname pageUrl).
Proof.
  unfold V3.found. destruct (URL_hostname pageUrl) as [baseDomain|] eqn:Hb;
    [|discriminate].
  destruct (V3.collect _ _) as [links|] eqn:Ec; [|discriminate].
  intros H. injection H as <-. cbn [V3.linksToScrape]. split.
  - rewrite slice0_map.
    destruct (slice0_firstn _ (V3.maxLinks o)
                (List.map V3.link_url (uniqueBy V3.link_url links))) as [m ->].
    apply NoDup_firstn, uniqueBy_NoDup.
  - intros Hsame link Hin. apply slice0_In, uniqueBy_In in Hin.
    destruct (collect_In _ _ _ _ _ _ Ec Hin) as [el [ys [_ [Hf Hy]]]].
    unfold V3.linkOf in Hf.
    destruct (attr "href" (h_elem el)) as [href|]; [|injection Hf as <-; contradiction].
    destruct (truthy href); [|injection Hf as <-; contradiction].
    destruct (URL_href href pageUrl) as [fullUrl|];
      [|injection Hf as <-; contradiction].
    destruct (URL_hostname fullUrl) as [linkDomain|] eqn:Hl; [|discriminate].
    injection Hf as <-.
    destruct (V3.kept o baseDomain linkDomain fullUrl _) eqn:Hk; [|contradiction].
    destruct Hy as [<-|[]]. cbn [V3.link_url]. rewrite Hl. f_equal.
    unfold V3.kept in Hk. rewrite Hsame in Hk. cbn [andb] in Hk.
    destruct (str_eqb linkDomain baseDomain) eqn:E; [|discriminate].
    now apply str_eqb_eq in E.
Qed.

(** In revision 3 the test for too short a text is never met: whatever
    [scrape] resolves with has no word count to compare. *)
Lemma never_too_short (result : V3.ScrapeResult) (minWordCount : Z) :
  V3.lessThan (V3.result_wordCount result) minWordCount = false.
Proof. now destruct result. Qed.

(** So a link that is not skipped as known and whose scrape resolves is
    counted as successful, and what [scrape] wrote stays in the table. *)
Lemma batchLink_counts_success (o : V3.BatchOptions) (link : V3.Link)
  (results : V3.BatchResults) (w w' : World) (result : V3.ScrapeResult) :
  Store.getStoryByUrl (V3.link_url link) (db w) = None ->
  V3.scrape web (V3.link_url link) w = (Some result, w') ->
  V3.batchLink web o link results w
  = (Some (V3.countSuccessful result results), w').
Proof.
  intros Hnone Hrun. unfold V3.batchLink, try_catch, bind.
  assert (Hk : (if V3.skipExisting o then V3.getStoryByUrl (V3.link_url link)
                else ret None) w = (Some None, w)).
  { destruct (V3.skipExisting o); [|reflexivity].
    unfold V3.getStoryByUrl, readDb. now rewrite Hnone. }
  rewrite Hk, Hrun, never_too_short. reflexivity.
Qed.
End Revision3.

(* ================================================================== *)
(** * Further properties of the engines *)
(* ================================================================== *)

(** ** Collapsing whitespace *)

Lemma replaceAll_go_skip (n0 : nat) (r : regex) (by_ : jsstring) (n : nat) :
  forall s : jsstring,
    S n <= List.length s ->
    replaceAll_go n0 r by_ (S n) s = replaceAll_go n0 r by_ 0 (skipn (S n) s).
Proof.
  induction n as [|n IH]; intros [|c s] Hlen; simpl in Hlen; try lia.
  - reflexivity.
  - change (replaceAll_go n0 r by_ (S (S n)) (c :: s))
      with (replaceAll_go n0 r by_ (S n) s).
    rewrite IH by lia. reflexivity.
Qed.

Lemma collapse_space (n0 : nat) (by_ : jsstring) (c : char) (s : jsstring) :
  isSpace c = true ->
  replaceAll_go n0 (Plus isSpace) by_ 0 (c :: s)
  = by_ ++ replaceAll_go n0 (Plus isSpace) by_ 0 (dropWhile isSpace s).
Proof.
  intros Hc. cbn [replaceAll_go]. rewrite matchAt_spaces, Hc.
  pose proof (dropWhile_length isSpace s) as Hl.
  replace (List.length (c :: s) - List.length (dropWhile isSpace s))
    with (S (List.length s - List.length (dropWhile isSpace s)))
    by (change (List.length (c :: s)) with (S (List.length s)); lia).
  f_equal.
  destruct (List.length s - List.length (dropWhile isSpace s)) as [|n] eqn:E.
  - rewrite <- (skipn_dropWhile isSpace s), E. reflexivity.
  - rewrite replaceAll_go_skip by lia. now rewrite <- E, skipn_dropWhile.
Qed.

Lemma collapse_char (n0 : nat) (by_ : jsstring) (c : char) (s : jsstring) :
  isSpace c = false ->
  replaceAll_go n0 (Plus isSpace) by_ 0 (c :: s)
  = c :: replaceAll_go n0 (Plus isSpace) by_ 0 s.
Proof. intros Hc. cbn [replaceAll_go]. now rewrite matchAt_spaces, Hc. Qed.

Lemma collapse_nil (n0 : nat) (by_ : jsstring) :
  replaceAll_go n0 (Plus isSpace) by_ 0 [] = [].
Proof. reflexivity. Qed.

Lemma dropWhile_head (p : char -> bool) (s : jsstring) :
  match dropWhile p s with d :: _ => p d = false | [] => True end.
Proof.
  induction s as [|c s IH]; simpl; [exact I|].
  destruct (p c) eqn:E; [exact IH|exact E].
Qed.

Lemma collapse_singleSpaced (n0 : nat) (n : nat) :
  forall s : jsstring,
    List.length s <= n ->
    TextSpec.singleSpaced (replaceAll_go n0 (Plus isSpace) (lit " ") 0 s) = true
    /\ List.length (replaceAll_go n0 (Plus isSpace) (lit " ") 0 s) <= List.length s
    /\ match s with
       | c :: _ =>
           isSpace c = false ->
           exists t, replaceAll_go n0 (Plus isSpace) (lit " ") 0 s = c :: t
       | [] => replaceAll_go n0 (Plus isSpace) (lit " ") 0 s = []
       end.
Proof.
  induction n as [|n IH]; intros s Hlen.
  - destruct s; [|simpl in Hlen; lia]. repeat split; reflexivity || lia.
  - destruct s as [|c s]; [repeat split; reflexivity || (simpl; lia)|].
    simpl in Hlen. destruct (isSpace c) eqn:Hc.
    + rewrite collapse_space by exact Hc.
      pose proof (dropWhile_length isSpace s) as Hl.
      destruct (IH (dropWhile isSpace s)) as (H1 & H2 & H3); [lia|].
      split; [|split].
      * change (lit " " ++ ?x) with (32%N :: x).
        cbn [TextSpec.singleSpaced]. rewrite H1.
        pose proof (dropWhile_head isSpace s) as Hh.
        destruct (dropWhile isSpace s) as [|d t] eqn:Ed.
        -- rewrite H3. reflexivity.
        -- destruct (H3 Hh) as [t' ->]. rewrite Hh. reflexivity.
      * change (lit " " ++ ?x) with (32%N :: x). simpl. lia.
      * intros H. discriminate.
    + rewrite collapse_char by exact Hc.
      destruct (IH s) as (H1 & H2 & H3); [lia|].
      split; [|split].
      * cbn [TextSpec.singleSpaced]. rewrite Hc, H1. reflexivity.
      * simpl. lia.
      * intros _. eexists. reflexivity.
Qed.

Lemma singleSpaced_app (a b : jsstring) :
  TextSpec.singleSpaced (a ++ b) = true ->
  TextSpec.singleSpaced a = true /\ TextSpec.singleSpaced b = true.
Proof.
  induction a as [|c a IH]; simpl; intros H; [now split|].
  apply andb_true_iff in H. destruct H as [Hc H]. destruct (IH H) as [Ha Hb].
  split; [|exact Hb]. rewrite Ha, andb_true_r.
  destruct (isSpace c); [|reflexivity].
  apply andb_true_iff in Hc. destruct Hc as [-> Hn].
  destruct a; [reflexivity|exact Hn].
Qed.

Lemma trim_middle (s : jsstring) : exists w1 w2, s = w1 ++ trim s ++ w2.
Proof.
  destruct (dropWhile_split isSpace s) as [w1 H1].
  destruct (trimEnd_split (dropWhile isSpace s)) as [w2 H2].
  exists w1, w2. unfold trim, trimStart. rewrite <- H2. exact H1.
Qed.

Lemma singleSpaced_trim (s : jsstring) :
  TextSpec.singleSpaced s = true -> TextSpec.singleSpaced (trim s) = true.
Proof.
  intros H. destruct (trim_middle s) as (w1 & w2 & E). rewrite E in H.
  apply singleSpaced_app in H. destruct H as [_ H].
  now apply singleSpaced_app in H.
Qed.

Lemma singleSpaced_plain (s : jsstring) :
  TextSpec.singleSpaced s = true -> TextSpec.plainSpaces s = true.
Proof.
  induction s as [|c s IH]; simpl; intros H; [reflexivity|].
  apply andb_true_iff in H. destruct H as [Hc H]. rewrite (IH H), andb_true_r.
  destruct (isSpace c); [|reflexivity].
  apply andb_true_iff in Hc. now destruct Hc as [-> _].
Qed.

Lemma plainSpaces_app (a b : jsstring) :
  TextSpec.plainSpaces (a ++ b)
  = (TextSpec.plainSpaces a && TextSpec.plainSpaces b)%bool.
Proof. apply forallb_app. Qed.

Lemma plainSpaces_trim (s : jsstring) :
  TextSpec.plainSpaces s = true -> TextSpec.plainSpaces (trim s) = true.
Proof.
  intros H. destruct (trim_middle s) as (w1 & w2 & E). rewrite E in H.
  rewrite !plainSpaces_app in H.
  apply andb_true_iff in H. destruct H as [_ H].
  now apply andb_true_iff in H.
Qed.

Lemma plainSpaces_replace (r : regex) (s : jsstring) :
  TextSpec.plainSpaces s = true -> TextSpec.plainSpaces (replace r [] s) = true.
Proof.
  intros H. unfold replace. destruct (exec r s) as [[pre post]|] eqn:E; [|exact H].
  apply exec_sound in E. destruct E as (m & E & _). rewrite E in H.
  rewrite !plainSpaces_app in H. rewrite plainSpaces_app. simpl.
  apply andb_true_iff in H. destruct H as [Hp H].
  apply andb_true_iff in H. destruct H as [_ Hq]. now rewrite Hp, Hq.
Qed.

Lemma collapsed_trim (s : jsstring) :
  TextSpec.singleSpaced (trim (replaceAll (Plus isSpace) (lit " ") s)) = true
  /\ List.length (trim (replaceAll (Plus isSpace) (lit " ") s)) <= List.length s.
Proof.
  unfold replaceAll.
  destruct (collapse_singleSpaced (List.length s) (List.length s) s (le_n _))
    as (H1 & H2 & _).
  split; [now apply singleSpaced_trim|].
  pose proof (trim_length (replaceAll_go (List.length s) (Plus isSpace) (lit " ") 0 s)).
  lia.
Qed.

(** ** The names [cleanAuthor] refuses *)

Lemma seq_of_chr_i_complete (R : Type) (n0 : nat) (k : jsstring -> option R) :
  forall (w m rest : jsstring),
    List.map asciiUpper m = List.map asciiUpper w ->
    rmatch n0 (seq_of chr_i w) (m ++ rest) k = k rest.
Proof.
  induction w as [|c w IH]; intros m rest H.
  - destruct m; [reflexivity|discriminate].
  - destruct m as [|x m]; [discriminate|]. simpl in H.
    injection H as Hx Hm.
    assert (Hc : chr_i c x = true)
      by (unfold chr_i; rewrite Hx; apply N.eqb_refl).
    destruct w as [|c' w].
    + destruct m; [|discriminate]. simpl. now rewrite Hc.
    + change (seq_of chr_i (c :: c' :: w))
        with (Seq (Chr (chr_i c)) (seq_of chr_i (c' :: w))).
      cbn [rmatch app]. rewrite Hc. now apply IH.
Qed.

Lemma alts_complete (R : Type) (n0 : nat) (k : jsstring -> option R)
  (s : jsstring) (l : list regex) (r : regex) :
  In r l -> rmatch n0 r s k <> None -> rmatch n0 (alts l) s k <> None.
Proof.
  induction l as [|r0 l IH]; intros Hin Hr; [destruct Hin|].
  destruct l as [|r1 l].
  - destruct Hin as [->|[]]. exact Hr.
  - change (alts (r0 :: r1 :: l)) with (Alt r0 (alts (r1 :: l))).
    cbn [rmatch]. destruct (rmatch n0 r0 s k) eqn:E0; [discriminate|].
    destruct Hin as [->|Hin]; [now rewrite E0 in Hr|]. now apply IH.
Qed.

Lemma test_at_start (r : regex) (s : jsstring) :
  matchAt (List.length s) r s <> None -> test r s = true.
Proof.
  unfold test, exec. intros H.
  destruct s as [|c s]; simpl; destruct (matchAt _ r _); congruence.
Qed.

Lemma whole_word_matches (names : list string) (r : jsstring) :
  existsb (TextSpec.sameIgnoringCase r) (List.map lit names) = true ->
  test (seqs [Bol; alts (List.map str_i names); Eol]) r = true.
Proof.
  intros H. apply existsb_exists in H. destruct H as (w & Hin & Hw).
  apply in_map_iff in Hin. destruct Hin as (name & <- & Hin).
  apply str_eqb_eq in Hw.
  apply test_at_start. unfold matchAt.
  change (seqs [Bol; alts (List.map str_i names); Eol])
    with (Seq Bol (Seq (alts (List.map str_i names)) Eol)).
  cbn [rmatch]. rewrite Nat.eqb_refl.
  apply alts_complete with (r := str_i name).
  - apply in_map_iff. now exists name.
  - unfold str_i. rewrite <- (app_nil_r r).
    rewrite (seq_of_chr_i_complete _ _ _ (lit name) r [] Hw). discriminate.
Qed.

Lemma star_whole (R : Type) (p : char -> bool) (k : jsstring -> option R)
  (s : jsstring) :
  forallb p s = true -> k [] <> None -> star p k s <> None.
Proof.
  induction s as [|c s IH]; simpl; intros H Hk; [exact Hk|].
  apply andb_true_iff in H. destruct H as [-> H].
  destruct (star p k s) eqn:E; [discriminate|]. now destruct (IH H Hk).
Qed.

Lemma all_digits_matches (r : jsstring) :
  r <> [] -> forallb isDigit r = true ->
  test (seqs [Bol; Plus isDigit; Eol]) r = true.
Proof.
  intros Hne H. apply test_at_start. unfold matchAt.
  change (seqs [Bol; Plus isDigit; Eol])
    with (Seq Bol (Seq (Seq (Chr isDigit) (Star isDigit)) Eol)).
  destruct r as [|c r]; [contradiction|].
  simpl in H. apply andb_true_iff in H. destruct H as [Hc H].
  cbn [rmatch]. rewrite Nat.eqb_refl, Hc.
  apply star_whole; [exact H|discriminate].
Qed.

Lemma short_letters_matches (r : jsstring) :
  r <> [] -> List.length r <= 2 -> forallb V2.isAsciiLetter r = true ->
  test (seqs [Bol; Rep V2.isAsciiLetter 1 1; Eol]) r = true.
Proof.
  intros Hne Hlen H. apply test_at_start. unfold matchAt.
  destruct r as [|a [|b [|c r]]]; [contradiction| | |simpl in Hlen; lia];
    simpl in H; repeat (apply andb_true_iff in H; destruct H as [? H]);
    simpl.
  - now rewrite H0.
  - now rewrite H0, H1.
Qed.

Lemma cleanAuthor_name (a r : jsstring) :
  V2.cleanAuthor a = Some r -> TextSpec.authorName r.
Proof.
  unfold V2.cleanAuthor. destruct (negb (truthy a)); [discriminate|].
  set (x := trim (replaceAll (Plus isSpace) (lit " ")
                    (replace V2.re_verb_suffix [] (replace V2.re_by_prefix [] a)))).
  destruct (existsb (fun pattern => test pattern x) V2.genericPatterns) eqn:Hg;
    [discriminate|].
  destruct ((1 <? List.length x) && (List.length x <? 100))%bool eqn:Hl;
    [|discriminate].
  intros E. injection E as <-.
  apply andb_true_iff in Hl. destruct Hl as [Hl1 Hl2].
  apply Nat.ltb_lt in Hl1, Hl2.
  split; [apply trim_idem|]. split; [apply collapsed_trim|]. split; [lia|].
  unfold V2.genericPatterns in Hg. cbn [existsb] in Hg.
  apply orb_false_iff in Hg. destruct Hg as [G1 Hg].
  apply orb_false_iff in Hg. destruct Hg as [G2 Hg].
  apply orb_false_iff in Hg. destruct Hg as [G3 Hg].
  apply orb_false_iff in Hg. destruct Hg as [G4 _].
  assert (Hne : x <> []) by (intros Hx; rewrite Hx in Hl1; simpl in Hl1; lia).
  unfold TextSpec.generic.
  destruct (existsb (TextSpec.sameIgnoringCase x) TextSpec.genericNames) eqn:N.
  { exfalso. unfold TextSpec.genericNames in N.
    change ["admin"; "administrator"; "user"; "guest"; "anonymous";
            "unknown"; "n/a"; "none"]%string
      with (List.app ["admin"; "administrator"; "user"; "guest"; "anonymous"]%string
                     ["unknown"; "n/a"; "none"]%string) in N.
    rewrite map_app, existsb_app in N. apply orb_true_iff in N.
    destruct N as [N|N]; apply whole_word_matches in N.
    - change (test (List.nth 0 V2.genericPatterns Eps) x = true) in N.
      unfold V2.genericPatterns in N. cbn [List.nth] in N. congruence.
    - change (test (List.nth 1 V2.genericPatterns Eps) x = true) in N.
      unfold V2.genericPatterns in N. cbn [List.nth] in N. congruence. }
  destruct (forallb isDigit x) eqn:D.
  { exfalso. apply all_digits_matches in D; [congruence|exact Hne]. }
  destruct (List.length x <=? 2) eqn:L; [|reflexivity].
  destruct (forallb V2.isAsciiLetter x) eqn:A; [|reflexivity].
  exfalso. apply Nat.leb_le in L.
  apply short_letters_matches in A; [congruence|exact Hne|exact L].
Qed.

Lemma author_from_selectors_clean {P : Platform}
  (doc : DocumentTree) (r : jsstring) :
  forall selectors,
    V2.author_from_selectors selectors doc = Some (Some r) ->
    exists x, V2.cleanAuthor x = Some r.
Proof.
  induction selectors as [|selector rest IH]; cbn [V2.author_from_selectors];
    [discriminate|].
  destruct (first (select selector doc)) as [element|]; [|exact IH].
  destruct (truthy (trim (text (h_elem element))) && _ && _)%bool; [|exact IH].
  intros E. injection E as E. eauto.
Qed.

Lemma extractAuthor_clean {P : Platform} (doc : DocumentTree) (r : jsstring) :
  V2.extractAuthor doc = Some r -> exists x, V2.cleanAuthor x = Some r.
Proof.
  unfold V2.extractAuthor.
  destruct (V2.author_from_selectors V2.authorSelectors doc) as [o|] eqn:E1.
  { intros ->. now apply author_from_selectors_clean in E1. }
  destruct (first (select "meta[name=author]" doc)) as [m|].
  - destruct (attr "content" (h_elem m)) as [a|].
    + destruct (truthy a && (1 <? List.length (trim a)))%bool; [eauto|].
      cbv beta iota zeta delta [V2.byPattern].
      destruct (capture _ _ _ _) as [c|]; [|discriminate].
      destruct ((1 <? List.length (trim c)) && _)%bool; [eauto|discriminate].
    + cbv beta iota zeta delta [V2.byPattern].
      destruct (capture _ _ _ _) as [c|]; [|discriminate].
      destruct ((1 <? List.length (trim c)) && _)%bool; [eauto|discriminate].
  - cbv beta iota zeta delta [V2.byPattern].
    destruct (capture _ _ _ _) as [c|]; [|discriminate].
    destruct ((1 <? List.length (trim c)) && _)%bool; [eauto|discriminate].
Qed.

(** X3. An author that [extractAuthor] finds has come through
    [cleanAuthor]: it has no surrounding whitespace, its words are separated
    by single plain spaces, it has between two and ninety-nine code units,
    and it is neither one of the generic names (in any case), nor a number,
    nor a pair of letters. *)
Theorem author_is_a_name {P : Platform} (doc : DocumentTree) (r : jsstring) :
  V2.extractAuthor doc = Some r ->
  (exists x, V2.cleanAuthor x = Some r) /\ TextSpec.authorName r.
Proof.
  intros H. apply extractAuthor_clean in H. destruct H as [x H].
  split; [now exists x|]. now apply cleanAuthor_name in H.
Qed.

(** ** The cleaned content *)

Lemma fold_replace_plain (rules : list regex) :
  forall c : jsstring,
    TextSpec.plainSpaces c = true ->
    TextSpec.plainSpaces
      (fold_left (fun c pattern => replace pattern [] c) rules c) = true.
Proof.
  induction rules as [|r rules IH]; intros c H; [exact H|].
  simpl. apply IH. now apply plainSpaces_replace.
Qed.

Lemma fold_replace_shorter (rules : list regex) :
  forall c : jsstring,
    List.length (fold_left (fun c pattern => replace pattern [] c) rules c)
    <= List.length c.
Proof.
  induction rules as [|r rules IH]; intros c; [apply le_n|].
  simpl. pose proof (IH (replace r [] c)). pose proof (replace_shorter r c). lia.
Qed.

Lemma cleanContent_plain (c : jsstring) :
  trim (V2.cleanContent c) = V2.cleanContent c
  /\ TextSpec.plainSpaces (V2.cleanContent c) = true
  /\ List.length (V2.cleanContent c) <= List.length c.
Proof.
  unfold V2.cleanContent. destruct (negb (truthy c)).
  { repeat split. simpl. lia. }
  destruct (collapsed_trim c) as [H1 H2].
  set (x := trim (replaceAll (Plus isSpace) (lit " ") c)) in *.
  split; [apply trim_idem|]. split.
  - apply plainSpaces_trim, fold_replace_plain. now apply singleSpaced_plain.
  - pose proof (trim_length
        (fold_left (fun c pattern => replace pattern [] c)
           [V2.re_chrome_prefix; V2.re_copyright; V2.re_social_prefix] x)).
    pose proof (fold_replace_shorter
        [V2.re_chrome_prefix; V2.re_copyright; V2.re_social_prefix] x).
    lia.
Qed.

(** X2. The cleaned content has no surrounding whitespace, every whitespace
    code unit in it is a plain space (it has no line break and no tab), and
    it is not longer than the text it was made from; what [extractContent]
    returns is such a text. *)
Theorem content_is_one_line {P : Platform} (c : jsstring) (doc : DocumentTree) :
  (trim (V2.cleanContent c) = V2.cleanContent c
   /\ TextSpec.plainSpaces (V2.cleanContent c) = true
   /\ List.length (V2.cleanContent c) <= List.length c)
  /\ (trim (fst (V2.extractContent doc)) = fst (V2.extractContent doc)
      /\ TextSpec.plainSpaces (fst (V2.extractContent doc)) = true).
Proof.
  split; [apply cleanContent_plain|].
  unfold V2.extractContent. cbn [fst].
  match goal with |- context [V2.cleanContent ?x] =>
    destruct (cleanContent_plain x) as (H1 & H2 & _) end.
  now split.
Qed.

(** ** The title *)

Lemma title_from_first_sized {P : Platform}
  (doc : DocumentTree) (t : jsstring) :
  forall selectors,
    V2.title_from_first selectors doc = Some t ->
    exists x, V2.title_sized x = true /\ t = V2.cleanTitle x.
Proof.
  induction selectors as [|selector rest IH]; cbn [V2.title_from_first];
    [discriminate|].
  destruct (first (select selector doc)) as [element|]; [|exact IH].
  destruct (V2.title_sized (trim (text (h_elem element)))) eqn:E; [|exact IH].
  intros H. injection H as <-. eauto.
Qed.

Lemma title_from_heading_sized {P : Platform}
  (doc : DocumentTree) (t : jsstring) :
  forall selectors,
    V2.title_from_heading selectors doc = Some t ->
    exists x, V2.title_sized x = true /\ t = V2.cleanTitle x.
Proof.
  induction selectors as [|selector rest IH]; cbn [V2.title_from_heading];
    [discriminate|].
  destruct (V2.title_sized (trim (textAll (firstn 1 (select selector doc)))))
    eqn:E; [|exact IH].
  intros H. injection H as <-. eauto.
Qed.

Lemma sized_title_bounded (x : jsstring) :
  V2.title_sized x = true ->
  trim (V2.cleanTitle x) = V2.cleanTitle x
  /\ List.length (V2.cleanTitle x) < 200.
Proof.
  unfold V2.title_sized. intros H.
  apply andb_true_iff in H. destruct H as [_ H]. apply Nat.ltb_lt in H.
  split; [apply cleanTitle_trimmed|].
  pose proof (cleanTitle_length x). lia.
Qed.

(** X1. The title [extractTitle] returns has no surrounding whitespace and
    fewer than 200 code units. *)
Theorem extractTitle_bounded {P : Platform} (doc : DocumentTree) :
  trim (V2.extractTitle doc) = V2.extractTitle doc
  /\ List.length (V2.extractTitle doc) < 200.
Proof.
  unfold V2.extractTitle.
  destruct (V2.title_from_first V2.title_selectors doc) as [t|] eqn:E1.
  { apply title_from_first_sized in E1. destruct E1 as (x & Hx & ->).
    now apply sized_title_bounded. }
  destruct (V2.title_from_heading ["h1"%string] doc) as [t|] eqn:E2.
  { apply title_from_heading_sized in E2. destruct E2 as (x & Hx & ->).
    now apply sized_title_bounded. }
  destruct (V2.title_from_heading ["h2"%string; "h3"%string] doc) as [t|] eqn:E3.
  { apply title_from_heading_sized in E3. destruct E3 as (x & Hx & ->).
    now apply sized_title_bounded. }
  cbv zeta.
  destruct (truthy (trim (textAll (select "title" doc))) && _)%bool;
    [|split; [vm_compute; reflexivity|simpl; lia]].
  destruct ((3 <? List.length (V2.cleanTitle _)) && _)%bool eqn:E;
    [|split; [vm_compute; reflexivity|simpl; lia]].
  apply andb_true_iff in E. destruct E as [_ E]. apply Nat.ltb_lt in E.
  split; [apply cleanTitle_trimmed|exact E].
Qed.

(** ** Removing elements from the page *)

Lemma node_rect_nested (Q : node -> Prop) :
  (forall d, Q (Text d)) ->
  (forall t a kids, Forall Q kids -> Q (Elem t a kids)) ->
  forall n, Q n.
Proof.
  intros HT HE. fix IH 1. intros [d|t a kids]; [apply HT|].
  apply HE. revert kids. fix IHl 1. intros [|k l]; constructor.
  - apply IH.
  - apply IHl.
Qed.

Lemma select_node_elem {P : Platform}
  (s : selector) (ancs : list einfo) (parent : option node)
  (t : jsstring) (a : list (jsstring * jsstring)) (kids : list node) :
  select_node s ancs parent (Elem t a kids)
  = (if matches s ancs (t, a)
     then [{| h_elem := Elem t a kids; h_parent := parent |}] else [])
    ++ flat_map (select_node s ((t, a) :: ancs) (Some (Elem t a kids))) kids.
Proof.
  reflexivity.
Qed.

(** The children that [remove] keeps. *)
Lemma remove_node_elem {P : Platform} (s : selector) (ancs : list einfo)
  (t : jsstring) (a : list (jsstring * jsstring)) (kids : list node) :
  remove_node s ancs (Elem t a kids)
  = if matches s ancs (t, a) then None
    else Some (Elem t a
           (flat_map (fun k => match remove_node s ((t, a) :: ancs) k with
                               | Some k' => [k']
                               | None => []
                               end) kids)).
Proof.
  cbn [remove_node]. destruct (matches s ancs (t, a)); [reflexivity|].
  do 2 f_equal.
  induction kids as [|k l IH]; [reflexivity|]. simpl.
  destruct (remove_node s ((t, a) :: ancs) k); simpl; now rewrite IH.
Qed.

Lemma flat_map_nil (A B : Type) (f : A -> list B) (l : list A) :
  flat_map f l = [] <-> Forall (fun x => f x = []) l.
Proof.
  induction l as [|x l IH]; simpl.
  - split; [constructor|reflexivity].
  - split.
    + intros H. apply app_eq_nil in H. destruct H as [Hx Hl].
      constructor; [exact Hx|now apply IH].
    + intros H. inversion H as [|? ? Hx Hl]; subst.
      rewrite Hx. now apply IH.
Qed.

(** What is left of a node after [remove] has no element that the selector
    of the removal matches, and no element that another selector matches
    unless the node had one. *)
Lemma remove_node_clean {P : Platform} (s s' : selector) (n : node) :
  forall (ancs : list einfo) (parent parent' : option node) (n' : node),
    remove_node s ancs n = Some n' ->
    select_node s ancs parent' n' = []
    /\ (select_node s' ancs parent n = [] -> select_node s' ancs parent' n' = []).
Proof.
  induction n as [d|t a kids IH] using node_rect_nested;
    intros ancs parent parent' n' H.
  - injection H as <-. now split.
  - rewrite remove_node_elem in H.
    destruct (matches s ancs (t, a)) eqn:Em; [discriminate|].
    injection H as <-. rewrite !select_node_elem, Em. cbn [app].
    split.
    + apply flat_map_nil. apply Forall_forall. intros k' Hk'.
      apply in_flat_map in Hk'. destruct Hk' as (k & Hk & Hk').
      destruct (remove_node s ((t, a) :: ancs) k) as [k0|] eqn:Ek; [|destruct Hk'].
      destruct Hk' as [<-|[]].
      rewrite Forall_forall in IH.
      exact (proj1 (IH k Hk _ None _ _ Ek)).
    + intros Hs. apply app_eq_nil in Hs. destruct Hs as [Hm Hs].
      destruct (matches s' ancs (t, a)); [discriminate Hm|]. cbn [app].
      apply flat_map_nil. apply Forall_forall. intros k' Hk'.
      apply in_flat_map in Hk'. destruct Hk' as (k & Hk & Hk').
      destruct (remove_node s ((t, a) :: ancs) k) as [k0|] eqn:Ek; [|destruct Hk'].
      destruct Hk' as [<-|[]].
      rewrite Forall_forall in IH.
      apply (proj2 (IH k Hk _ (Some (Elem t a kids)) _ _ Ek)).
      rewrite flat_map_nil, Forall_forall in Hs. now apply Hs.
Qed.

Lemma remove_clean {P : Platform} (s s' : string) (doc : DocumentTree) :
  select s (remove s doc) = []
  /\ (select s' doc = [] -> select s' (remove s doc) = []).
Proof.
  unfold select, remove. split.
  - apply flat_map_nil, Forall_forall. intros n' Hn'.
    apply in_flat_map in Hn'. destruct Hn' as (n & Hn & Hn').
    destruct (remove_node (sel s) [] n) as [n0|] eqn:E; [|destruct Hn'].
    destruct Hn' as [<-|[]].
    exact (proj1 (remove_node_clean (sel s) (sel s) n [] None None n0 E)).
  - intros H. rewrite flat_map_nil, Forall_forall in H.
    apply flat_map_nil, Forall_forall. intros n' Hn'.
    apply in_flat_map in Hn'. destruct Hn' as (n & Hn & Hn').
    destruct (remove_node (sel s) [] n) as [n0|] eqn:E; [|destruct Hn'].
    destruct Hn' as [<-|[]].
    apply (proj2 (remove_node_clean (sel s) (sel s') n [] None None n0 E)).
    now apply H.
Qed.

Lemma remove_all_keeps_clean {P : Platform} (s' : string) (l : list string) :
  forall doc : DocumentTree,
    select s' doc = [] ->
    select s' (fold_left (fun d selector => remove selector d) l doc) = [].
Proof.
  induction l as [|s l IH]; intros doc H; [exact H|].
  simpl. apply IH. now apply (proj2 (remove_clean s s' doc)).
Qed.

Lemma remove_all_clean {P : Platform} (s : string) (l : list string) :
  forall doc : DocumentTree,
    In s l ->
    select s (fold_left (fun d selector => remove selector d) l doc) = [].
Proof.
  induction l as [|s0 l IH]; intros doc Hin; [destruct Hin|].
  simpl. destruct Hin as [->|Hin].
  - apply remove_all_keeps_clean. exact (proj1 (remove_clean s s doc)).
  - now apply IH.
Qed.

(** A selector whose chains are among the chains of another selector
    selects nothing where that one selects nothing. *)
Lemma select_node_sub {P : Platform} (s1 s2 : selector) (n : node) :
  incl s1 s2 ->
  forall (ancs : list einfo) (parent : option node),
    select_node s2 ancs parent n = [] -> select_node s1 ancs parent n = [].
Proof.
  intros Hsub.
  induction n as [d|t a kids IH] using node_rect_nested; intros ancs parent H.
  - reflexivity.
  - rewrite select_node_elem in *. apply app_eq_nil in H. destruct H as [Hm Hk].
    assert (Em : matches s1 ancs (t, a) = false).
    { destruct (matches s1 ancs (t, a)) eqn:E; [|reflexivity].
      unfold matches in E. apply existsb_exists in E. destruct E as (chain & Hc & E).
      assert (E2 : matches s2 ancs (t, a) = true)
        by (apply existsb_exists; exists chain; split; [now apply Hsub|exact E]).
      rewrite E2 in Hm. discriminate. }
    rewrite Em. cbn [app].
    rewrite flat_map_nil, Forall_forall in Hk.
    apply flat_map_nil, Forall_forall. intros k Hin.
    rewrite Forall_forall in IH. apply IH; [exact Hin|]. now apply Hk.
Qed.

Lemma select_sub {P : Platform} (s1 s2 : string) (doc : DocumentTree) :
  incl (sel s1) (sel s2) -> select s2 doc = [] -> select s1 doc = [].
Proof.
  unfold select. intros Hsub H.
  rewrite flat_map_nil, Forall_forall in H.
  apply flat_map_nil, Forall_forall. intros n Hn.
  apply (select_node_sub _ _ n Hsub). now apply H.
Qed.

(** X4. After [removeUnwantedElements] the page has no element that one of
    the unwanted selectors matches; this is the page in which
    [extractContent] looks for the text and which it hands on. *)
Theorem unwanted_elements_are_gone {P : Platform} (doc : DocumentTree)
  (s : string) :
  In s V2.unwantedSelectors ->
  select s (V2.removeUnwantedElements doc) = []
  /\ select s (snd (V2.extractContent doc)) = [].
Proof.
  intros Hs.
  assert (H : select s (V2.removeUnwantedElements doc) = [])
    by (now apply remove_all_clean).
  split; [exact H|]. unfold V2.extractContent. cbn [snd]. exact H.
Qed.

(** X5. The page that [extractContent] of revision 3 has searched has no
    [script], [style], [nav], [header] or [footer] element and no element
    of class [sidebar], [menu], [navigation], [ads] or [advertisement]. *)
Theorem unwanted_elements_are_gone_v3 {P : Platform}
  (doc : DocumentTree) (s : string) :
  In s ["script"; "style"; "nav"; "header"; "footer"; ".sidebar"; ".menu";
        ".navigation"; ".ads"; ".advertisement"]%string ->
  select s (snd (V3.extractContent doc)) = [].
Proof.
  intros Hs.
  apply select_sub
    with (s2 := "script, style, nav, header, footer, .sidebar, .menu, .navigation, .ads, .advertisement"%string).
  - repeat (destruct Hs as [<-|Hs];
            [intros chain [<-|[]]; vm_compute; auto 12|]).
    destruct Hs.
  - unfold V3.extractContent.
    match goal with
    | |- context [fold_left ?f V3.contentSelectors ?i] =>
        destruct (fold_left f V3.contentSelectors i) as [bestContent bestScore]
    end.
    cbn [snd]. apply (proj1 (remove_clean _ "x" doc)).
Qed.

(** ** The crawl as a whole *)

Section Crawl.
Context {P : Platform}.
Variable web : Web.

Lemma scrapeLink_failed (minLength : Z) (link : V2.Link)
  (results : list V2.Outcome) (errors : list V2.Failure) (w : World) :
  Store.getStoryByUrl (V2.link_url link) (db w) = None ->
  web (V2.link_url link) = None \/ URL_hostname (V2.link_url link) = None ->
  V2.scrapeLink web minLength link (results, errors) w
  = (Some (results,
           errors ++ [{| V2.err_url := V2.link_url link;
                         V2.err_linkText := V2.link_text link |}]),
     {| db := db w; visited := visited w ++ [V2.link_url link] |}).
Proof.
  intros Hnone Hfail.
  assert (Hs : V2.scrape web (V2.link_url link) w
               = (None, {| db := db w;
                           visited := visited w ++ [V2.link_url link] |})).
  { destruct (web (V2.link_url link)) as [doc|] eqn:Hweb.
    - destruct Hfail as [Hf|Hf]; [discriminate|].
      exact (scrape_rejects_host web _ doc w Hweb Hf).
    - exact (scrape_rejects_page web _ w Hweb). }
  unfold V2.scrapeLink, try_catch, bind at 1, V2.getStoryByUrl, readDb.
  rewrite Hnone. unfold bind at 1. rewrite Hs. reflexivity.
Qed.

(** What one turn of the loop does to the two lists, to the table and to
    the list of opened pages. *)
Lemma scrapeLink_effects (minLength : Z) (link : V2.Link)
  (results : list V2.Outcome) (errors : list V2.Failure) (w : World) :
  exists ro eo added fetched w',
    V2.scrapeLink web minLength link (results, errors) w
    = (Some (results ++ ro, errors ++ eo), w')
    /\ List.length ro + List.length eo = 1
    /\ Store.rows (db w') = Store.rows (db w) ++ added
    /\ List.map Store.url added
       = List.map V2.out_url (List.filter V2.isSuccess ro)
    /\ visited w' = visited w ++ fetched
    /\ incl fetched [V2.link_url link]
    /\ List.length fetched <= 1.
Proof.
  destruct (Store.getStoryByUrl (V2.link_url link) (db w)) as [row|] eqn:Hget.
  { exists [CrawlSpec.outcome link (V2.st_skipped V2.already_exists)],
           [], [], [], w.
    rewrite scrapeLink_existing by (rewrite Hget; discriminate).
    rewrite !app_nil_r. repeat split; auto using incl_nil_l. }
  destruct (web (V2.link_url link)) as [doc|] eqn:Hweb;
    [destruct (URL_hostname (V2.link_url link)) as [host|] eqn:Hhost|].
  - destruct (Z.lt_ge_cases
                (Z.of_nat (List.length (fst (V2.extractContent doc)))) minLength)
      as [Hlen|Hlen].
    + exists [CrawlSpec.outcome link (V2.st_skipped V2.content_too_short)],
             [], [], [V2.link_url link].
      eexists. rewrite (scrapeLink_too_short web _ _ _ _ w doc host Hget Hweb Hhost Hlen).
      rewrite !app_nil_r. cbn [db visited Store.rows].
      repeat split; auto using incl_refl.
    + exists [CrawlSpec.outcome link (V2.st_success (CrawlSpec.extracted doc host))],
             [],
             [CrawlSpec.stored (Store.last_id (db w) + 1) (V2.link_url link)
                (CrawlSpec.extracted doc host)],
             [V2.link_url link],
             (snd (V2.scrape web (V2.link_url link) w)).
      rewrite (scrapeLink_success web _ _ _ _ w doc host Hget Hweb Hhost Hlen).
      rewrite (scrape_resolves web _ doc host w Hweb Hhost).
      rewrite !app_nil_r. cbn [snd db visited].
      rewrite insertOrReplace_rows, (getStoryByUrl_none_others _ _ Hget).
      repeat split; auto using incl_refl.
  - exists [], [{| V2.err_url := V2.link_url link;
                   V2.err_linkText := V2.link_text link |}], [], [V2.link_url link].
    eexists. rewrite scrapeLink_failed by auto.
    rewrite !app_nil_r. cbn [db visited].
    repeat split; auto using incl_refl.
  - exists [], [{| V2.err_url := V2.link_url link;
                   V2.err_linkText := V2.link_text link |}], [], [V2.link_url link].
    eexists. rewrite scrapeLink_failed by auto.
    rewrite !app_nil_r. cbn [db visited].
    repeat split; auto using incl_refl.
Qed.

Lemma scrapeLinks_effects (minLength : Z) (links : list V2.Link) :
  forall (results : list V2.Outcome) (errors : list V2.Failure) (w : World),
  exists ro eo added fetched w',
    V2.scrapeLinks web minLength links (results, errors) w
    = (Some (results ++ ro, errors ++ eo), w')
    /\ List.length ro + List.length eo = List.length links
    /\ Store.rows (db w') = Store.rows (db w) ++ added
    /\ List.map Store.url added
       = List.map V2.out_url (List.filter V2.isSuccess ro)
    /\ visited w' = visited w ++ fetched
    /\ incl fetched (List.map V2.link_url links)
    /\ List.length fetched <= List.length links.
Proof.
  induction links as [|link links IH]; intros results errors w.
  - exists [], [], [], [], w. rewrite !app_nil_r.
    repeat split; auto using incl_nil_l.
  - destruct (scrapeLink_effects minLength link results errors w)
      as (ro1 & eo1 & added1 & fetched1 & w1 & E1 & L1 & R1 & U1 & V1 & I1 & F1).
    destruct (IH (results ++ ro1) (errors ++ eo1) w1)
      as (ro2 & eo2 & added2 & fetched2 & w2 & E2 & L2 & R2 & U2 & V2' & I2 & F2).
    exists (ro1 ++ ro2), (eo1 ++ eo2), (added1 ++ added2), (fetched1 ++ fetched2), w2.
    cbn [V2.scrapeLinks]. unfold bind. rewrite E1, E2.
    rewrite !app_assoc. split; [reflexivity|].
    rewrite <- !app_assoc.
    split; [rewrite !length_app; simpl; lia|].
    split; [rewrite R2, R1, app_assoc; reflexivity|].
    split; [rewrite filter_app, !map_app, U1, U2; reflexivity|].
    split; [rewrite V2', V1, app_assoc; reflexivity|].
    split.
    + apply incl_app.
      * intros x Hx. apply I1 in Hx. destruct Hx as [<-|[]]. now left.
      * intros x Hx. right. now apply I2.
    + rewrite length_app. simpl. lia.
Qed.

Lemma success_or_skipped (results : list V2.Outcome) :
  List.length (List.filter V2.isSuccess results)
  + List.length (List.filter V2.isSkipped results)
  = List.length results.
Proof.
  induction results as [|r results IH]; [reflexivity|].
  simpl. unfold V2.isSuccess at 1, V2.isSkipped at 1.
  destruct (V2.out_status r); simpl; lia.
Qed.

End Crawl.

(** X9. The crawl over a list of links never rejects: it resolves with a
    report in which every link is either an outcome or an error, and the
    three counts of the summary add up to the number of links. *)
Theorem crawl_accounts_for_every_link {P : Platform} (web : Web)
  (page : jsstring) (total : nat) (o : V2.Options) (links : list V2.Link)
  (w : World) :
  exists report w',
    V2.crawl web page total o links w = (Some report, w')
    /\ V2.linksProcessed report = List.length links
    /\ List.length (V2.results report) + List.length (V2.errors report)
       = List.length links
    /\ V2.successful (V2.summary report) + V2.skipped (V2.summary report)
       = List.length (V2.results report)
    /\ V2.failed (V2.summary report) = List.length (V2.errors report).
Proof.
  destruct (scrapeLinks_effects web (V2.minContentLength o) links [] [] w)
    as (ro & eo & added & fetched & w' & E & L & _).
  unfold V2.crawl, bind. rewrite E. cbn [app fst snd ret].
  eexists. eexists. split; [reflexivity|].
  cbn [V2.linksProcessed V2.results V2.errors V2.summary V2.summarise
       V2.successful V2.skipped V2.failed].
  repeat split; [exact L|apply success_or_skipped].
Qed.


(** ** What the page scan returns *)

Section Scan.
Context {P : Platform}.

Lemma firstOccurrences_length (l : list jsstring) :
  List.length (firstOccurrences l) <= List.length l.
Proof.
  induction l as [|x l IH]; [apply le_n|]. simpl.
  pose proof (filter_length_le (fun y => negb (str_eqb y x)) (firstOccurrences l)).
  lia.
Qed.

Lemma uniqueLinksOf_length (l : list V2.Link) :
  List.length (V2.uniqueLinksOf l) <= List.length l.
Proof.
  rewrite <- (length_map V2.link_url (V2.uniqueLinksOf l)), uniqueLinksOf_urls.
  rewrite <- (length_map V2.link_url l). apply firstOccurrences_length.
Qed.

Lemma slice0_length (A : Type) (n : Z) (l : list A) :
  List.length (slice0 n l) <= List.length l
  /\ ((0 <= n)%Z -> (Z.of_nat (List.length (slice0 n l)) <= n)%Z).
Proof.
  unfold slice0. destruct (n <? 0)%Z eqn:E.
  - apply Z.ltb_lt in E. rewrite length_firstn. split; lia.
  - apply Z.ltb_ge in E. rewrite length_firstn. split; lia.
Qed.

Lemma linksToScrapeOf_bounded (o : V2.Options) (pageUrl : jsstring)
  (doc : DocumentTree) (links : list V2.Link) (total : nat) :
  V2.linksToScrapeOf o pageUrl doc = Some (links, total) ->
  List.length links <= total
  /\ ((0 <= V2.maxLinks o)%Z -> (Z.of_nat (List.length links) <= V2.maxLinks o)%Z).
Proof.
  unfold V2.linksToScrapeOf.
  destruct (URL_hostname pageUrl) as [baseDomain|]; [|discriminate].
  destruct (V2.filterM _ _) as [filtered|] eqn:E; [|discriminate].
  intros H. injection H as <- <-.
  apply filterM_filter in E.
  destruct (slice0_length _ (V2.maxLinks o) (V2.uniqueLinksOf filtered)) as [H1 H2].
  split; [|exact H2].
  pose proof (uniqueLinksOf_length filtered).
  assert (List.length filtered <= List.length (V2.allLinksOf o pageUrl doc))
    by (rewrite E; apply filter_length_le).
  lia.
Qed.

End Scan.

(** X6. No link of the page scan points at an excluded resource or has a
    label that says nothing: its lower-cased URL contains none of the
    (lower-cased) exclude patterns, its text has at least three code units
    and is none of the five generic words, and a navigation word occurs in
    its text only if the text with the text of the parent has at least 50
    code units. *)
Theorem links_avoid_excluded {P : Platform} (o : V2.Options)
  (pageUrl : jsstring) (doc : DocumentTree) (links : list V2.Link) (total : nat)
  (link : V2.Link) :
  V2.linksToScrapeOf o pageUrl doc = Some (links, total) ->
  In link links ->
  (forall pattern, In pattern (V2.excludePatterns o) ->
     includes (toLowerCase (V2.link_url link)) (toLowerCase pattern) = false)
  /\ 3 <= List.length (V2.link_text link)
  /\ arrayIncludes V2.genericTexts (toLowerCase (V2.link_text link)) = false
  /\ (forall word, In word V2.excludeTexts ->
        includes (V2.lowerText link) word = true ->
        50 <= List.length (V2.lowerText link)).
Proof.
  intros H Hin.
  pose proof (linksToScrapeOf_passes o pageUrl doc links total link H Hin) as Hp.
  apply passes_not_rejected in Hp.
  destruct Hp as (baseDomain & linkDomain & _ & _ & Hr).
  unfold V2.rejected in Hr. cbv zeta in Hr.
  apply orb_false_iff in Hr. destruct Hr as [Hr H4].
  apply orb_false_iff in Hr. destruct Hr as [Hr H3].
  apply orb_false_iff in Hr. destruct Hr as [_ H2].
  apply orb_false_iff in H4. destruct H4 as [H4 H5].
  split; [|split; [|split]].
  - intros pattern Hpat.
    destruct (includes (toLowerCase (V2.link_url link)) (toLowerCase pattern))
      eqn:E; [|reflexivity].
    assert (existsb (fun pattern =>
                       includes (V2.lowerUrl link) (toLowerCase pattern))
                    (V2.excludePatterns o) = true)
      by (apply existsb_exists; exists pattern; now split).
    pose proof (eq_trans (eq_sym H2) H0). discriminate.
  - apply Nat.ltb_ge in H4. exact H4.
  - exact H5.
  - intros word Hw Hinc.
    destruct (Nat.le_gt_cases 50 (List.length (V2.lowerText link)))
      as [Hle|E]; [exact Hle|].
    apply Nat.ltb_lt in E.
    assert (existsb (fun exclude =>
                       (includes (V2.lowerText link) exclude
                        && (List.length (V2.lowerText link) <? 50))%bool)
                    V2.excludeTexts = true)
      by (apply existsb_exists; exists word; rewrite Hinc, E; now split).
    exfalso. pose proof (eq_trans (eq_sym H3) H0). discriminate.
Qed.

(** X7. The report of [scrapeLinksFromPage] never counts more links than
    the scan found nor, for a [maxLinks] that is not negative, more than
    [maxLinks]; the index page is the first page opened, and after it at
    most one page for each link. *)
Theorem scan_report_bounded {P : Platform} (web : Web) (page : jsstring)
  (o : V2.Options) (w w' : World) (report : V2.Report) :
  V2.scrapeLinksFromPage web page o w = (Some report, w') ->
  V2.linksProcessed report <= V2.totalLinksFound report
  /\ ((0 <= V2.maxLinks o)%Z ->
      (Z.of_nat (V2.linksProcessed report) <= V2.maxLinks o)%Z)
  /\ exists fetched,
       visited w' = visited w ++ page :: fetched
       /\ List.length fetched <= V2.linksProcessed report.
Proof.
  unfold V2.scrapeLinksFromPage, bind at 1, goto.
  destruct (web page) as [doc|]; [|discriminate].
  unfold bind at 1, of_option.
  destruct (V2.linksToScrapeOf o page doc) as [[links total]|] eqn:E;
    [|discriminate].
  destruct (linksToScrapeOf_bounded o page doc links total E) as [B1 B2].
  unfold ret at 1. destruct links as [|l links].
  - intros H. injection H as <- <-.
    cbn [V2.linksProcessed V2.totalLinksFound visited].
    split; [lia|]. split; [intros; lia|]. exists []. split; [reflexivity|apply le_n].
  - set (w1 := {| db := db w; visited := visited w ++ [page] |}).
    set (ls := l :: links) in *.
    destruct (scrapeLinks_effects web (V2.minContentLength o) ls [] [] w1)
      as (ro & eo & added & fetched & w2 & Es & L & _ & _ & V & _ & F).
    unfold V2.crawl, bind. rewrite Es. cbn [app fst snd ret].
    intros H. injection H as <- <-.
    cbn [V2.linksProcessed V2.totalLinksFound].
    split; [exact B1|]. split; [exact B2|].
    exists fetched. split; [|exact F].
    rewrite V. unfold w1. cbn [visited]. now rewrite <- app_assoc.
Qed.

(** X8. When the page cannot be opened, or the URL constructor rejects the
    URL, [scrape] rejects without having written anything: the table is as
    it was, and only the visit is on record. *)
Theorem scrape_rejects_cleanly {P : Platform} (web : Web) (u : jsstring)
  (w : World) :
  web u = None \/ URL_hostname u = None ->
  V2.scrape web u w = (None, {| db := db w; visited := visited w ++ [u] |}).
Proof.
  intros [Hweb|Hhost].
  - exact (scrape_rejects_page web u w Hweb).
  - destruct (web u) as [doc|] eqn:Hweb.
    + exact (scrape_rejects_host web u doc w Hweb Hhost).
    + exact (scrape_rejects_page web u w Hweb).
Qed.

(** ** The batch scrape of revision 3 *)

Section Batch.
Context {P : Platform}.
Variable web : Web.

Lemma scrape3_known (u : jsstring) (w : World) (row : Store.row) :
  Store.getStoryByUrl u (db w) = Some row ->
  V3.scrape web u w = (Some (V3.existing (Store.id row) (Store.title row)), w).
Proof.
  intros H. unfold V3.scrape, bind at 1, readDb. now rewrite H.
Qed.

(** A scrape of revision 3 leaves the rows of the table as they are and
    adds at most one row, for a URL that had none. *)
Lemma scrape3_adds (u : jsstring) (w : World) :
  exists added,
    Store.rows (db (snd (V3.scrape web u w))) = Store.rows (db w) ++ added
    /\ (added = []
        \/ exists row, added = [row] /\ Store.url row = u
                       /\ Store.getStoryByUrl u (db w) = None).
Proof.
  destruct (Store.getStoryByUrl u (db w)) as [row|] eqn:Hget.
  { rewrite (scrape3_known u w row Hget). exists []. rewrite app_nil_r. auto. }
  unfold V3.scrape, bind at 1, readDb. rewrite Hget.
  unfold bind at 1, goto. destruct (web u) as [doc|].
  2:{ exists []. rewrite app_nil_r. auto. }
  destruct (V3.extractContent doc) as [c doc'].
  unfold bind at 1, of_option. destruct (URL_hostname u) as [host|].
  2:{ exists []. rewrite app_nil_r. auto. }
  unfold ret at 1. unfold bind at 1, readDb. cbn [db].
  unfold Store.insert.
  assert (Hex : existsb (Store.has_url u) (Store.rows (db w)) = false).
  { destruct (existsb (Store.has_url u) (Store.rows (db w))) eqn:E; [|reflexivity].
    apply existsb_exists in E. destruct E as (r & Hr & Hu).
    unfold Store.getStoryByUrl in Hget.
    now rewrite (find_none _ _ Hget r Hr) in Hu. }
  rewrite Hex. unfold bind, writeDb, ret. cbn [snd db Store.rows].
  eexists. split; [reflexivity|]. right. eexists.
  split; [reflexivity|]. split; reflexivity.
Qed.

Lemma batchLink_step (o : V3.BatchOptions) (link : V3.Link)
  (results : V3.BatchResults) (w : World) :
  exists results' w',
    V3.batchLink web o link results w = (Some results', w')
    /\ (results' = V3.countSkipped results
        \/ results' = V3.countFailed results
        \/ exists result, results' = V3.countSuccessful result results).
Proof.
  unfold V3.batchLink, try_catch, bind at 1.
  destruct (V3.skipExisting o).
  - unfold V3.getStoryByUrl, readDb.
    destruct (Store.getStoryByUrl (V3.link_url link) (db w)) as [row|].
    + eexists. eexists. split; [reflexivity|]. now left.
    + unfold bind. destruct (V3.scrape web (V3.link_url link) w) as [[result|] w1].
      * rewrite never_too_short. eexists. eexists. split; [reflexivity|].
        right. right. now exists result.
      * eexists. eexists. split; [reflexivity|]. right. now left.
  - unfold ret at 1. unfold bind.
    destruct (V3.scrape web (V3.link_url link) w) as [[result|] w1].
    + rewrite never_too_short. eexists. eexists. split; [reflexivity|].
      right. right. now exists result.
    + eexists. eexists. split; [reflexivity|]. right. now left.
Qed.

Lemma batchLinks_count (o : V3.BatchOptions) (links : list V3.Link) :
  forall (results : V3.BatchResults) (w : World),
  exists results' w',
    V3.batchLinks web o links results w = (Some results', w')
    /\ V3.successful results' + V3.skipped results' + V3.failed results'
       = V3.successful results + V3.skipped results + V3.failed results
         + List.length links
    /\ List.length (V3.stories results') + V3.successful results
       = List.length (V3.stories results) + V3.successful results'.
Proof.
  induction links as [|link links IH]; intros results w.
  - exists results, w. cbn [V3.batchLinks List.length]. unfold ret.
    repeat split; lia.
  - destruct (batchLink_step o link results w) as (r1 & w1 & E1 & H1).
    destruct (IH r1 w1) as (r2 & w2 & E2 & C2 & S2).
    exists r2, w2. cbn [V3.batchLinks]. unfold bind. rewrite E1, E2.
    split; [reflexivity|].
    destruct H1 as [->|[->|[result ->]]];
      cbn [V3.countSkipped V3.countFailed V3.countSuccessful
           V3.successful V3.skipped V3.failed V3.stories List.length] in *;
      try rewrite length_app in S2; simpl in S2; lia.
Qed.

End Batch.

(** X11. The batch scrape of revision 3 never rejects, its three counts add
    up to the number of links, and it returns one result for each link it
    counts as successful. *)
Theorem batch_counts_every_link {P : Platform} (web : Web)
  (links : list V3.Link) (o : V3.BatchOptions) (w : World) :
  exists results w',
    V3.batchScrapeFromLinks web links o w = (Some results, w')
    /\ V3.successful results + V3.skipped results + V3.failed results
       = List.length links
    /\ List.length (V3.stories results) = V3.successful results.
Proof.
  unfold V3.batchScrapeFromLinks.
  destruct (batchLinks_count web o links
              {| V3.successful := 0; V3.skipped := 0; V3.failed := 0;
                 V3.stories := [] |} w) as (r & w' & E & C & S).
  exists r, w'. cbn [V3.successful V3.skipped V3.failed V3.stories List.length] in *.
  split; [exact E|]. split; lia.
Qed.

(** X12. With [skipExisting] switched off the batch scrape counts a link whose
    URL already has a record as successful and returns the record that is
    there: nothing is scraped, no page is opened and the table is as it
    was. *)
Theorem batch_counts_known_story {P : Platform} (web : Web)
  (o : V3.BatchOptions) (link : V3.Link) (results : V3.BatchResults)
  (w : World) (row : Store.row) :
  V3.skipExisting o = false ->
  Store.getStoryByUrl (V3.link_url link) (db w) = Some row ->
  V3.batchLink web o link results w
  = (Some (V3.countSuccessful
             (V3.existing (Store.id row) (Store.title row)) results), w).
Proof.
  intros Hs Hget. unfold V3.batchLink, try_catch, bind at 1.
  rewrite Hs. unfold ret at 1. unfold bind.
  rewrite (scrape3_known web _ w row Hget), never_too_short. reflexivity.
Qed.

(** X13. [scrape] of revision 3 never replaces a record: for a URL that has
    one it resolves with that record, opens no page and leaves the table as
    it was; otherwise the rows stay as they are and at most one row, for
    that URL, is added, so that no two rows come to share a URL. *)
Theorem scrape3_never_replaces {P : Platform} (web : Web) (u : jsstring)
  (w : World) :
  (forall row, Store.getStoryByUrl u (db w) = Some row ->
     V3.scrape web u w
     = (Some (V3.existing (Store.id row) (Store.title row)), w))
  /\ (exists added,
        Store.rows (db (snd (V3.scrape web u w))) = Store.rows (db w) ++ added
        /\ (added = []
            \/ exists row, added = [row] /\ Store.url row = u
                           /\ Store.getStoryByUrl u (db w) = None))
  /\ (CrawlSpec.uniqueUrls (db w) ->
      CrawlSpec.uniqueUrls (db (snd (V3.scrape web u w)))).
Proof.
  split; [intros row; apply scrape3_known|].
  destruct (scrape3_adds web u w) as (added & E & H).
  split; [now exists added|].
  unfold CrawlSpec.uniqueUrls. rewrite E. intros Hu.
  destruct H as [->|(row & -> & Hrow & Hnone)]; [now rewrite app_nil_r|].
  rewrite map_app. cbn [List.map]. apply NoDup_app.
  - exact Hu.
  - repeat constructor. intros [].
  - intros x Hx [<-|[]]. apply in_map_iff in Hx. destruct Hx as (r & Hr & Hin).
    unfold Store.getStoryByUrl in Hnone.
    pose proof (find_none _ _ Hnone r Hin) as Hf. unfold Store.has_url in Hf.
    rewrite Hr, Hrow, str_eqb_refl in Hf. discriminate.
Qed.

(** ** Bringing an older table up to date *)


Section MigrationFacts.
Context {P : Platform}.
Variable noUrl : option jsstring.








End MigrationFacts.



(** ** The search statement *)

(** X16. The statement [searchStories] builds has exactly as many
    placeholders as it passes parameters, whatever the search text and the
    options. *)
Theorem search_placeholders_match (query : option jsstring)
  (o : Search.Options) :
  Search.placeholders (fst (Search.searchStories query o))
  = List.length (snd (Search.searchStories query o)).
Proof.
  unfold Search.searchStories.
  destruct (Search.truthyText query && truthy (trim (Search.text query)))%bool;
    destruct (Search.searchTitle o), (Search.searchAuthor o),
             (Search.searchContent o);
    destruct (Search.truthyNumber (Search.collectionId o)),
             (Search.truthyNumber (Search.minWordCount o)),
             (Search.truthyNumber (Search.maxWordCount o)),
             (Search.truthyText (Search.domain o));
    reflexivity.
Qed.

(** X17. The text of the statement depends only on which parts are asked
    for: the search text and the domain never become part of it, they are
    passed as parameters only; and a word-count bound or collection id of 0
    is treated like one that is not given. *)
Theorem search_statement_fixed (query query' : option jsstring)
  (o o' : Search.Options) :
  Search.shape query o = Search.shape query' o' ->
  fst (Search.searchStories query o) = fst (Search.searchStories query' o').
Proof.
  unfold Search.shape. intros H.
  injection H as H1 H2 H3 H4 H5 H6 H7 H8.
  unfold Search.searchStories.
  rewrite <- H1, <- H2, <- H3, <- H4, <- H5, <- H6, <- H7, <- H8.
  destruct (Search.truthyText query && truthy (trim (Search.text query)))%bool;
    destruct (Search.searchTitle o), (Search.searchAuthor o),
             (Search.searchContent o);
    destruct (Search.truthyNumber (Search.collectionId o)),
             (Search.truthyNumber (Search.minWordCount o)),
             (Search.truthyNumber (Search.maxWordCount o)),
             (Search.truthyText (Search.domain o));
    reflexivity.
Qed.

(** ** Replacing all matches *)

Lemma matchAt_suffix (n0 : nat) (r : regex) (s rest : jsstring) :
  matchAt n0 r s = Some rest -> exists m, s = m ++ rest.
Proof.
  unfold matchAt. intros H. apply rmatch_sound in H.
  destruct H as (m & rest' & E & _ & K). injection K as <-. now exists m.
Qed.

Lemma skipn_suffix (m rest : jsstring) :
  skipn (List.length (m ++ rest) - List.length rest) (m ++ rest) = rest.
Proof.
  rewrite length_app, Nat.add_sub, skipn_app, skipn_all, Nat.sub_diag.
  reflexivity.
Qed.

Lemma replaceAll_go_matched (n0 : nat) (r : regex) (by_ : jsstring)
  (s rest : jsstring) :
  matchAt n0 r s = Some rest ->
  List.length rest < List.length s ->
  replaceAll_go n0 r by_ 0 s = by_ ++ replaceAll_go n0 r by_ 0 rest.
Proof.
  intros H Hlen. destruct s as [|c s]; [simpl in Hlen; lia|].
  cbn [replaceAll_go]. rewrite H.
  destruct (matchAt_suffix _ _ _ _ H) as [m E].
  destruct (List.length (c :: s) - List.length rest) as [|n] eqn:En; [lia|].
  f_equal. destruct n as [|n].
  - replace s with (skipn 1 (c :: s)) by reflexivity.
    rewrite <- En, E. now rewrite skipn_suffix.
  - assert (Hs : S n <= List.length s).
    { change (List.length (c :: s)) with (S (List.length s)) in En. lia. }
    rewrite replaceAll_go_skip by exact Hs.
    replace (skipn (S n) s) with (skipn (S (S n)) (c :: s)) by reflexivity.
    rewrite <- En, E. now rewrite skipn_suffix.
Qed.

Lemma replaceAll_go_unmatched (n0 : nat) (r : regex) (by_ : jsstring)
  (c : char) (s : jsstring) :
  matchAt n0 r (c :: s) = None ->
  replaceAll_go n0 r by_ 0 (c :: s) = c :: replaceAll_go n0 r by_ 0 s.
Proof. intros H. cbn [replaceAll_go]. now rewrite H. Qed.

(** ** Tags *)

Lemma char_eqb_sym (a b : char) : char_eqb a b = char_eqb b a.
Proof. apply N.eqb_sym. Qed.


Lemma star_until (R : Type) (p : char -> bool) (k : jsstring -> option R)
  (s : jsstring) :
  (forall c t, p c = true -> k (c :: t) = None) ->
  star p k s = k (dropWhile p s).
Proof.
  intros Hk. induction s as [|c s IH]; simpl; [reflexivity|].
  destruct (p c) eqn:E; [|reflexivity]. rewrite IH.
  destruct (k (dropWhile p s)) eqn:Ek; [reflexivity|].
  now rewrite (Hk c s E).
Qed.

Lemma matchAt_tag (n0 : nat) (t : jsstring) :
  matchAt n0 Rss.re_tag t
  = match t with
    | c :: d :: s =>
        if (char_eqb c 60%N && Rss.notGt d)%bool then
          match dropWhile Rss.notGt s with
          | _ :: rest => Some rest
          | [] => None
          end
        else None
    | _ => None
    end.
Proof.
  unfold matchAt, Rss.re_tag, Plus.
  change (seqs [Chr (chr 60%N); Seq (Chr Rss.notGt) (Star Rss.notGt);
                Chr (chr 62%N)])
    with (Seq (Chr (chr 60%N))
              (Seq (Seq (Chr Rss.notGt) (Star Rss.notGt)) (Chr (chr 62%N)))).
  destruct t as [|c [|d s]]; cbn [rmatch].
  - reflexivity.
  - unfold chr. rewrite char_eqb_sym. now destruct (char_eqb c 60%N).
  - unfold chr at 1. rewrite char_eqb_sym.
    destruct (char_eqb c 60%N); [|reflexivity]. cbn [andb].
    destruct (Rss.notGt d); [|reflexivity].
    rewrite star_until.
    + pose proof (dropWhile_head Rss.notGt s) as Hh.
      destruct (dropWhile Rss.notGt s) as [|g rest]; [reflexivity|].
      unfold Rss.notGt in Hh. apply negb_false_iff in Hh.
      unfold chr. rewrite char_eqb_sym, Hh. reflexivity.
    + intros x t Hx. unfold Rss.notGt in Hx. apply negb_true_iff in Hx.
      unfold chr. now rewrite char_eqb_sym, Hx.
Qed.

Lemma dropWhile_nil_iff (p : char -> bool) (s : jsstring) :
  dropWhile p s = [] <-> forallb p s = true.
Proof.
  induction s as [|c s IH]; simpl; [tauto|].
  destruct (p c); simpl; [exact IH|]. split; discriminate.
Qed.

Lemma no_gt_all (s : jsstring) :
  existsb (chr 62%N) s = false <-> forallb Rss.notGt s = true.
Proof.
  induction s as [|c s IH]; cbn [existsb forallb]; [tauto|].
  unfold Rss.notGt at 1, chr at 1. rewrite (char_eqb_sym 62%N c).
  destruct (char_eqb c 62%N); cbn [negb andb orb];
    [split; discriminate|exact IH].
Qed.

Lemma matchAt_tagAt (n0 : nat) (t : jsstring) :
  matchAt n0 Rss.re_tag t = None <-> Rss.tagAt t = false.
Proof.
  rewrite matchAt_tag. unfold Rss.tagAt.
  destruct t as [|c [|d s]]; [tauto|tauto|].
  destruct (char_eqb c 60%N && Rss.notGt d)%bool; cbn [andb]; [|tauto].
  destruct (dropWhile Rss.notGt s) as [|g rest] eqn:E.
  - apply dropWhile_nil_iff, no_gt_all in E. rewrite E. tauto.
  - split; [discriminate|]. intros H. apply no_gt_all, dropWhile_nil_iff in H.
    congruence.
Qed.

Lemma tag_match_shorter (n0 : nat) (t rest : jsstring) :
  matchAt n0 Rss.re_tag t = Some rest -> List.length rest < List.length t.
Proof.
  rewrite matchAt_tag. destruct t as [|c [|d s]]; try discriminate.
  destruct (char_eqb c 60%N && Rss.notGt d)%bool; [|discriminate].
  pose proof (dropWhile_length Rss.notGt s) as Hl.
  destruct (dropWhile Rss.notGt s) as [|g r]; [discriminate|].
  intros H. injection H as <-. simpl in *. lia.
Qed.

Section Strip.
Variable n0 : nat.

(** What is left of a text after its tags are taken out consists of code
    units of the text. *)
Lemma strip_keeps (n : nat) :
  forall (s : jsstring) (x : char),
    List.length s <= n ->
    In x (replaceAll_go n0 Rss.re_tag [] 0 s) -> In x s.
Proof.
  induction n as [|n IH]; intros s x Hlen Hx.
  - destruct s; [destruct Hx|simpl in Hlen; lia].
  - destruct s as [|c s]; [destruct Hx|].
    destruct (matchAt n0 Rss.re_tag (c :: s)) as [rest|] eqn:E.
    + pose proof (tag_match_shorter _ _ _ E) as Hs.
      rewrite (replaceAll_go_matched _ _ _ _ _ E Hs) in Hx. cbn [app] in Hx.
      destruct (matchAt_suffix _ _ _ _ E) as [m Em]. rewrite Em.
      apply in_or_app. right. apply IH; [lia|exact Hx].
    + rewrite (replaceAll_go_unmatched _ _ _ _ _ E) in Hx.
      destruct Hx as [<-|Hx]; [now left|]. right.
      apply IH; [simpl in Hlen; lia|exact Hx].
Qed.

Lemma strip_no_gt (s : jsstring) :
  existsb (chr 62%N) s = false ->
  existsb (chr 62%N) (replaceAll_go n0 Rss.re_tag [] 0 s) = false.
Proof.
  intros H.
  destruct (existsb (chr 62%N) (replaceAll_go n0 Rss.re_tag [] 0 s)) eqn:E;
    [|reflexivity].
  apply existsb_exists in E. destruct E as (x & Hx & Hg).
  apply (strip_keeps (List.length s)) in Hx; [|apply le_n].
  assert (existsb (chr 62%N) s = true)
    by (apply existsb_exists; now exists x).
  congruence.
Qed.

(** No suffix of what is left starts with a tag. *)
Lemma strip_no_tag (n : nat) :
  forall (s a t : jsstring),
    List.length s <= n ->
    replaceAll_go n0 Rss.re_tag [] 0 s = a ++ t ->
    Rss.tagAt t = false.
Proof.
  induction n as [|n IH]; intros s a t Hlen Hr.
  - destruct s; [|simpl in Hlen; lia]. simpl in Hr.
    symmetry in Hr. apply app_eq_nil in Hr. now destruct Hr as [_ ->].
  - destruct s as [|c s].
    { simpl in Hr. symmetry in Hr. apply app_eq_nil in Hr.
      now destruct Hr as [_ ->]. }
    destruct (matchAt n0 Rss.re_tag (c :: s)) as [rest|] eqn:E.
    + pose proof (tag_match_shorter _ _ _ E) as Hs.
      rewrite (replaceAll_go_matched _ _ _ _ _ E Hs) in Hr. cbn [app] in Hr.
      apply (IH rest a t); [lia|exact Hr].
    + rewrite (replaceAll_go_unmatched _ _ _ _ _ E) in Hr.
      destruct a as [|c' a].
      2:{ injection Hr as _ Hr. apply (IH s a t); [simpl in Hlen; lia|exact Hr]. }
      cbn [app] in Hr. subst t.
      apply matchAt_tagAt in E. unfold Rss.tagAt in E.
      destruct s as [|d s]; [reflexivity|].
      destruct (char_eqb c 60%N) eqn:Ec.
      2:{ unfold Rss.tagAt.
          destruct (replaceAll_go n0 Rss.re_tag [] 0 (d :: s)); [reflexivity|].
          now rewrite Ec. }
      cbn [andb] in E.
      destruct (Rss.notGt d) eqn:Ed.
      * cbn [andb] in E.
        assert (Hg : existsb (chr 62%N) (d :: s) = false).
        { cbn [existsb]. rewrite E, orb_false_r. unfold Rss.notGt in Ed.
          apply negb_true_iff in Ed. unfold chr. now rewrite char_eqb_sym. }
        apply strip_no_gt in Hg. unfold Rss.tagAt.
        destruct (replaceAll_go n0 Rss.re_tag [] 0 (d :: s)) as [|x r];
          [reflexivity|].
        cbn [existsb] in Hg. apply orb_false_iff in Hg. destruct Hg as [_ Hg].
        rewrite Hg. now rewrite !andb_false_r.
      * assert (Em : matchAt n0 Rss.re_tag (d :: s) = None).
        { rewrite matchAt_tag. destruct s; [reflexivity|].
          unfold Rss.notGt in Ed. apply negb_false_iff in Ed.
          assert (char_eqb d 60%N = false).
          { apply N.eqb_eq in Ed. subst d. reflexivity. }
          now rewrite H. }
        rewrite (replaceAll_go_unmatched _ _ _ _ _ Em).
        unfold Rss.tagAt. rewrite Ed. now rewrite andb_false_r.
Qed.
End Strip.

Lemma tagAt_app (t w : jsstring) :
  Rss.tagAt t = true -> Rss.tagAt (t ++ w) = true.
Proof.
  unfold Rss.tagAt. destruct t as [|c [|d s]]; try discriminate.
  cbn [app]. intros H. apply andb_true_iff in H. destruct H as [H1 H2].
  rewrite H1. cbn [andb]. rewrite existsb_app, H2. reflexivity.
Qed.

Lemma search_none (n0 : nat) (r : regex) :
  forall (s pre : jsstring),
    (forall a t, s = a ++ t -> matchAt n0 r t = None) ->
    search n0 r pre s = None.
Proof.
  induction s as [|c s IH]; intros pre H; cbn [search].
  - now rewrite (H [] [] eq_refl).
  - rewrite (H [] (c :: s) eq_refl). apply IH.
    intros a t E. apply (H (c :: a) t). now rewrite E.
Qed.

Lemma cleanXMLContent_clean (content : jsstring) :
  test Rss.re_tag (Rss.cleanXMLContent content) = false.
Proof.
  unfold test, exec. rewrite search_none; [reflexivity|].
  intros a t E. apply matchAt_tagAt.
  destruct (Rss.tagAt t) eqn:Et; [|reflexivity]. exfalso.
  unfold Rss.cleanXMLContent in E.
  set (x := replaceAll Rss.re_tag []
              (Groups.unwrapAll Rss.cdata_open Rss.cdata_close content)) in *.
  destruct (trim_middle x) as (w1 & w2 & Ex). rewrite E in Ex.
  apply (tagAt_app t w2) in Et.
  unfold x, replaceAll in Ex.
  rewrite <- app_assoc, app_assoc in Ex.
  apply (strip_no_tag _ _ _ _ _ (le_n _)) in Ex. congruence.
Qed.

(** X18. A field cleaned by [cleanXMLContent] contains no tag any more:
    after the removal of the tags nothing in it reads as [<], a code unit
    other than [>], and a later [>]; and it has no surrounding
    whitespace. *)
Theorem cleanXMLContent_no_markup (content : jsstring) :
  test Rss.re_tag (Rss.cleanXMLContent content) = false
  /\ trim (Rss.cleanXMLContent content) = Rss.cleanXMLContent content.
Proof. split; [apply cleanXMLContent_clean|apply trim_idem]. Qed.

(** ** Lazy groups *)

Section LazyFacts.
Variable R : Type.
Variable k : jsstring -> jsstring -> option R.

Lemma lazyAny_sound (s : jsstring) :
  forall (seen : jsstring) (x : R),
    Groups.lazyAny k seen s = Some x ->
    exists a b, s = a ++ b /\ k (rev seen ++ a) b = Some x.
Proof.
  induction s as [|c s IH]; intros seen x H; cbn [Groups.lazyAny] in H.
  - destruct (k (rev seen) []) eqn:E; [|discriminate].
    exists [], []. split; [reflexivity|]. rewrite app_nil_r. congruence.
  - destruct (k (rev seen) (c :: s)) eqn:E.
    + exists [], (c :: s). split; [reflexivity|]. rewrite app_nil_r. congruence.
    + apply IH in H. destruct H as (a & b & Es & Hk).
      exists (c :: a), b. split; [now rewrite Es|].
      cbn [rev] in Hk. now rewrite <- app_assoc in Hk.
Qed.

(** The group grows over a text in which the rest of the pattern matches
    nowhere. *)
Lemma lazyAny_skip (a : jsstring) :
  forall (seen t : jsstring),
    (forall a1 c a2 cap, a = a1 ++ c :: a2 -> k cap (c :: a2 ++ t) = None) ->
    Groups.lazyAny k seen (a ++ t) = Groups.lazyAny k (rev a ++ seen) t.
Proof.
  induction a as [|c a IH]; intros seen t H; [reflexivity|].
  cbn [app Groups.lazyAny]. rewrite (H [] c a (rev seen) eq_refl).
  rewrite IH.
  - cbn [rev]. now rewrite <- app_assoc.
  - intros a1 c' a2 cap E. apply (H (c :: a1) c' a2 cap). now rewrite E.
Qed.

Lemma lazyAny_hit (seen s : jsstring) (x : R) :
  k (rev seen) s = Some x -> Groups.lazyAny k seen s = Some x.
Proof. intros H. destruct s; cbn [Groups.lazyAny]; now rewrite H. Qed.

Lemma lazyAny_none (s : jsstring) :
  forall seen : jsstring,
    (forall a b cap, s = a ++ b -> k cap b = None) ->
    Groups.lazyAny k seen s = None.
Proof.
  induction s as [|c s IH]; intros seen H; cbn [Groups.lazyAny].
  - now rewrite (H [] [] (rev seen) eq_refl).
  - rewrite (H [] (c :: s) (rev seen) eq_refl). apply IH.
    intros a b cap E. apply (H (c :: a) b cap). now rewrite E.
Qed.
End LazyFacts.

Lemma rmatch_none (R : Type) (n0 : nat) (r : regex) (s : jsstring)
  (k : jsstring -> option R) :
  (forall m rest, s = m ++ rest -> k rest = None) -> rmatch n0 r s k = None.
Proof.
  intros H. destruct (rmatch n0 r s k) eqn:E; [|reflexivity].
  apply rmatch_sound in E. destruct E as (m & rest & Es & _ & Hk).
  now rewrite (H m rest Es) in Hk.
Qed.

(** A match of [pre([\s\S]*?)post]: the text before the group, the group,
    the text after it, and what is left. *)
Lemma groupAt_sound (n0 : nat) (pre post : regex) (s cap rest : jsstring) :
  Groups.groupAt n0 pre post s = Some (cap, rest) ->
  exists m1 m2,
    s = m1 ++ cap ++ m2 ++ rest
    /\ denotes n0 pre m1 (cap ++ m2 ++ rest)
    /\ denotes n0 post m2 rest.
Proof.
  unfold Groups.groupAt. intros H. apply rmatch_sound in H.
  destruct H as (m1 & s1 & E1 & D1 & H).
  apply lazyAny_sound in H. destruct H as (a & b & E2 & H).
  apply rmatch_sound in H. destruct H as (m2 & rest' & E3 & D3 & H).
  injection H as <- <-. cbn [rev app] in *.
  exists m1, m2. subst. now repeat split.
Qed.

Lemma groupAt_shorter (n0 : nat) (pre post : regex) (s cap rest : jsstring) :
  1 <= min_len pre ->
  Groups.groupAt n0 pre post s = Some (cap, rest) ->
  List.length rest < List.length s.
Proof.
  intros Hm H. apply groupAt_sound in H.
  destruct H as (m1 & m2 & E & D1 & _).
  apply denotes_min_len in D1. rewrite E, !length_app. lia.
Qed.

(** Where the opening of the pattern matches nowhere, nothing is
    unwrapped. *)
Lemma unwrapAll_go_unmatched (n0 : nat) (pre post : regex) :
  forall s : jsstring,
    (forall a t, s = a ++ t -> Groups.groupAt n0 pre post t = None) ->
    Groups.unwrapAll_go n0 pre post 0 s = s.
Proof.
  induction s as [|c s IH]; intros H; cbn [Groups.unwrapAll_go].
  - now rewrite (H [] [] eq_refl).
  - rewrite (H [] (c :: s) eq_refl). f_equal. apply IH.
    intros a t E. apply (H (c :: a) t). now rewrite E.
Qed.

Lemma unwrapAll_go_skip_all (n0 : nat) (pre post : regex) :
  forall s : jsstring,
    Groups.groupAt n0 pre post [] = None ->
    forall n, List.length s = n ->
      match s with
      | [] => True
      | _ :: _ => Groups.unwrapAll_go n0 pre post n s = []
      end.
Proof.
  induction s as [|c s IH]; intros H0 n Hn; [exact I|].
  destruct n as [|n]; [discriminate|]. cbn [Groups.unwrapAll_go].
  injection Hn as Hn. specialize (IH H0 n Hn).
  destruct s as [|d s]; [|exact IH].
  subst n. cbn [Groups.unwrapAll_go]. now rewrite H0.
Qed.

Lemma seq_of_chr_complete (R : Type) (n0 : nat) (k : jsstring -> option R) :
  forall (w rest : jsstring),
    rmatch n0 (seq_of chr w) (w ++ rest) k = k rest.
Proof.
  induction w as [|c w IH]; intros rest; [reflexivity|].
  assert (Hc : chr c c = true) by apply N.eqb_refl.
  destruct w as [|c' w].
  - simpl. now rewrite Hc.
  - change (seq_of chr (c :: c' :: w))
      with (Seq (Chr (chr c)) (seq_of chr (c' :: w))).
    cbn [rmatch app]. rewrite Hc. apply IH.
Qed.

Lemma seq_of_first (R : Type) (n0 : nat) (f : char -> char -> bool)
  (k : jsstring -> option R) (c : char) (w : jsstring) (x : char)
  (s : jsstring) :
  f c x = false -> rmatch n0 (seq_of f (c :: w)) (x :: s) k = None.
Proof.
  intros H. destruct w as [|c' w].
  - simpl. now rewrite H.
  - change (seq_of f (c :: c' :: w)) with (Seq (Chr (f c)) (seq_of f (c' :: w))).
    cbn [rmatch]. now rewrite H.
Qed.

(** ** CDATA sections *)

Lemma cdata_close_first (R : Type) (n0 : nat) (k : jsstring -> option R)
  (b : jsstring) :
  match b with c :: _ => c <> 93%N | [] => True end ->
  rmatch n0 Rss.cdata_close b k = None.
Proof.
  unfold Rss.cdata_close, str. change (lit "]]>") with [93; 93; 62]%N.
  destruct b as [|c b]; intros H; [reflexivity|].
  apply seq_of_first. unfold chr. apply N.eqb_neq. congruence.
Qed.

Lemma unwrap_plain (s : jsstring) :
  ~ In 93%N s -> Groups.unwrapAll Rss.cdata_open Rss.cdata_close s = s.
Proof.
  intros H. unfold Groups.unwrapAll. apply unwrapAll_go_unmatched.
  intros a t E. unfold Groups.groupAt. apply rmatch_none.
  intros m rest Et. apply lazyAny_none. intros a' b cap Er.
  apply cdata_close_first. destruct b as [|c b]; [exact I|].
  intros ->. apply H. rewrite E, Et, Er.
  apply in_or_app. right. apply in_or_app. right. apply in_or_app. right.
  now left.
Qed.

Lemma unwrap_cdata (s : jsstring) :
  ~ In 93%N s ->
  Groups.unwrapAll Rss.cdata_open Rss.cdata_close
    (lit "<![CDATA[" ++ s ++ lit "]]>") = s.
Proof.
  intros H. unfold Groups.unwrapAll.
  set (n0 := List.length (lit "<![CDATA[" ++ s ++ lit "]]>")).
  assert (Hg : Groups.groupAt n0 Rss.cdata_open Rss.cdata_close
                 (lit "<![CDATA[" ++ s ++ lit "]]>") = Some (s, [])).
  { unfold Groups.groupAt, Rss.cdata_open, str.
    rewrite seq_of_chr_complete. rewrite lazyAny_skip.
    - apply lazyAny_hit. rewrite app_nil_r, rev_involutive.
      unfold Rss.cdata_close, str.
      rewrite <- (app_nil_r (lit "]]>")). now rewrite seq_of_chr_complete.
    - intros a1 c a2 cap E. apply cdata_close_first.
      intros ->. apply H. rewrite E. apply in_or_app. right. now left. }
  change (lit "<![CDATA[" ++ s ++ lit "]]>")
    with (60%N :: (lit "![CDATA[" ++ s ++ lit "]]>")) in *.
  cbn [Groups.unwrapAll_go]. rewrite Hg.
  cbn [List.length]. rewrite Nat.sub_0_r.
  assert (H0 : Groups.groupAt n0 Rss.cdata_open Rss.cdata_close [] = None)
    by reflexivity.
  pose proof (unwrapAll_go_skip_all n0 Rss.cdata_open Rss.cdata_close
                (lit "![CDATA[" ++ s ++ lit "]]>") H0 _ eq_refl) as Hs.
  change (lit "![CDATA[" ++ s ++ lit "]]>")
    with (33%N :: (lit "[CDATA[" ++ s ++ lit "]]>")) in *.
  cbn [List.length] in *. rewrite Hs. apply app_nil_r.
Qed.

Lemma strip_plain (s : jsstring) :
  ~ In 60%N s -> replaceAll Rss.re_tag [] s = s.
Proof.
  unfold replaceAll. generalize (List.length s). intros n0.
  induction s as [|c s IH]; intros H; [reflexivity|].
  rewrite replaceAll_go_unmatched.
  - f_equal. apply IH. intros Hin. apply H. now right.
  - rewrite matchAt_tag. destruct s as [|d s]; [reflexivity|].
    assert (Hc : char_eqb c 60%N = false).
    { apply N.eqb_neq. intros ->. apply H. now left. }
    now rewrite Hc.
Qed.

(** X19. A CDATA section is transparent to [cleanXMLContent]: for a text
    without a closing bracket, the wrapped text is cleaned to what the text
    itself is cleaned to, which is the trimmed text when it has no [<]. *)
Theorem cdata_is_transparent (s : jsstring) :
  ~ In 93%N s ->
  Rss.cleanXMLContent (lit "<![CDATA[" ++ s ++ lit "]]>")
  = Rss.cleanXMLContent s
  /\ (~ In 60%N s ->
      Rss.cleanXMLContent (lit "<![CDATA[" ++ s ++ lit "]]>") = trim s).
Proof.
  intros H. unfold Rss.cleanXMLContent.
  rewrite (unwrap_cdata s H), (unwrap_plain s H).
  split; [reflexivity|]. intros Hlt. now rewrite (strip_plain s Hlt).
Qed.

(** ** Elements *)

Lemma tag_open_first (R : Type) (n0 : nat) (tagName : string)
  (k : jsstring -> option R) (s : jsstring) :
  match s with c :: _ => c <> 60%N | [] => True end ->
  rmatch n0 (Rss.tag_open tagName) s k = None.
Proof.
  unfold Rss.tag_open.
  change (seqs [Chr (chr 60%N); seq_of chr_i (lit tagName); Star Rss.notGt;
                Chr (chr 62%N)])
    with (Seq (Chr (chr 60%N))
              (seqs [seq_of chr_i (lit tagName); Star Rss.notGt; Chr (chr 62%N)])).
  destruct s as [|c s]; intros H; [reflexivity|].
  cbn [rmatch]. assert (Hc : chr 60%N c = false).
  { unfold chr. apply N.eqb_neq. congruence. }
  now rewrite Hc.
Qed.

Lemma tag_close_first (R : Type) (n0 : nat) (tagName : string)
  (k : jsstring -> option R) (s : jsstring) :
  match s with c :: _ => c <> 60%N | [] => True end ->
  rmatch n0 (Rss.tag_close tagName) s k = None.
Proof.
  unfold Rss.tag_close.
  change (seqs [Chr (chr 60%N); Chr (chr 47%N); seq_of chr_i (lit tagName);
                Chr (chr 62%N)])
    with (Seq (Chr (chr 60%N))
              (seqs [Chr (chr 47%N); seq_of chr_i (lit tagName); Chr (chr 62%N)])).
  destruct s as [|c s]; intros H; [reflexivity|].
  cbn [rmatch]. assert (Hc : chr 60%N c = false).
  { unfold chr. apply N.eqb_neq. congruence. }
  now rewrite Hc.
Qed.

Lemma tag_open_matches (R : Type) (n0 : nat) (tagName : string)
  (k : jsstring -> option R) (s : jsstring) :
  k s <> None ->
  rmatch n0 (Rss.tag_open tagName) (lit "<" ++ lit tagName ++ lit ">" ++ s) k
  = k s.
Proof.
  intros Hk. unfold Rss.tag_open.
  change (seqs [Chr (chr 60%N); seq_of chr_i (lit tagName); Star Rss.notGt;
                Chr (chr 62%N)])
    with (Seq (Chr (chr 60%N))
           (Seq (seq_of chr_i (lit tagName))
              (Seq (Star Rss.notGt) (Chr (chr 62%N))))).
  change (lit "<" ++ lit tagName ++ lit ">" ++ s)
    with (60%N :: (lit tagName ++ 62%N :: s)).
  cbn [rmatch]. change (chr 60%N 60%N) with true. cbv iota.
  rewrite seq_of_chr_i_complete by reflexivity.
  cbn [star]. change (Rss.notGt 62%N) with false. cbv iota.
  change (chr 62%N 62%N) with true. reflexivity.
Qed.

Lemma tag_close_matches (R : Type) (n0 : nat) (tagName : string)
  (k : jsstring -> option R) (s : jsstring) :
  rmatch n0 (Rss.tag_close tagName) (lit "</" ++ lit tagName ++ lit ">" ++ s) k
  = k s.
Proof.
  unfold Rss.tag_close.
  change (seqs [Chr (chr 60%N); Chr (chr 47%N); seq_of chr_i (lit tagName);
                Chr (chr 62%N)])
    with (Seq (Chr (chr 60%N))
           (Seq (Chr (chr 47%N))
              (Seq (seq_of chr_i (lit tagName)) (Chr (chr 62%N))))).
  change (lit "</" ++ lit tagName ++ lit ">" ++ s)
    with (60%N :: 47%N :: (lit tagName ++ 62%N :: s)).
  cbn [rmatch]. change (chr 60%N 60%N) with true.
  change (chr 47%N 47%N) with true. cbv iota.
  rewrite seq_of_chr_i_complete by reflexivity.
  change (chr 62%N 62%N) with true. reflexivity.
Qed.

Lemma searchGroup_skip (n0 : nat) (pre post : regex) (a : jsstring) :
  forall t : jsstring,
    (forall a1 c a2, a = a1 ++ c :: a2 ->
       Groups.groupAt n0 pre post (c :: a2 ++ t) = None) ->
    Groups.searchGroup n0 pre post (a ++ t) = Groups.searchGroup n0 pre post t.
Proof.
  induction a as [|c a IH]; intros t H; [reflexivity|].
  cbn [app Groups.searchGroup]. rewrite (H [] c a eq_refl). apply IH.
  intros a1 c' a2 E. apply (H (c :: a1) c' a2). now rewrite E.
Qed.

Lemma searchGroup_none (n0 : nat) (pre post : regex) :
  forall s : jsstring,
    (forall a t, s = a ++ t -> Groups.groupAt n0 pre post t = None) ->
    Groups.searchGroup n0 pre post s = None.
Proof.
  induction s as [|c s IH]; intros H; cbn [Groups.searchGroup].
  - now rewrite (H [] [] eq_refl).
  - rewrite (H [] (c :: s) eq_refl). apply IH.
    intros a t E. apply (H (c :: a) t). now rewrite E.
Qed.

(** X20. For a tag name of letters, [extractXMLTag] returns the text of
    the first element of that name when neither that text nor what stands
    before the element contains a [<], and the empty string for a text
    without [<]. *)
Theorem extractXMLTag_reads_element (tagName : string)
  (before v rest : jsstring) :
  forallb V2.isAsciiLetter (lit tagName) = true ->
  ~ In 60%N before ->
  ~ In 60%N v ->
  Rss.extractXMLTag
    (before ++ lit "<" ++ lit tagName ++ lit ">" ++ v
     ++ lit "</" ++ lit tagName ++ lit ">" ++ rest) tagName = v
  /\ Rss.extractXMLTag before tagName = [].
Proof.
  intros _ Hb Hv. unfold Rss.extractXMLTag, Groups.matchGroup. split.
  - match goal with |- context [Groups.searchGroup ?n _ _ _] =>
      generalize n end. intros n0.
    rewrite searchGroup_skip.
    + change (lit "<" ++ lit tagName ++ lit ">" ++ v
              ++ lit "</" ++ lit tagName ++ lit ">" ++ rest)
        with (60%N :: (lit tagName ++ lit ">" ++ v
                       ++ lit "</" ++ lit tagName ++ lit ">" ++ rest)).
      cbn [Groups.searchGroup].
      change (60%N :: (lit tagName ++ lit ">" ++ v
                       ++ lit "</" ++ lit tagName ++ lit ">" ++ rest))
        with (lit "<" ++ lit tagName ++ lit ">"
              ++ (v ++ lit "</" ++ lit tagName ++ lit ">" ++ rest)).
      assert (Hl : Groups.lazyAny
                     (fun cap s2 =>
                        rmatch n0 (Rss.tag_close tagName) s2
                          (fun rest0 => Some (cap, rest0)))
                     [] (v ++ lit "</" ++ lit tagName ++ lit ">" ++ rest)
                   = Some (v, rest)).
      { rewrite lazyAny_skip.
        - apply lazyAny_hit. rewrite app_nil_r, rev_involutive.
          now rewrite tag_close_matches.
        - intros a1 c a2 cap E. apply tag_close_first.
          intros ->. apply Hv. rewrite E. apply in_or_app. right. now left. }
      unfold Groups.groupAt. rewrite tag_open_matches; rewrite Hl;
        [reflexivity|discriminate].
    + intros a1 c a2 E. unfold Groups.groupAt. apply tag_open_first.
      intros ->. apply Hb. rewrite E. apply in_or_app. right. now left.
  - rewrite searchGroup_none; [reflexivity|].
    intros a t E. unfold Groups.groupAt. apply tag_open_first.
    destruct t as [|c t]; [exact I|].
    intros ->. apply Hb. rewrite E. apply in_or_app. right. now left.
Qed.

(** ** The items of a feed *)

Lemma execAll_go_total (n0 : nat) (pre post : regex) :
  1 <= min_len pre ->
  forall (s : jsstring) (skip : nat),
    exists groups, Groups.execAll_go n0 pre post skip s = Some groups.
Proof.
  intros Hm. induction s as [|c s IH]; intros skip; cbn [Groups.execAll_go].
  - destruct (Groups.groupAt n0 pre post []) as [[cap rest]|] eqn:E;
      [|now exists []].
    apply (groupAt_shorter _ _ _ _ _ _ Hm) in E. simpl in E. lia.
  - destruct skip as [|n]; [|apply IH].
    destruct (Groups.groupAt n0 pre post (c :: s)) as [[cap rest]|] eqn:E;
      [|apply IH].
    apply (groupAt_shorter _ _ _ _ _ _ Hm) in E.
    destruct (List.length (c :: s) - List.length rest) as [|n] eqn:En; [lia|].
    destruct (IH n) as [groups ->]. now eexists.
Qed.

Lemma tag_open_consumes (tagName : string) : 1 <= min_len (Rss.tag_open tagName).
Proof.
  unfold Rss.tag_open.
  change (seqs [Chr (chr 60%N); seq_of chr_i (lit tagName); Star Rss.notGt;
                Chr (chr 62%N)])
    with (Seq (Chr (chr 60%N))
              (seqs [seq_of chr_i (lit tagName); Star Rss.notGt; Chr (chr 62%N)])).
  cbn [min_len]. lia.
Qed.

(** X21. [parseRSSItems] comes to an end on every text, and no field of an
    item it returns contains a tag. *)
Theorem parseRSSItems_total (xmlText : jsstring) :
  exists items,
    Rss.parseRSSItems xmlText = Some items
    /\ forall item, In item items ->
         test Rss.re_tag (Rss.title item) = false
         /\ test Rss.re_tag (Rss.url item) = false
         /\ test Rss.re_tag (Rss.description item) = false.
Proof.
  unfold Rss.parseRSSItems, Groups.execAll.
  destruct (execAll_go_total (List.length xmlText) Rss.item_open Rss.item_close
              (tag_open_consumes "item") xmlText 0) as [groups ->].
  eexists. split; [reflexivity|].
  intros item Hin. apply in_flat_map in Hin. destruct Hin as (itemXml & _ & Hin).
  unfold Rss.itemOf in Hin.
  destruct (truthy (Rss.extractXMLTag itemXml "title")
            && truthy (Rss.extractXMLTag itemXml "link"))%bool; [|destruct Hin].
  destruct Hin as [<-|[]]. cbn [Rss.title Rss.url Rss.description].
  repeat split; apply cleanXMLContent_clean.
Qed.

(** ** The CSV export can be read back *)

Ltac csv_step :=
  cbn [CsvSpec.steps CsvSpec.step CsvSpec.st];
  change (char_eqb 34%N 34%N) with true;
  change (char_eqb 44%N 34%N) with false;
  change (char_eqb 44%N 44%N) with true;
  change (char_eqb 10%N 34%N) with false;
  change (char_eqb 10%N 44%N) with false;
  change (char_eqb 10%N 10%N) with true;
  cbv iota;
  unfold CsvSpec.put, CsvSpec.goto, CsvSpec.endField, CsvSpec.endRecord;
  cbn [CsvSpec.st CsvSpec.cur CsvSpec.row CsvSpec.rows].

Lemma replaceAll_chr (n0 : nat) (p : char -> bool) (by_ : jsstring) :
  forall s : jsstring,
    replaceAll_go n0 (Chr p) by_ 0 s
    = flat_map (fun c => if p c then by_ else [c]) s.
Proof.
  induction s as [|c s IH]; [reflexivity|].
  cbn [replaceAll_go flat_map]. unfold matchAt. cbn [rmatch].
  destruct (p c).
  - replace (List.length (c :: s) - List.length s) with 1
      by (change (List.length (c :: s)) with (S (List.length s)); lia).
    now rewrite IH.
  - now rewrite IH.
Qed.

Lemma steps_app (c : CsvSpec.config) (a b : jsstring) :
  CsvSpec.steps c (a ++ b)
  = match CsvSpec.steps c a with
    | Some c' => CsvSpec.steps c' b
    | None => None
    end.
Proof.
  revert c. induction a as [|x a IH]; intros c; [reflexivity|].
  cbn [app CsvSpec.steps]. destruct (CsvSpec.step c x); [apply IH|reflexivity].
Qed.

(** The inside of a quoted field is read back as the text that was
    quoted. *)
Lemma steps_quoted (t : jsstring) :
  forall (cur : jsstring) (row : list jsstring) (rows : list (list jsstring)),
    CsvSpec.steps
      {| CsvSpec.st := CsvSpec.Quoted; CsvSpec.cur := cur; CsvSpec.row := row;
         CsvSpec.rows := rows |}
      (flat_map (fun c => if chr 34%N c then [34; 34]%N else [c]) t)
    = Some {| CsvSpec.st := CsvSpec.Quoted; CsvSpec.cur := cur ++ t;
              CsvSpec.row := row; CsvSpec.rows := rows |}.
Proof.
  induction t as [|c t IH]; intros cur row rows.
  - simpl. now rewrite app_nil_r.
  - cbn [flat_map]. rewrite steps_app.
    unfold chr at 1. rewrite (char_eqb_sym 34%N c).
    destruct (char_eqb c 34%N) eqn:E.
    + apply N.eqb_eq in E. subst c.
      csv_step. csv_step.
      rewrite IH. now rewrite <- app_assoc.
    + cbn [CsvSpec.steps CsvSpec.step CsvSpec.st]. rewrite E.
      unfold CsvSpec.put. cbn [CsvSpec.st CsvSpec.cur CsvSpec.row CsvSpec.rows].
      rewrite IH. now rewrite <- app_assoc.
Qed.

Lemma steps_quote (t : jsstring) (row : list jsstring)
  (rows : list (list jsstring)) :
  CsvSpec.steps
    {| CsvSpec.st := CsvSpec.FieldStart; CsvSpec.cur := []; CsvSpec.row := row;
       CsvSpec.rows := rows |}
    (Exports.quote t)
  = Some {| CsvSpec.st := CsvSpec.QuoteSeen; CsvSpec.cur := t;
            CsvSpec.row := row; CsvSpec.rows := rows |}.
Proof.
  unfold Exports.quote, replaceAll. rewrite replaceAll_chr.
  cbn [app]. csv_step.
  rewrite steps_app, steps_quoted. csv_step. reflexivity.
Qed.

(** A line of quoted fields, read from the start of a field, up to its
    last field. *)
Lemma steps_fields (t : jsstring) (ts : list jsstring) :
  forall (row : list jsstring) (rows : list (list jsstring)),
    CsvSpec.steps
      {| CsvSpec.st := CsvSpec.FieldStart; CsvSpec.cur := [];
         CsvSpec.row := row; CsvSpec.rows := rows |}
      (join (lit ",") (List.map Exports.quote (t :: ts)))
    = Some {| CsvSpec.st := CsvSpec.QuoteSeen; CsvSpec.cur := last (t :: ts) [];
              CsvSpec.row := row ++ removelast (t :: ts);
              CsvSpec.rows := rows |}.
Proof.
  revert t. induction ts as [|t' ts IH]; intros t row rows.
  - cbn [List.map join last removelast]. rewrite steps_quote.
    now rewrite app_nil_r.
  - change (join (lit ",") (List.map Exports.quote (t :: t' :: ts)))
      with (Exports.quote t ++ lit ","
            ++ join (lit ",") (List.map Exports.quote (t' :: ts))).
    rewrite steps_app, steps_quote.
    change (lit "," ++ ?x) with (44%N :: x).
    csv_step. rewrite IH.
    change (last (t :: t' :: ts) []) with (last (t' :: ts) []).
    change (removelast (t :: t' :: ts)) with (t :: removelast (t' :: ts)).
    now rewrite <- app_assoc.
Qed.

Lemma line_cells (s : Exports.story) :
  Exports.line s = join (lit ",") (List.map Exports.quote (Exports.cells s)).
Proof. unfold Exports.line, Exports.cells. now rewrite map_map. Qed.

Lemma steps_line (s : Exports.story) (rows : list (list jsstring)) :
  CsvSpec.steps
    {| CsvSpec.st := CsvSpec.FieldStart; CsvSpec.cur := []; CsvSpec.row := [];
       CsvSpec.rows := rows |}
    (Exports.line s)
  = Some {| CsvSpec.st := CsvSpec.QuoteSeen;
            CsvSpec.cur := last (Exports.cells s) [];
            CsvSpec.row := removelast (Exports.cells s);
            CsvSpec.rows := rows |}.
Proof.
  rewrite line_cells.
  assert (H : exists t ts, Exports.cells s = t :: ts)
    by (unfold Exports.cells, Exports.headers; simpl; eauto).
  destruct H as (t & ts & ->). now rewrite steps_fields.
Qed.

Lemma cells_whole (s : Exports.story) :
  removelast (Exports.cells s) ++ [last (Exports.cells s) []] = Exports.cells s.
Proof.
  symmetry. apply app_removelast_last.
  unfold Exports.cells, Exports.headers. simpl. discriminate.
Qed.

Lemma last_default (A : Type) (l : list A) :
  forall x d d' : A, last (x :: l) d = last (x :: l) d'.
Proof.
  induction l as [|y l IH]; intros x d d'; [reflexivity|].
  change (last (x :: y :: l) d) with (last (y :: l) d).
  change (last (x :: y :: l) d') with (last (y :: l) d'). apply IH.
Qed.

Lemma steps_lines (ss : list Exports.story) :
  forall (s : Exports.story) (rows : list (list jsstring)),
    CsvSpec.steps
      {| CsvSpec.st := CsvSpec.FieldStart; CsvSpec.cur := []; CsvSpec.row := [];
         CsvSpec.rows := rows |}
      (join [10%N] (List.map Exports.line (s :: ss)))
    = Some {| CsvSpec.st := CsvSpec.QuoteSeen;
              CsvSpec.cur := last (Exports.cells (last (s :: ss) s)) [];
              CsvSpec.row := removelast (Exports.cells (last (s :: ss) s));
              CsvSpec.rows :=
                rows ++ List.map Exports.cells (removelast (s :: ss)) |}.
Proof.
  induction ss as [|s' ss IH]; intros s rows.
  - cbn [List.map join last removelast]. rewrite steps_line.
    now rewrite app_nil_r.
  - change (join [10%N] (List.map Exports.line (s :: s' :: ss)))
      with (Exports.line s ++ 10%N
            :: join [10%N] (List.map Exports.line (s' :: ss))).
    rewrite steps_app, steps_line. csv_step.
    rewrite cells_whole, IH.
    change (last (s :: s' :: ss) s) with (last (s' :: ss) s).
    change (removelast (s :: s' :: ss)) with (s :: removelast (s' :: ss)).
    cbn [List.map]. rewrite <- app_assoc.
    now rewrite (last_default _ ss s' s s').
Qed.

(** X22. The text [exportCSV] writes for a table that is not empty is read
    back by a reader of RFC 4180 as the header record followed by one
    record for each story, which holds the texts of its seven columns as
    they were, whatever commas, double quotes and line feeds they contain;
    the value returned counts the stories. *)
Theorem csv_reads_back (stories : list Exports.story) (file : jsstring) :
  stories <> [] ->
  CsvSpec.read (snd (fst (Exports.exportCSV stories file)))
  = Some (List.map lit Exports.headers :: List.map Exports.cells stories)
  /\ Exports.count (snd (Exports.exportCSV stories file)) = List.length stories.
Proof.
  intros Hne. split; [|reflexivity].
  destruct stories as [|s ss]; [contradiction|].
  unfold Exports.exportCSV. cbn [fst snd]. unfold Exports.csvContent.
  change (join [10%N]
            (join (lit ",") (List.map lit Exports.headers)
             :: List.map Exports.line (s :: ss)))
    with (join (lit ",") (List.map lit Exports.headers)
          ++ 10%N :: join [10%N] (List.map Exports.line (s :: ss))).
  unfold CsvSpec.read. rewrite steps_app.
  assert (Hh : CsvSpec.steps CsvSpec.start
                 (join (lit ",") (List.map lit Exports.headers))
               = Some {| CsvSpec.st := CsvSpec.Bare;
                         CsvSpec.cur := lit "url";
                         CsvSpec.row := removelast (List.map lit Exports.headers);
                         CsvSpec.rows := [] |})
    by (vm_compute; reflexivity).
  rewrite Hh. csv_step.
  change (removelast (List.map lit Exports.headers) ++ [lit "url"])
    with (List.map lit Exports.headers).
  rewrite steps_lines. cbn [CsvSpec.st]. unfold CsvSpec.endRecord.
  cbn [CsvSpec.st CsvSpec.cur CsvSpec.row CsvSpec.rows].
  rewrite cells_whole. cbn [app]. do 2 f_equal.
  change [Exports.cells (last (s :: ss) s)]
    with (List.map Exports.cells [last (s :: ss) s]).
  rewrite <- map_app. f_equal. symmetry. apply app_removelast_last.
  discriminate.
Qed.
(** ** The page scan of revision 3 *)

Section Scan3.
Context {P : Platform}.

Lemma collected_kept (o : V3.Options) (pageUrl baseDomain : jsstring)
  (els : list hit) (links : list V3.Link) (link : V3.Link) :
  V3.collect (V3.linkOf o pageUrl baseDomain) els = Some links ->
  In link links ->
  URL_hostname (V3.link_url link) = Some (V3.link_domain link)
  /\ V3.kept o baseDomain (V3.link_domain link) (V3.link_url link)
       (V3.link_text link) = true.
Proof.
  intros Ec Hin.
  destruct (collect_In _ _ _ _ _ _ Ec Hin) as [el [ys [_ [Hf Hy]]]].
  unfold V3.linkOf in Hf.
  destruct (attr "href" (h_elem el)) as [href|]; [|injection Hf as <-; contradiction].
  destruct (truthy href); [|injection Hf as <-; contradiction].
  destruct (URL_href href pageUrl) as [fullUrl|];
    [|injection Hf as <-; contradiction].
  destruct (URL_hostname fullUrl) as [linkDomain|] eqn:Hl; [|discriminate].
  injection Hf as <-.
  destruct (V3.kept o baseDomain linkDomain fullUrl _) eqn:Hk; [|contradiction].
  destruct Hy as [<-|[]]. cbn [V3.link_url V3.link_domain V3.link_text].
  now split.
Qed.

Lemma uniqueBy_length (A : Type) (key : A -> jsstring) (l : list A) :
  List.length (uniqueBy key l) <= List.length l.
Proof.
  rewrite <- (length_map key (uniqueBy key l)), uniqueBy_keys.
  rewrite <- (length_map key l). apply firstOccurrences_length.
Qed.

End Scan3.

(** X23. Every link the page scan of revision 3 returns carries the host
    name of its URL, contains none of the exclude patterns as they are
    written (this revision does not lower the case), and, when keywords are
    given, has one of them in its text or URL; the scan returns no more
    links than there are distinct URLs, nor, for a [maxLinks] that is not
    negative, more than [maxLinks], and its preview has at most ten of
    them. *)
Theorem scan3_links_pass_the_tests {P : Platform} (o : V3.Options)
  (pageUrl : jsstring) (doc : DocumentTree) (f : V3.Found) :
  V3.found o pageUrl doc = Some f ->
  (forall link, In link (V3.linksToScrape f) ->
     URL_hostname (V3.link_url link) = Some (V3.link_domain link)
     /\ (forall pattern, In pattern (V3.excludePatterns o) ->
           includes (V3.link_url link) pattern = false)
     /\ (V3.keywords o <> [] ->
         V3.hasKeyword o (V3.link_text link) (V3.link_url link) = true))
  /\ List.length (V3.linksToScrape f) <= V3.uniqueLinks f
  /\ V3.uniqueLinks f <= V3.totalFound f
  /\ ((0 <= V3.maxLinks o)%Z ->
      (Z.of_nat (List.length (V3.linksToScrape f)) <= V3.maxLinks o)%Z)
  /\ List.length (V3.preview f) <= 10.
Proof.
  unfold V3.found. destruct (URL_hostname pageUrl) as [baseDomain|] eqn:Hb;
    [|discriminate].
  destruct (V3.collect _ _) as [links|] eqn:Ec; [|discriminate].
  intros H. injection H as <-.
  cbn [V3.linksToScrape V3.uniqueLinks V3.totalFound V3.preview].
  destruct (slice0_length _ (V3.maxLinks o) (uniqueBy V3.link_url links))
    as [L1 L2].
  destruct (slice0_length _ 10%Z
              (slice0 (V3.maxLinks o) (uniqueBy V3.link_url links)))
    as [_ L3].
  split.
  { intros link Hin. apply slice0_In, uniqueBy_In in Hin.
    destruct (collected_kept o pageUrl baseDomain _ links link Ec Hin)
      as [Hd Hk].
    split; [exact Hd|]. unfold V3.kept in Hk.
    destruct (V3.sameDomain o && _)%bool; [discriminate|].
    destruct (existsb (fun pattern => includes (V3.link_url link) pattern)
                (V3.excludePatterns o)) eqn:Ex; [discriminate|].
    split.
    - intros pattern Hp.
      destruct (includes (V3.link_url link) pattern) eqn:E; [|reflexivity].
      assert (existsb (fun pattern => includes (V3.link_url link) pattern)
                (V3.excludePatterns o) = true)
        by (apply existsb_exists; now exists pattern).
      congruence.
    - intros Hkw. destruct (V3.keywords o); [contradiction|exact Hk]. }
  split; [exact L1|]. split; [apply uniqueBy_length|].
  split; [exact L2|]. specialize (L3 ltac:(lia)). lia.
Qed.

(** ** The content threshold of revision 3 *)

Section Content3.
Context {P : Platform}.

(** A text scores above zero only with fifty words or more. *)
Lemma scoreContent_positive (t : jsstring) :
  (0 < V3.scoreContent t)%Z ->
  50 <= List.length (split (Plus isSpace) t).
Proof.
  unfold V3.scoreContent. destruct (negb (truthy t)); [lia|]. cbv zeta.
  generalize (List.length (split (Plus isSpace) t)) as wordCount.
  generalize (List.length (split V3.re_sentence_end t)) as sentenceCount.
  intros sentenceCount wordCount.
  destruct (wordCount <? 50) eqn:E.
  - apply Nat.ltb_lt in E. destruct (_ && _)%bool; lia.
  - apply Nat.ltb_ge in E. intros _. exact E.
Qed.

Lemma scoreContent_best (doc : DocumentTree) (selectors : list string)
  (best : jsstring * Z) :
  (0 <= snd best)%Z ->
  (fst best = [] \/ 50 <= List.length (split (Plus isSpace) (fst best))) ->
  let best' :=
    fold_left
      (fun (best : jsstring * Z) selector =>
         match first (select selector doc) with
         | Some element =>
             let t := trim (text (h_elem element)) in
             let score := V3.scoreContent t in
             if (snd best <? score)%Z then (t, score) else best
         | None => best
         end)
      selectors best in
  (0 <= snd best')%Z
  /\ (fst best' = [] \/ 50 <= List.length (split (Plus isSpace) (fst best'))).
Proof.
  revert best. induction selectors as [|selector rest IH]; intros best H0 H.
  - now split.
  - cbn [fold_left]. apply IH.
    + destruct (first (select selector doc)); [|exact H0]. cbv zeta.
      destruct (snd best <? _)%Z eqn:E; [|exact H0].
      apply Z.ltb_lt in E. cbn [snd]. lia.
    + destruct (first (select selector doc)); [|exact H]. cbv zeta.
      destruct (snd best <? _)%Z eqn:E; [|exact H].
      apply Z.ltb_lt in E. cbn [fst]. right.
      apply scoreContent_positive. lia.
Qed.

End Content3.

(** X24. The content revision 3 extracts is never empty, and it is the text
    [No content found] unless it has fifty words or more
    ([split(/\s+/).length >= 50]): a text of fewer words scores below zero
    and is never chosen, neither from a content element nor from the
    paragraphs. *)
Theorem content3_has_fifty_words {P : Platform} (doc : DocumentTree) :
  fst (V3.extractContent doc) <> []
  /\ (fst (V3.extractContent doc) = lit "No content found"
      \/ 50 <= List.length
                 (split (Plus isSpace) (fst (V3.extractContent doc)))).
Proof.
  unfold V3.extractContent. cbv zeta.
  set (doc' := remove _ doc).
  pose proof (scoreContent_best doc' V3.contentSelectors ([], 0%Z)
                (Z.le_refl 0) (or_introl eq_refl)) as H.
  cbv zeta in H. revert H.
  match goal with
  | |- context [fold_left ?f V3.contentSelectors ?i] =>
      generalize (fold_left f V3.contentSelectors i)
  end.
  intros [bestContent bestScore]. cbn [fst snd]. intros [H0 H].
  set (combined := join _ _).
  assert (Hc : (bestScore <? V3.scoreContent combined)%Z = true ->
               50 <= List.length (split (Plus isSpace) combined)).
  { intros E. apply Z.ltb_lt in E. apply scoreContent_positive. lia. }
  revert Hc. generalize combined. intros c Hc.
  assert (G : forall b : jsstring,
             (b = [] \/ 50 <= List.length (split (Plus isSpace) b)) ->
             (if truthy b then b else lit "No content found") <> []
             /\ ((if truthy b then b else lit "No content found")
                 = lit "No content found"
                 \/ 50 <= List.length
                            (split (Plus isSpace)
                               (if truthy b then b else lit "No content found")))).
  { intros b [->|Hb].
    - cbn [truthy]. split; [discriminate|now left].
    - destruct b as [|x b]; cbn [truthy].
      + split; [discriminate|now left].
      + split; [discriminate|now right]. }
  apply G.
  destruct (negb (truthy bestContent) || (bestScore <? 100)%Z)%bool; [|exact H].
  destruct (bestScore <? V3.scoreContent c)%Z; [right; now apply Hc|exact H].
Qed.

(** ** The fallbacks of [extractContent] *)

Section Fallbacks.
Context {P : Platform}.

Lemma largest_fold (els done : list hit) (best : jsstring) :
  (best = []
   \/ exists el, In el done /\ best = trim (text (h_elem el))
                 /\ V2.isLikelyBoilerplate (h_elem el) best = false
                 /\ 100 < List.length best) ->
  (forall el, In el done ->
     V2.isLikelyBoilerplate (h_elem el) (trim (text (h_elem el))) = false ->
     100 < List.length (trim (text (h_elem el))) ->
     List.length (trim (text (h_elem el))) <= List.length best) ->
  let r :=
    fold_left
      (fun bestContent el =>
         let t := trim (text (h_elem el)) in
         if V2.isLikelyBoilerplate (h_elem el) t then bestContent
         else if ((List.length bestContent <? List.length t)
                  && (100 <? List.length t))%bool
              then t else bestContent)
      els best in
  (r = []
   \/ exists el, In el (done ++ els) /\ r = trim (text (h_elem el))
                 /\ V2.isLikelyBoilerplate (h_elem el) r = false
                 /\ 100 < List.length r)
  /\ (forall el, In el (done ++ els) ->
        V2.isLikelyBoilerplate (h_elem el) (trim (text (h_elem el))) = false ->
        100 < List.length (trim (text (h_elem el))) ->
        List.length (trim (text (h_elem el))) <= List.length r).
Proof.
  revert done best. induction els as [|el els IH]; intros done best H1 H2.
  - cbn [fold_left]. rewrite app_nil_r. now split.
  - cbn [fold_left]. cbv zeta.
    replace (done ++ el :: els) with ((done ++ [el]) ++ els)
      by (rewrite <- app_assoc; reflexivity).
    apply IH.
    + destruct (V2.isLikelyBoilerplate (h_elem el) (trim (text (h_elem el))))
        eqn:Eb.
      * destruct H1 as [->|(x & Hx & H1)]; [now left|right].
        exists x. split; [apply in_or_app; now left|exact H1].
      * destruct (_ && _)%bool eqn:E.
        -- apply andb_true_iff in E. destruct E as [_ E].
           apply Nat.ltb_lt in E. right. exists el.
           split; [apply in_or_app; right; now left|].
           split; [reflexivity|]. now split.
        -- destruct H1 as [->|(x & Hx & H1)]; [now left|right].
           exists x. split; [apply in_or_app; now left|exact H1].
    + intros x Hx Hb Hl. apply in_app_or in Hx.
      destruct Hx as [Hx|[<-|[]]].
      * specialize (H2 x Hx Hb Hl).
        destruct (V2.isLikelyBoilerplate (h_elem el) _); [exact H2|].
        destruct (_ && _)%bool eqn:E; [|exact H2].
        apply andb_true_iff in E. destruct E as [E _].
        apply Nat.ltb_lt in E. lia.
      * rewrite Hb. destruct (_ && _)%bool eqn:E; [lia|].
        apply andb_false_iff in E. destruct E as [E|E].
        -- apply Nat.ltb_ge in E. exact E.
        -- apply Nat.ltb_ge in E. lia.
Qed.

End Fallbacks.

(** X25. [findLargestTextBlock] returns the longest block that qualifies:
    its result is empty or the trimmed text, of more than 100 code units, of
    a [div], [section], [article] or [main] element that is not taken for
    boilerplate, and no such element has a longer text. *)
Theorem findLargestTextBlock_is_largest {P : Platform} (doc : DocumentTree) :
  let blocks := select "div, section, article, main" doc in
  let r := V2.findLargestTextBlock doc in
  (r = []
   \/ exists el, In el blocks /\ r = trim (text (h_elem el))
                 /\ V2.isLikelyBoilerplate (h_elem el) r = false
                 /\ 100 < List.length r)
  /\ (forall el, In el blocks ->
        V2.isLikelyBoilerplate (h_elem el) (trim (text (h_elem el))) = false ->
        100 < List.length (trim (text (h_elem el))) ->
        List.length (trim (text (h_elem el))) <= List.length r).
Proof.
  cbv zeta. unfold V2.findLargestTextBlock.
  apply (largest_fold (select "div, section, article, main" doc) [] []).
  - now left.
  - intros el [].
Qed.

(** ** The paragraph groups *)

Section Paragraphs.
Import ParagraphSpec.

Lemma paragraph_groups (els : list hit) (groups : list (list jsstring))
  (current : list jsstring) :
  (let '(groups', current') :=
     fold_left
       (fun (st : list (list jsstring) * list jsstring) (el : hit) =>
          let t := trim (text (h_elem el)) in
          if 20 <? List.length t then (fst st, snd st ++ [t])
          else
            match snd st with
            | _ :: _ => (fst st ++ [snd st], [])
            | [] => st
            end)
       els (groups, current) in
   match current' with
   | _ :: _ => groups' ++ [current']
   | [] => groups'
   end)
  = groups ++ groupsOf (List.map (fun el => trim (text (h_elem el))) els)
                current.
Proof.
  revert groups current. induction els as [|el els IH]; intros groups current.
  - cbn [fold_left List.map groupsOf].
    destruct current; [now rewrite app_nil_r|reflexivity].
  - cbn [fold_left List.map groupsOf]. cbv zeta. unfold long. cbn [fst snd].
    destruct (20 <? _).
    + apply IH.
    + destruct current as [|x current].
      * apply IH.
      * rewrite IH, <- app_assoc. reflexivity.
Qed.

Lemma forallb_long_nil_end (l : list jsstring) :
  forallb long l = true -> endsShort l -> l = [].
Proof.
  intros Hl [->|(p & t & -> & Ht)]; [reflexivity|].
  rewrite forallb_app in Hl. apply andb_true_iff in Hl.
  cbn [forallb] in Hl. rewrite Ht in Hl. now destruct Hl.
Qed.

Lemma forallb_long_nil_start (l : list jsstring) :
  forallb long l = true -> startsShort l -> l = [].
Proof.
  intros Hl [->|(t & p & -> & Ht)]; [reflexivity|].
  cbn [forallb] in Hl. rewrite Ht in Hl. discriminate.
Qed.

Lemma endsShort_cons (pre : list jsstring) (t : jsstring) (l : list jsstring) :
  long t = false -> endsShort pre -> endsShort (l ++ t :: pre).
Proof.
  intros Ht [->|(p & x & -> & Hx)]; right.
  - exists l, t. now split.
  - exists (l ++ t :: p), x. split; [|exact Hx].
    rewrite <- app_assoc. reflexivity.
Qed.

Lemma endsShort_tail (l pre : list jsstring) (t : jsstring) :
  endsShort (l ++ t :: pre) -> endsShort pre.
Proof.
  intros [E|(p & x & E & Hx)].
  - now destruct l.
  - destruct pre as [|y pre]; [now left|right].
    destruct (exists_last (l := y :: pre) ltac:(discriminate))
      as (q & z & Eq).
    rewrite Eq in E |- *. exists q, z. split; [reflexivity|].
    change (l ++ t :: q ++ [z]) with (l ++ (t :: q) ++ [z]) in E.
    rewrite app_assoc in E. apply app_inj_tail in E. destruct E as [_ <-].
    exact Hx.
Qed.

(** [groupsOf] lists the runs, all of them. *)
Lemma groupsOf_runs (ps current g : list jsstring) :
  forallb long current = true ->
  In g (groupsOf ps current)
  <-> exists pre post, run (current ++ ps) pre g post.
Proof.
  revert current. induction ps as [|t ps IH]; intros current Hc.
  - cbn [groupsOf]. rewrite app_nil_r. split.
    + destruct current as [|x current]; [intros []|intros [<-|[]]].
      exists [], []. unfold run. rewrite app_nil_r.
      repeat split; try discriminate; try exact Hc; now left.
    + intros (pre & post & E & Hg & Hl & Hpre & Hpost).
      subst current. rewrite !forallb_app in Hc.
      apply andb_true_iff in Hc. destruct Hc as [Hp Hc].
      apply andb_true_iff in Hc. destruct Hc as [_ Hq].
      rewrite (forallb_long_nil_end pre Hp Hpre).
      rewrite (forallb_long_nil_start post Hq Hpost).
      cbn [List.app]. rewrite app_nil_r.
      destruct g; [contradiction|now left].
  - cbn [groupsOf]. destruct (long t) eqn:Ht.
    + rewrite IH.
      * rewrite <- app_assoc. reflexivity.
      * rewrite forallb_app, Hc. cbn [forallb]. now rewrite Ht.
    + assert (Hrest : In g (groupsOf ps [])
                      <-> exists pre post, run ps pre g post)
        by (apply (IH []); reflexivity).
      assert (G : (current <> [] /\ g = current) \/ In g (groupsOf ps [])
                  <-> exists pre post, run (current ++ t :: ps) pre g post).
      { rewrite Hrest. split.
        - intros [[Hn ->]|(pre & post & E & Hg & Hl & Hpre & Hpost)].
          + exists [], (t :: ps). unfold run.
            repeat split; try assumption; [now left|].
            right. now exists t, ps.
          + exists (current ++ t :: pre), post. unfold run.
            repeat split; try assumption.
            * rewrite E, <- app_assoc. reflexivity.
            * now apply endsShort_cons.
        - intros (pre & post & E & Hg & Hl & Hpre & Hpost).
          apply app_eq_app in E. destruct E as (l & [[E1 E2]|[E1 E2]]).
          + subst current. rewrite forallb_app in Hc.
            apply andb_true_iff in Hc. destruct Hc as [Hp Hq].
            rewrite (forallb_long_nil_end pre Hp Hpre) in *.
            cbn [List.app] in *.
            apply app_eq_app in E2. destruct E2 as (l' & [[E3 E4]|[E3 E4]]).
            * destruct l' as [|x l'].
              -- rewrite app_nil_r in E3. subst l. left. now split.
              -- cbn [List.app] in E4. injection E4 as <- _. subst g.
                 rewrite forallb_app in Hl. apply andb_true_iff in Hl.
                 destruct Hl as [_ Hl]. cbn [forallb] in Hl.
                 rewrite Ht in Hl. discriminate.
            * destruct l' as [|x l'].
              -- rewrite app_nil_r in E3. subst l. left. now split.
              -- subst l post. rewrite forallb_app in Hq.
                 apply andb_true_iff in Hq. destruct Hq as [_ Hq].
                 destruct Hpost as [E|(y & p & E & Hy)]; [discriminate|].
                 cbn [List.app] in E. injection E as <- _.
                 cbn [forallb] in Hq.
                 rewrite Hy in Hq. discriminate.
          + destruct l as [|x l].
            * cbn [List.app] in E2. destruct g as [|y g]; [contradiction|].
              injection E2 as <- _. cbn [forallb] in Hl. rewrite Ht in Hl.
              discriminate.
            * cbn [List.app] in E2. injection E2 as <- E2. right. exists l, post. unfold run.
              repeat split; try assumption. subst pre.
              now apply endsShort_tail in Hpre. }
      destruct current as [|x current].
      * rewrite <- G. split; [now right|]. now intros [[[] _]|H].
      * rewrite <- G. split.
        -- intros [<-|H]; [left; now split|now right].
        -- intros [[_ ->]|H]; [now left|now right].
Qed.

Lemma groupsOf_nonempty (ps current : list jsstring) :
  existsb long (current ++ ps) = true ->
  forallb long current = true -> groupsOf ps current <> [].
Proof.
  revert current. induction ps as [|t ps IH]; intros current He Hc.
  - cbn [groupsOf]. rewrite app_nil_r in He.
    destruct current; [discriminate|discriminate].
  - cbn [groupsOf]. destruct (long t) eqn:Ht.
    + apply IH.
      * rewrite <- app_assoc. exact He.
      * rewrite forallb_app, Hc. cbn [forallb]. now rewrite Ht.
    + destruct current as [|x current]; [|discriminate].
      apply IH; [|reflexivity]. cbn [List.app existsb] in He |- *.
      now rewrite Ht in He.
Qed.

Lemma best_group (groups done : list (list jsstring)) (best : jsstring * nat) :
  (forall g, In g (done ++ groups) -> g <> []) ->
  (done = [] /\ best = ([], 0)
   \/ exists g, In g done /\ best = (join [10; 10]%N g, score g)
                /\ forall g', In g' done -> score g' <= score g) ->
  let best' :=
    fold_left
      (fun (best : jsstring * nat) group =>
         let c := join [10; 10]%N group in
         let score := List.length c + List.length group * 20 in
         if snd best <? score then (c, score) else best)
      groups best in
  done ++ groups = [] /\ best' = ([], 0)
  \/ exists g, In g (done ++ groups)
               /\ best' = (join [10; 10]%N g, score g)
               /\ forall g', In g' (done ++ groups) -> score g' <= score g.
Proof.
  revert done best. induction groups as [|group groups IH];
    intros done best Hn H.
  - cbn [fold_left]. rewrite app_nil_r. exact H.
  - cbn [fold_left]. cbv zeta.
    replace (done ++ group :: groups) with ((done ++ [group]) ++ groups)
      by (rewrite <- app_assoc; reflexivity).
    apply IH.
    + intros g Hg. apply Hn. rewrite <- app_assoc in Hg. exact Hg.
    + right. fold (score group).
      assert (Hs : 0 < score group).
      { assert (group <> [])
          by (apply Hn, in_or_app; right; now left).
        unfold score. destruct group; [contradiction|].
        cbn [List.length]. lia. }
      destruct H as [[-> ->]|(g & Hg & -> & Hmax)]; cbn [snd].
      * destruct (0 <? score group) eqn:E;
          [|apply Nat.ltb_ge in E; lia].
        exists group. split; [now left|]. split; [reflexivity|].
        intros g' [<-|[]]. lia.
      * destruct (score g <? score group) eqn:E.
        -- apply Nat.ltb_lt in E. exists group.
           split; [apply in_or_app; right; now left|].
           split; [reflexivity|].
           intros g' Hg'. apply in_app_or in Hg'.
           destruct Hg' as [Hg'|[<-|[]]]; [|lia].
           specialize (Hmax g' Hg'). lia.
        -- apply Nat.ltb_ge in E. exists g.
           split; [apply in_or_app; now left|].
           split; [reflexivity|].
           intros g' Hg'. apply in_app_or in Hg'.
           destruct Hg' as [Hg'|[<-|[]]]; [now apply Hmax|exact E].
Qed.

End Paragraphs.

(** X26. [extractFromParagraphs] returns the best run of paragraphs.  With
    the trimmed texts of the [p] elements in document order, a run is a
    maximal stretch of consecutive texts of more than 20 code units.  If no
    text is that long the result is empty; otherwise the result is the texts
    of one run, joined by two line feeds, and no run has a higher score
    (length of the joined text plus 20 for each paragraph). *)
Theorem extractFromParagraphs_best_run {P : Platform} (doc : DocumentTree) :
  let ps := List.map (fun el => trim (text (h_elem el))) (select "p" doc) in
  (existsb ParagraphSpec.long ps = false -> V2.extractFromParagraphs doc = [])
  /\ (existsb ParagraphSpec.long ps = true ->
      exists pre group post,
        ParagraphSpec.run ps pre group post
        /\ V2.extractFromParagraphs doc = join [10; 10]%N group
        /\ forall pre' group' post',
             ParagraphSpec.run ps pre' group' post' ->
             ParagraphSpec.score group' <= ParagraphSpec.score group).
Proof.
  cbv zeta. unfold V2.extractFromParagraphs. cbv zeta.
  pose proof (paragraph_groups (select "p" doc) [] []) as E.
  cbv zeta in E. revert E.
  match goal with
  | |- context [fold_left ?f (select "p" doc) ([], [])] =>
      generalize (fold_left f (select "p" doc) ([], []))
  end.
  intros [groups' current'] E. cbn [List.app] in E. cbv beta iota in E |- *.
  rewrite E. clear E.
  set (ps := List.map _ (select "p" doc)).
  assert (Hn : forall g, In g ([] ++ ParagraphSpec.groupsOf ps []) -> g <> []).
  { intros g Hg. apply (groupsOf_runs ps [] g eq_refl) in Hg.
    destruct Hg as (pre & post & _ & Hg & _). exact Hg. }
  pose proof (best_group (ParagraphSpec.groupsOf ps []) [] ([], 0) Hn
                (or_introl (conj eq_refl eq_refl))) as H.
  cbv zeta in H. cbn [List.app] in H. revert H.
  match goal with
  | |- context [fold_left ?f (ParagraphSpec.groupsOf ps []) ([], 0)] =>
      generalize (fold_left f (ParagraphSpec.groupsOf ps []) ([], 0))
  end.
  intros best H. split.
  - intros Hs. destruct H as [[_ ->]|(g & Hg & _)]; [reflexivity|].
    apply (groupsOf_runs ps [] g eq_refl) in Hg.
    destruct Hg as (pre & post & Ep & Hg & Hl & _). cbn [List.app] in Ep.
    rewrite Ep, !existsb_app in Hs. apply orb_false_iff in Hs.
    destruct Hs as [_ Hs]. apply orb_false_iff in Hs. destruct Hs as [Hs _].
    destruct g as [|x g]; [contradiction|]. cbn [forallb existsb] in Hl, Hs.
    destruct (ParagraphSpec.long x); discriminate.
  - intros Hs. destruct H as [[E _]|(g & Hg & -> & Hmax)].
    + now apply (groupsOf_nonempty ps []) in E.
    + apply (groupsOf_runs ps [] g eq_refl) in Hg.
      destruct Hg as (pre & post & Hrun). exists pre, g, post.
      split; [exact Hrun|]. split; [reflexivity|].
      intros pre' g' post' Hrun'. apply Hmax.
      apply (groupsOf_runs ps [] g' eq_refl). now exists pre', post'.
Qed.

(** ** The author of revision 3 *)

Lemma matchAt_by (n0 : nat) (s : jsstring) :
  matchAt n0 V3.re_by s
  = if Nat.eqb (List.length s) n0 then
      match s with
      | c1 :: c2 :: c3 :: s' =>
          if (chr_i 98%N c1 && chr_i 121%N c2 && isSpace c3)%bool
          then Some (dropWhile isSpace s') else None
      | _ => None
      end
    else None.
Proof.
  unfold matchAt.
  change V3.re_by
    with (Seq Bol (Seq (Seq (Chr (chr_i 98%N)) (Chr (chr_i 121%N)))
                       (Plus isSpace))).
  cbn [rmatch]. destruct (Nat.eqb (List.length s) n0); [|reflexivity].
  destruct s as [|c1 [|c2 [|c3 s']]]; try reflexivity.
  - now destruct (chr_i 98%N c1).
  - destruct (chr_i 98%N c1); [|reflexivity].
    now destruct (chr_i 121%N c2).
  - destruct (chr_i 98%N c1); [|reflexivity].
    destruct (chr_i 121%N c2); [|reflexivity]. cbn [andb].
    unfold Plus. cbn [rmatch].
    destruct (isSpace c3); [|reflexivity]. apply star_all. discriminate.
Qed.

Lemma search_by_later (n0 : nat) (s pre : jsstring) :
  List.length s < n0 -> search n0 V3.re_by pre s = None.
Proof.
  revert pre. induction s as [|c s IH]; intros pre Hl.
  - cbn [search]. rewrite matchAt_by.
    destruct (Nat.eqb_spec (List.length (@nil char)) n0) as [E|_];
      [cbn [List.length] in *; lia|reflexivity].
  - cbn [search]. rewrite matchAt_by.
    destruct (Nat.eqb_spec (List.length (c :: s)) n0) as [E|_]; [lia|].
    apply IH. cbn [List.length] in Hl. lia.
Qed.

(** Without its [by], a name that has no blank at either end still has
    none, and something is left of it. *)
Lemma replace_by_trimmed (t : jsstring) :
  t <> [] -> trim t = t ->
  replace V3.re_by [] t <> [] /\ trim (replace V3.re_by [] t) = replace V3.re_by [] t.
Proof.
  intros Hn Ht. unfold replace, exec.
  destruct t as [|c t]; [contradiction|]. cbn [search].
  rewrite matchAt_by, Nat.eqb_refl.
  rewrite (search_by_later _ t _ (Nat.lt_succ_diag_r _)).
  assert (Hkeep : (c :: t) <> [] /\ trim (c :: t) = c :: t)
    by (split; [discriminate|exact Ht]).
  destruct t as [|c2 [|c3 s]]; try exact Hkeep.
  destruct (chr_i 98%N c && chr_i 121%N c2 && isSpace c3)%bool eqn:E;
    [|exact Hkeep].
  apply andb_true_iff in E. destruct E as [_ E3]. cbn [List.app].
  assert (Hend : dropWhile isSpace (rev (c3 :: s)) = rev (c3 :: s)).
  { pose proof (trim_no_trailing (c :: c2 :: c3 :: s)) as H.
    rewrite Ht in H.
    change (c :: c2 :: c3 :: s) with ([c; c2] ++ c3 :: s) in H.
    rewrite rev_app_distr in H. revert H. apply dropWhile_prefix. }
  assert (Hd : dropWhile isSpace (c3 :: s) = dropWhile isSpace s)
    by (cbn [dropWhile]; now rewrite E3).
  pose proof (no_trailing_dropWhile (c3 :: s) Hend) as Hr. rewrite Hd in Hr.
  split.
  - intros E. pose proof (dropWhile_nil_rev (c3 :: s)) as H.
    rewrite Hd in H. specialize (H E). rewrite Hend in H.
    apply (f_equal (@List.length char)) in H. rewrite length_rev in H.
    discriminate.
  - unfold trim, trimStart, trimEnd. rewrite dropWhile_idem, Hr.
    apply rev_involutive.
Qed.

(** X27. An author found by revision 3 is never blank: the text is not empty
    and has no whitespace at either end, also after a leading [by] has been
    taken off. *)
Theorem author3_is_trimmed {P : Platform} (doc : DocumentTree) (r : jsstring) :
  V3.extractAuthor doc = Some r -> r <> [] /\ trim r = r.
Proof.
  unfold V3.extractAuthor. generalize V3.authorSelectors.
  intros selectors. induction selectors as [|selector rest IH];
    cbn [V3.extractAuthor_from]; [discriminate|].
  destruct (first (select selector doc)) as [element|]; [|exact IH].
  cbv zeta. destruct (truthy (trim (text (h_elem element)))) eqn:E;
    [|exact IH].
  intros H. injection H as <-. apply replace_by_trimmed.
  - intros E'. rewrite E' in E. discriminate.
  - apply trim_idem.
Qed.

(** ** Checking a feed *)

Section FeedCheck.
Import Feeds.

Lemma has_url_In (u : jsstring) (rows : list itemRow) :
  existsb (has_url u) rows = true
  <-> In u (List.map (fun r => Rss.url (item r)) rows).
Proof.
  rewrite existsb_exists, in_map_iff. unfold has_url.
  split; intros (r & H1 & H2).
  - exists r. split; [now apply str_eqb_eq|exact H1].
  - exists r. split; [exact H2|now apply str_eqb_eq].
Qed.

(** The loop only appends rows, one for each item whose URL is new, and
    stops at an [INSERT] that fails. *)
Lemma addItems_effect (fails : nat -> bool) (feedId : Z)
  (items : list Rss.Item) :
  forall (k n : nat) (t : Tables),
  exists added,
    snd (addItems fails k feedId items n t)
    = {| rss_feeds := rss_feeds t;
         rss_items := rss_items t ++ added;
         last_item_id := (last_item_id t + Z.of_nat (List.length added))%Z |}
    /\ List.length added <= List.length items
    /\ (forall r, In r added -> item_feed r = feedId /\ scraped r = false)
    /\ (NoDup (urls t) ->
        NoDup (urls t ++ List.map (fun r => Rss.url (item r)) added))
    /\ match fst (addItems fails k feedId items n t) with
       | Some n' =>
           n' = n + List.length added
           /\ forall it, In it items ->
                In (Rss.url it)
                   (urls t ++ List.map (fun r => Rss.url (item r)) added)
       | None => exists j, fails j = true
       end.
Proof.
  induction items as [|it items IH]; intros k n t.
  - exists []. cbn [addItems fst snd List.length List.map].
    rewrite !app_nil_r, Nat.add_0_r, Z.add_0_r.
    split; [now destruct t|]. split; [lia|]. split; [intros r []|].
    split; [now intros H|]. split; [reflexivity|intros x []].
  - cbn [addItems]. destruct (fails k) eqn:Ek.
    { exists []. cbn [fst snd List.length List.map].
      rewrite !app_nil_r, Z.add_0_r.
      split; [now destruct t|]. split; [lia|]. split; [intros r []|].
      split; [now intros H|]. now exists k. }
    unfold addRSSItem.
    destruct (existsb (has_url (Rss.url it)) (rss_items t)) eqn:E.
    + destruct (IH (S k) n t) as (added & Es & Hl & Hin & Hnd & Hres).
      exists added. split; [exact Es|]. split; [cbn [List.length]; lia|].
      split; [exact Hin|]. split; [exact Hnd|].
      destruct (fst (addItems fails (S k) feedId items n t)); [|exact Hres].
      destruct Hres as [Hn Hall]. split; [exact Hn|].
      intros x [<-|Hx]; [|now apply Hall].
      apply in_or_app. left. now apply has_url_In.
    + cbv zeta.
      set (row := {| item_id := (last_item_id t + 1)%Z; item_feed := feedId;
                     item := it; scraped := false; story_id := None |}).
      set (t1 := {| rss_feeds := rss_feeds t; rss_items := rss_items t ++ [row];
                    last_item_id := (last_item_id t + 1)%Z |}).
      destruct (IH (S k) (S n) t1) as (added & Es & Hl & Hin & Hnd & Hres).
      exists (row :: added). rewrite Es.
      cbn [List.length List.map rss_feeds rss_items last_item_id t1].
      assert (Eu : urls t1 = urls t ++ [Rss.url it]).
      { unfold urls, t1. cbn [rss_items]. now rewrite map_app. }
      rewrite Eu, <- !app_assoc in *. cbn [List.app] in *.
      split.
      { f_equal. lia. }
      split; [lia|].
      split.
      { intros r [<-|Hr]; [now split|]. now apply Hin. }
      split.
      { intros H. apply Hnd.
        apply NoDup_app; [exact H|repeat constructor; intros []|].
        intros u Hu [<-|[]].
        assert (existsb (has_url (Rss.url it)) (rss_items t) = true)
          by now apply has_url_In.
        congruence. }
      destruct (fst (addItems fails (S k) feedId items (S n) t1));
        [|exact Hres].
      destruct Hres as [Hn Hall]. split; [lia|].
      intros x [<-|Hx]; [|now apply Hall].
      apply in_or_app. right. now left.
Qed.


Lemma addItems_resolves (feedId : Z) (items : list Rss.Item) :
  forall (fails : nat -> bool) (k n : nat) (t : Tables),
    (forall j, fails j = false) ->
    fst (addItems fails k feedId items n t) <> None.
Proof.
  induction items as [|it items IH]; intros fails k n t Hf;
    cbn [addItems]; [discriminate|].
  rewrite Hf. unfold addRSSItem.
  destruct (existsb _ _); now apply IH.
Qed.

Lemma parseRSSItems_some (xmlText : jsstring) :
  exists items, Rss.parseRSSItems xmlText = Some items.
Proof.
  unfold Rss.parseRSSItems, Groups.execAll.
  destruct (execAll_go_total (List.length xmlText) Rss.item_open Rss.item_close
              (tag_open_consumes "item") xmlText 0) as [groups ->].
  eexists. reflexivity.
Qed.


(** What a run leaves behind, whether it resolves or rejects. *)
Lemma checkRSSFeed_effect (fails : nat -> bool)
  (fetch : jsstring -> option jsstring) (now : nat) (feedId : Z)
  (t : Tables) :
  exists added,
    rss_items (snd (checkRSSFeed fails fetch now feedId t))
    = rss_items t ++ added
    /\ (fst (checkRSSFeed fails fetch now feedId t) = None ->
        rss_feeds (snd (checkRSSFeed fails fetch now feedId t)) = rss_feeds t).
Proof.
  unfold checkRSSFeed.
  assert (Hsame : exists added : list itemRow,
             rss_items t = rss_items t ++ added
             /\ ((@None CheckResult) = None -> rss_feeds t = rss_feeds t))
    by (exists []; now rewrite app_nil_r).
  destruct (fails 0); [exact Hsame|].
  destruct (getFeed feedId t) as [f|]; [|exact Hsame].
  destruct (fetch (feed_url f)) as [xmlText|]; [|exact Hsame].
  destruct (Rss.parseRSSItems xmlText) as [items|]; [|exact Hsame].
  destruct (addItems_effect fails feedId items 1 0 t)
    as (added & Es & _).
  destruct (addItems fails 1 feedId items 0 t) as [[n|] t'];
    cbn [snd] in Es; subst t'.
  - destruct (fails (S (List.length items))); cbn [fst snd rss_items rss_feeds
                                                   setLastChecked].
    + exists added. now split.
    + exists added. split; [reflexivity|discriminate].
  - cbn [fst snd rss_items rss_feeds]. exists added. now split.
Qed.

End FeedCheck.


(** X29. [checkRSSFeed] rejects with both tables as they were when no feed
    has the id or when the request for the feed fails.  A run that rejects,
    for whatever reason, has not written [last_checked] and has at most
    added item rows.  Apart from the two cases above a run rejects only
    when a database statement reports an error: no text that the request
    returns makes it reject. *)
Theorem checkRSSFeed_rejects_cleanly (fails : nat -> bool)
  (fetch : jsstring -> option jsstring) (now : nat) (feedId : Z)
  (t : Feeds.Tables) :
  (Feeds.getFeed feedId t = None
   \/ (exists f, Feeds.getFeed feedId t = Some f
                 /\ fetch (Feeds.feed_url f) = None) ->
   Feeds.checkRSSFeed fails fetch now feedId t = (None, t))
  /\ (fst (Feeds.checkRSSFeed fails fetch now feedId t) = None ->
      Feeds.rss_feeds (snd (Feeds.checkRSSFeed fails fetch now feedId t))
      = Feeds.rss_feeds t
      /\ exists added,
           Feeds.rss_items (snd (Feeds.checkRSSFeed fails fetch now feedId t))
           = Feeds.rss_items t ++ added)
  /\ (fst (Feeds.checkRSSFeed fails fetch now feedId t) = None ->
      Feeds.getFeed feedId t = None
      \/ (exists f, Feeds.getFeed feedId t = Some f
                    /\ fetch (Feeds.feed_url f) = None)
      \/ exists k, fails k = true).
Proof.
  split; [|split].
  - unfold Feeds.checkRSSFeed. intros [H|(f & H & Hf)]; rewrite H.
    + now destruct (fails 0).
    + rewrite Hf. now destruct (fails 0).
  - intros Hrej.
    destruct (checkRSSFeed_effect fails fetch now feedId t) as (added & E & Hf).
    split; [now apply Hf|now exists added].
  - unfold Feeds.checkRSSFeed.
    destruct (fails 0) eqn:E0; [intros _; right; right; now exists 0|].
    destruct (Feeds.getFeed feedId t) as [f|]; [|now left].
    destruct (fetch (Feeds.feed_url f)) as [xmlText|] eqn:Ex;
      [|intros _; right; left; now exists f].
    destruct (parseRSSItems_some xmlText) as [items ->].
    destruct (addItems_effect fails feedId items 1 0 t)
      as (added & _ & _ & _ & _ & Hres).
    destruct (Feeds.addItems fails 1 feedId items 0 t) as [[n|] t'];
      cbn [fst] in Hres.
    + destruct (fails (S (List.length items))) eqn:El; [|discriminate].
      intros _. right. right. now exists (S (List.length items)).
    + intros _. right. right. exact Hres.
Qed.

(** ** The content score (C5) *)

Section Score.
Context {P : Platform}.

(** The selector [p] looks at the tag alone. *)
Lemma matches_p (ancs : list einfo) (t : jsstring)
  (a : list (jsstring * jsstring)) :
  matches (sel "p") ancs (t, a) = str_eqb t (lit "p").
Proof.
  change (sel "p")
    with [[{| sel_tag := Some (lit "p"); sel_id := None; sel_classes := [];
              sel_attrs := [] |}]].
  unfold matches, matches_chain, matches_compound.
  cbn [existsb rev List.app sel_tag sel_id sel_classes sel_attrs forallb fst].
  assert (Ha : matches_ancestors [] ancs = true) by (now destruct ancs).
  rewrite Ha.
  rewrite !andb_true_r, orb_false_r. apply str_eqb_sym.
Qed.

Lemma select_p_count (n : node) :
  forall ancs parent,
    List.length (select_node (sel "p") ancs parent n) = ScoreSpec.paragraphsOf n.
Proof.
  induction n as [d|t a kids IH] using node_rect_nested; intros ancs parent;
    [reflexivity|].
  rewrite select_node_elem, length_app, matches_p.
  cbn [ScoreSpec.paragraphsOf]. f_equal.
  - now destruct (str_eqb t (lit "p")).
  - generalize (Some (Elem t a kids)) as parent'.
    generalize ((t, a) :: ancs) as ancs'. intros ancs' parent'.
    induction IH as [|k l Hk _ IHl]; [reflexivity|].
    cbn [flat_map]. now rewrite length_app, Hk, IHl.
Qed.

Lemma select_p_sum (ancs : list einfo) (parent : option node)
  (l : list node) :
  List.length (flat_map (select_node (sel "p") ancs parent) l)
  = list_sum (List.map ScoreSpec.paragraphsOf l).
Proof.
  induction l as [|k l IH]; [reflexivity|].
  cbn [flat_map List.map list_sum]. now rewrite length_app, select_p_count, IH.
Qed.

(** [$el.find('p').length] is the number of paragraphs below the element. *)
Lemma find_p_count (el : node) :
  List.length (find "p" el) = ScoreSpec.paragraphDescendants el.
Proof.
  destruct el as [d|t a kids]; [reflexivity|]. apply select_p_sum.
Qed.

End Score.

(** A line counts when something other than whitespace is on it. *)
Lemma trim_length_blank (line : jsstring) :
  (0 <? List.length (trim line)) = negb (forallb isSpace line).
Proof.
  destruct (trim line) as [|c s] eqn:E.
  - now rewrite (trim_nil_spaces line E).
  - cbn [List.length Nat.ltb Nat.leb].
    destruct (forallb isSpace line) eqn:Ef; [|reflexivity].
    exfalso. unfold trim, trimStart, trimEnd in E.
    assert (Hd : dropWhile isSpace line = []).
    { clear E. induction line as [|x l IH]; [reflexivity|].
      cbn [forallb] in Ef. apply andb_true_iff in Ef. destruct Ef as [Hx Hl].
      cbn [dropWhile]. rewrite Hx. now apply IH. }
    rewrite Hd in E. discriminate.
Qed.

Lemma nonEmptyLines_count (s : jsstring) :
  forall cur,
    List.length
      (List.filter (fun line => 0 <? List.length (trim line))
                   (splitChar 10%N cur s))
    = ScoreSpec.linesFrom (forallb isSpace cur) s.
Proof.
  induction s as [|c s IH]; intros cur;
    cbn [splitChar List.filter ScoreSpec.linesFrom].
  - rewrite trim_length_blank. now destruct (forallb isSpace cur).
  - destruct (char_eqb c 10%N).
    + cbn [List.filter]. pose proof (IH []) as H0. cbn [forallb] in H0.
      rewrite trim_length_blank, <- H0.
      now destruct (forallb isSpace cur).
    + rewrite IH, forallb_app. cbn [forallb]. now rewrite andb_true_r.
Qed.

Lemma avgLineLength_penalty (t : jsstring) (lines : list jsstring) :
  (if V2.Qltb (V2.avgLineLength t lines) (QArith_base.Qmake 30 1)
   then 100%Z else 0%Z)
  = ScoreSpec.shortLinePenalty (List.length t) (List.length lines).
Proof.
  unfold V2.avgLineLength, ScoreSpec.shortLinePenalty.
  destruct (List.length lines) as [|n]; [reflexivity|].
  rewrite (Qltb_quotient (List.length t) n 30).
  change (QArith_base.inject_Z 30) with (QArith_base.Qmake 30 1).
  now destruct (QArith_base.Qcompare _ _).
Qed.

(** C5. For every element and text, [scoreContentElement] returns the text
    length, plus 50 for each [p] element below the element at any depth,
    plus 100 for each of story/chapter/content/text/body/post occurring in
    the class attribute, minus 200 for each of nav/menu/sidebar/footer/header
    occurring there, minus 100 when the text has no non-empty line or its
    length divided by the number of its non-empty lines is below 30. *)
Theorem scoreContentElement_counts_descendants {P : Platform} (el : node)
  (t : jsstring) :
  V2.scoreContentElement el t
  = ScoreSpec.score (List.length t) (ScoreSpec.paragraphDescendants el)
      (ScoreSpec.className el) (ScoreSpec.nonEmptyLineCount t).
Proof.
  unfold V2.scoreContentElement, ScoreSpec.score. cbv zeta.
  rewrite !keywordScore_count, find_p_count.
  pose proof (avgLineLength_penalty t (V2.nonEmptyLines t)) as Hp.
  unfold V2.nonEmptyLines in Hp at 2.
  rewrite (nonEmptyLines_count t []) in Hp. cbn [forallb] in Hp.
  fold (ScoreSpec.nonEmptyLineCount t) in Hp. rewrite <- Hp.
  assert (Hc : match attr "class" el with Some c => c | None => [] end
               = ScoreSpec.className el) by (now destruct el).
  rewrite Hc.
  destruct (V2.Qltb _ _); lia.
Qed.
(* ================================================================== *)
(** * The engines at work on the sample pages *)
(* ================================================================== *)

Section SampleRuns.
#[local] Existing Instance Sample.platform.

Example index_links :
  V2.linksToScrapeOf V2.defaultOptions Sample.indexUrl Sample.index
  = Some ([Sample.link "http://a.com/s/2" "The long road north";
           Sample.link "http://a.com/s/1" "A tale of two rivers, continued"], 5).
Proof. vm_compute. reflexivity. Qed.

Lemma sameDomainOnly_links_witness :
  V2.sameDomainOnly V2.defaultOptions = true
  /\ V2.linksToScrapeOf V2.defaultOptions Sample.indexUrl Sample.index
     = Some ([Sample.link "http://a.com/s/2" "The long road north";
              Sample.link "http://a.com/s/1" "A tale of two rivers, continued"], 5)
  /\ forall link,
       In link [Sample.link "http://a.com/s/2" "The long road north";
                Sample.link "http://a.com/s/1" "A tale of two rivers, continued"] ->
       exists d, URL_hostname (V2.link_url link) = Some d
                 /\ URL_hostname Sample.indexUrl = Some d.
Proof.
  split; [reflexivity|]. split; [vm_compute; reflexivity|].
  apply (sameDomainOnly_links V2.defaultOptions
           Sample.indexUrl Sample.index _ 5).
  - reflexivity.
  - vm_compute. reflexivity.
Defined.

Lemma unique_links_keep_last_witness :
  NoDup (List.map V2.link_url
           [Sample.link "http://a.com/s/2" "The long road north";
            Sample.link "http://a.com/s/1" "A tale of two rivers, continued"])
  /\ List.map V2.link_url
       [Sample.link "http://a.com/s/2" "The long road north";
        Sample.link "http://a.com/s/1" "A tale of two rivers, continued"]
     = slice0 (V2.maxLinks V2.defaultOptions)
         (firstOccurrences
            (List.map V2.link_url
               (LinkSpec.passingLinks V2.defaultOptions Sample.indexUrl
                  Sample.index)))
  /\ forall link,
       In link [Sample.link "http://a.com/s/2" "The long road north";
                Sample.link "http://a.com/s/1" "A tale of two rivers, continued"] ->
       LinkSpec.lastWithUrl (V2.link_url link)
         (LinkSpec.passingLinks V2.defaultOptions Sample.indexUrl Sample.index)
       = Some link.
Proof.
  apply (unique_links_keep_last V2.defaultOptions
           Sample.indexUrl Sample.index _ 5).
  vm_compute. reflexivity.
Defined.

(** The page scan of the sample index returns, for the story linked three
    times, the text of its last link, after a story that the raw scan meets
    later: neither the order of the raw scan nor its first link is kept. *)
Lemma keepsFirstSeen_fails :
  ~ LinkSpec.keepsFirstSeen V2.defaultOptions Sample.indexUrl Sample.index.
Proof.
  intros H.
  destruct (H _ _ index_links) as [_ [_ Hfirst]].
  specialize (Hfirst (Sample.link "http://a.com/s/1" "A tale of two rivers, continued")
                     (or_intror (or_introl eq_refl))).
  vm_compute in Hfirst. discriminate.
Qed.

Example index_order_differs :
  LinkSpec.subsequence
    (List.map V2.link_url
       [Sample.link "http://a.com/s/2" "The long road north";
        Sample.link "http://a.com/s/1" "A tale of two rivers, continued"])
    (firstOccurrences
       (List.map V2.link_url
          (V2.allLinksOf V2.defaultOptions Sample.indexUrl Sample.index)))
  = false.
Proof. vm_compute. reflexivity. Qed.

Lemma allowlist_ignores_case_witness :
  V2.filterPatterns Sample.onlyStory <> []
  /\ URL_hostname (V2.link_url (Sample.link "http://a.com/story-one" "First one"))
     = Some (lit "a.com")
  /\ V2.rejected Sample.onlyStory (lit "a.com") (lit "a.com")
       (Sample.link "http://a.com/story-one" "First one") = false
  /\ (V2.linkFilter Sample.onlyStory (lit "a.com")
        (Sample.link "http://a.com/story-one" "First one") = Some true
      <-> exists pattern,
            In pattern (V2.filterPatterns Sample.onlyStory)
            /\ (includes (toLowerCase (lit "http://a.com/story-one"))
                         (toLowerCase pattern) = true
                \/ includes (toLowerCase (lit "First one" ++ lit " " ++ lit "First one"))
                            (toLowerCase pattern) = true)).
Proof.
  split; [discriminate|]. split; [reflexivity|]. split; [vm_compute; reflexivity|].
  apply (allowlist_ignores_case Sample.onlyStory
           (lit "a.com") (lit "a.com")
           (Sample.link "http://a.com/story-one" "First one")).
  - discriminate.
  - reflexivity.
  - vm_compute. reflexivity.
Defined.

(** With [filterPatterns: ['Story']] the link to [http://a.com/story-one]
    is kept although [Story] occurs neither in its URL nor in its text. *)
Lemma allowlistBySubstring_fails :
  ~ LinkSpec.allowlistBySubstring Sample.onlyStory (lit "a.com")
      (Sample.link "http://a.com/story-one" "First one").
Proof.
  intros H.
  assert (Hne : V2.filterPatterns Sample.onlyStory <> []) by discriminate.
  assert (Hrej : V2.rejected Sample.onlyStory (lit "a.com") (lit "a.com")
                   (Sample.link "http://a.com/story-one" "First one") = false)
    by (vm_compute; reflexivity).
  destruct (H Hne (lit "a.com") eq_refl Hrej) as [Hkept _].
  assert (Hk : V2.linkFilter Sample.onlyStory (lit "a.com")
                 (Sample.link "http://a.com/story-one" "First one") = Some true)
    by (vm_compute; reflexivity).
  destruct (Hkept Hk) as [pattern [Hin Hocc]].
  destruct Hin as [<-|[]].
  vm_compute in Hocc. destruct Hocc; discriminate.
Qed.

Example shortPage_content :
  List.length (fst (V2.extractContent Sample.shortPage)) = 50.
Proof. vm_compute. reflexivity. Qed.

Example longPage_content :
  List.length (fst (V2.extractContent Sample.longPage)) = 2000.
Proof. vm_compute. reflexivity. Qed.

Lemma crawl_duplicate_short_long_witness :
  V2.minContentLength V2.defaultOptions = 500%Z
  /\ List.length (fst (V2.extractContent Sample.shortPage)) = 50
  /\ List.length (fst (V2.extractContent Sample.longPage)) = 2000
  /\ exists report w',
       V2.crawl Sample.web Sample.shelfUrl 3 V2.defaultOptions
         [Sample.link "http://a.com/s/1" "A tale of two rivers";
          Sample.link "http://a.com/s/2" "A stub of a story";
          Sample.link "http://a.com/s/3" "The long road north"] Sample.seeded
       = (Some report, w')
       /\ V2.summary report
          = {| V2.successful := 1; V2.skipped := 2; V2.failed := 0 |}
       /\ V2.results report
          = [CrawlSpec.outcome (Sample.link "http://a.com/s/1" "A tale of two rivers")
               (V2.st_skipped V2.already_exists);
             CrawlSpec.outcome (Sample.link "http://a.com/s/2" "A stub of a story")
               (V2.st_skipped V2.content_too_short);
             CrawlSpec.outcome (Sample.link "http://a.com/s/3" "The long road north")
               (V2.st_success (CrawlSpec.extracted Sample.longPage (lit "a.com")))]
       /\ V2.errors report = []
       /\ visited w'
          = visited Sample.seeded
            ++ [V2.link_url (Sample.link "http://a.com/s/2" "A stub of a story");
                V2.link_url (Sample.link "http://a.com/s/3" "The long road north")].
Proof.
  split; [reflexivity|]. split; [vm_compute; reflexivity|].
  split; [vm_compute; reflexivity|].
  apply (crawl_duplicate_short_long Sample.web Sample.shelfUrl 3
           V2.defaultOptions
           (Sample.link "http://a.com/s/1" "A tale of two rivers")
           (Sample.link "http://a.com/s/2" "A stub of a story")
           (Sample.link "http://a.com/s/3" "The long road north")
           Sample.shortPage Sample.longPage (lit "a.com") (lit "a.com")
           Sample.seeded).
  - vm_compute. discriminate.
  - vm_compute. reflexivity.
  - vm_compute. reflexivity.
  - vm_compute. reflexivity.
  - vm_compute. reflexivity.
  - vm_compute. reflexivity.
  - vm_compute. reflexivity.
  - vm_compute. reflexivity.
  - vm_compute. discriminate.
Defined.

(** The same crawl, started from the shelf page that carries the three
    links. *)
Example shelf_summary :
  option_map V2.summary
    (fst (V2.scrapeLinksFromPage Sample.web Sample.shelfUrl V2.defaultOptions
            Sample.seeded))
  = Some {| V2.successful := 1; V2.skipped := 2; V2.failed := 0 |}.
Proof. vm_compute. reflexivity. Qed.

Lemma too_short_leaves_no_record_witness :
  exists w1 w',
    V2.scrape Sample.web Sample.urlB Sample.seeded
    = (Some (CrawlSpec.extracted Sample.shortPage (lit "a.com")), w1)
    /\ Store.getStoryByUrl Sample.urlB (db w1) <> None
    /\ V2.scrapeLink Sample.web 500
         (Sample.link "http://a.com/s/2" "A stub of a story") ([], [])
         Sample.seeded
       = (Some ([] ++ [CrawlSpec.outcome
                        (Sample.link "http://a.com/s/2" "A stub of a story")
                        (V2.st_skipped V2.content_too_short)], []), w')
    /\ Store.getStoryByUrl Sample.urlB (db w') = None
    /\ Store.rows (db w') = Store.rows (db Sample.seeded).
Proof.
  apply (too_short_leaves_no_record Sample.web 500
           (Sample.link "http://a.com/s/2" "A stub of a story") [] []
           Sample.seeded Sample.shortPage (lit "a.com")).
  - vm_compute. reflexivity.
  - vm_compute. reflexivity.
  - vm_compute. reflexivity.
  - vm_compute. reflexivity.
Defined.

Lemma scrape_replaces_record_witness :
  Store.getStoryByUrl Sample.urlB
    (db (snd (V2.scrape Sample.web Sample.urlB Sample.seeded))) <> None
  /\ exists w',
       V2.scrape Sample.web Sample.urlB
         (snd (V2.scrape Sample.web Sample.urlB Sample.seeded))
       = (Some (CrawlSpec.extracted Sample.shortPage (lit "a.com")), w')
       /\ List.map Store.id (Store.rows (db w')) = [1; 3]%Z
       /\ List.map Store.url (Store.rows (db w')) = [Sample.urlA; Sample.urlB].
Proof.
  split; [vm_compute; discriminate|].
  assert (Hweb : Sample.web Sample.urlB = Some Sample.shortPage)
    by (vm_compute; reflexivity).
  assert (Hhost : URL_hostname Sample.urlB = Some (lit "a.com"))
    by (vm_compute; reflexivity).
  destruct (proj1 (scrape_replaces_record Sample.web)
              Sample.urlB Sample.shortPage (lit "a.com")
              (snd (V2.scrape Sample.web Sample.urlB Sample.seeded))
              Hweb Hhost) as [w' [Hrun [Hrows _]]].
  exists w'. split; [exact Hrun|]. rewrite Hrows.
  split; vm_compute; reflexivity.
Defined.

(** ** Titles *)

(** The heading [Moonlight \u2014 Read Online Free] of the design's example. *)
Example moonlight_em_dash :
  V2.extractTitle
    (Sample.page []
       [Elem (lit "h1") [(lit "class", lit "story-title")]
          [Text (lit "Moonlight " ++ [8212%N] ++ lit " Read Online Free")]])
  = lit "Moonlight".
Proof. vm_compute. reflexivity. Qed.


Example moonlight :
  V2.cleanTitle (lit "Moonlight - Read Online Free") = lit "Moonlight".
Proof. vm_compute. reflexivity. Qed.

Lemma cleanTitle_twice_witness :
  V2.cleanTitle (V2.cleanTitle (lit "Moonlight - Read Online Free"))
  = V2.cleanTitle (lit "Moonlight - Read Online Free").
Proof.
  apply (proj2 (cleanTitle_twice (lit "Moonlight - Read Online Free"))).
  intros r Hr.
  assert (H : forallb (fun r => negb (test r (V2.cleanTitle
                                            (lit "Moonlight - Read Online Free"))))
                      V2.cleaning_rules = true) by (vm_compute; reflexivity).
  rewrite forallb_forall in H. apply negb_true_iff. now apply H.
Defined.

(** A title with two role markers: each cleaning strips one of them. *)
Lemma cleanTitle_not_idempotent :
  V2.cleanTitle (V2.cleanTitle (lit "Story: Chapter: One"))
  <> V2.cleanTitle (lit "Story: Chapter: One").
Proof. vm_compute. discriminate. Qed.

Example cleanTitle_steps :
  V2.cleanTitle (lit "Story: Chapter: One") = lit "Chapter: One"
  /\ V2.cleanTitle (lit "Chapter: One") = lit "One".
Proof. split; vm_compute; reflexivity. Qed.

(** C7. For the page whose only heading reads "Story", [extractTitle]
    accepts the heading by its length (5 code units) and returns what
    [cleanTitle] leaves of it, the empty string; the same text in the
    [title] element alone is measured again after cleaning and gives the
    sentinel. *)
Theorem extractTitle_empty :
  V2.extractTitle Sample.storyPage = []
  /\ V2.extractTitle (Sample.page [Sample.el "title" [] [Sample.txt "Story"]] [])
     = lit "Untitled Story".
Proof. split; vm_compute; reflexivity. Qed.

(** ** Word counts *)

(** C1. For the page without content, [scrape] resolves with the empty
    string as content and with 1 as word count, and stores both, whereas the
    empty string has no token. *)
Theorem scrape_empty_page_wordCount :
  exists r w',
    V2.scrape Sample.web (lit "http://a.com/empty")
      {| db := Store.created; visited := [] |} = (Some r, w')
    /\ V2.content r = []
    /\ V2.wordCount r = 1
    /\ List.map Store.word_count (Store.rows (db w')) = [1]
    /\ List.length (WordSpec.tokens (V2.content r)) = 0.
Proof.
  eexists. eexists. split; [vm_compute; reflexivity|].
  repeat split.
Qed.

(** ** Engine revision 3 on the sample pages *)

(** C6. The batch scrape of revision 3 over the three links (the first
    already stored, the second rendering to the short page, the third to the
    long one) with its default options counts two successes and one skip.
    Its test for a page that is too short reads [result.wordCount], and the
    object [scrape] resolves with has no such property: the short page,
    stored with 3 words against a [minWordCount] of 100, is counted as a
    success, and its outcome is not a skip. *)
Theorem batch_duplicate_short_long :
  exists results w',
    V3.batchScrapeFromLinks Sample.web
      [Sample.link3 "http://a.com/s/1" "A tale of two rivers";
       Sample.link3 "http://a.com/s/2" "A stub of a story";
       Sample.link3 "http://a.com/s/3" "The long road north"]
      V3.defaultBatchOptions Sample.seeded = (Some results, w')
    /\ V3.minWordCount V3.defaultBatchOptions = 100%Z
    /\ V3.successful results = 2
    /\ V3.skipped results = 1
    /\ V3.failed results = 0
    /\ List.map Store.url (Store.rows (db w'))
       = [Sample.urlA; Sample.urlB; Sample.urlC]
    /\ List.map Store.word_count (Store.rows (db w')) = [4; 3; 201].
Proof.
  eexists. eexists. split; [vm_compute; reflexivity|]. repeat split.
Qed.

(** C8. In revision 3 the record of a page that is too short stays.  The
    batch scrape of the link to the short page, which has no record
    beforehand, lets [scrape] store the page with its 3 words, below
    [minWordCount] = 100; the link is counted as a success, not as a skip,
    and the record is still in the table when the batch is over: nothing in
    the loop deletes it. *)
Theorem batch_keeps_short_record :
  exists results w',
    V3.batchScrapeFromLinks Sample.web
      [Sample.link3 "http://a.com/s/2" "A stub of a story"]
      V3.defaultBatchOptions Sample.seeded = (Some results, w')
    /\ V3.minWordCount V3.defaultBatchOptions = 100%Z
    /\ Store.getStoryByUrl Sample.urlB (db Sample.seeded) = None
    /\ V3.successful results = 1
    /\ V3.skipped results = 0
    /\ option_map Store.word_count (Store.getStoryByUrl Sample.urlB (db w'))
       = Some 3.
Proof.
  eexists. eexists. split; [vm_compute; reflexivity|]. repeat split.
Qed.

(** In revision 3 the content is never empty, but it can start with the
    blank lines that join an empty first paragraph to the next one; the word
    count then exceeds the number of tokens by one. *)
Example wordCount_leading_blank :
  exists story w',
    V3.scrape Sample.web (lit "http://a.com/blank")
      {| db := Store.created; visited := [] |} = (Some (V3.fresh story), w')
    /\ V3.wordCount story = 61
    /\ List.length (WordSpec.tokens (V3.content story)) = 60.
Proof.
  eexists. eexists. split; [vm_compute; reflexivity|].
  split; vm_compute; reflexivity.
Qed.

(** ** Further examples of the design *)

Example author_john_smith :
  V2.cleanAuthor (lit "Written by John Smith writes for...")
  = Some (lit "John Smith").
Proof. vm_compute. reflexivity. Qed.

Example excluded_jpg :
  V2.linkFilter V2.defaultOptions (lit "site.com")
    (Sample.link "http://site.com/a.jpg" "A picture of the story")
  = Some false.
Proof. vm_compute. reflexivity. Qed.

Example article_beats_nav :
  fst (V2.extractContent
         (Sample.page []
            [Sample.el "div" [("class", "nav")%string] [Sample.txt "Home Page "];
             Sample.el "div" [("class", "nav")%string] [Sample.txt "About Us  "];
             Sample.el "div" [("class", "nav")%string] [Sample.txt "Contact Us"];
             Sample.el "article" []
               (repeat (Elem (lit "p") [] [Text (Sample.letters 200)]) 4)]))
  = Sample.letters 800.
Proof. vm_compute. reflexivity. Qed.

Example score_of_story_nav :
  V2.scoreContentElement
    (Sample.el "div" [("class", "story-content nav")%string]
       [Sample.el "p" [] [Sample.txt "Once"]; Sample.el "p" [] [Sample.txt "upon"]])
    (lit "Onceupon")
  = (8 + 50 * 2 + 100 * 2 - 200 * 1 - 100)%Z.
Proof. vm_compute. reflexivity. Qed.

(** ** Further runs on the sample pages *)

Lemma author_is_a_name_witness :
  V2.extractAuthor Cases.bylinePage = Some (lit "Jane Doe")
  /\ (exists x, V2.cleanAuthor x = Some (lit "Jane Doe"))
  /\ TextSpec.authorName (lit "Jane Doe").
Proof.
  split; [vm_compute; reflexivity|].
  apply (author_is_a_name Cases.bylinePage). vm_compute. reflexivity.
Defined.

Lemma unwanted_elements_are_gone_witness :
  In "nav"%string V2.unwantedSelectors
  /\ List.length (select "nav" Cases.bylinePage) = 1
  /\ select "nav" (V2.removeUnwantedElements Cases.bylinePage) = []
  /\ select "nav" (snd (V2.extractContent Cases.bylinePage)) = [].
Proof.
  split; [vm_compute; auto|]. split; [vm_compute; reflexivity|].
  apply (unwanted_elements_are_gone Cases.bylinePage "nav").
  vm_compute. auto.
Defined.

Lemma unwanted_elements_are_gone_v3_witness :
  In ".sidebar"%string
     ["script"; "style"; "nav"; "header"; "footer"; ".sidebar"; ".menu";
      ".navigation"; ".ads"; ".advertisement"]%string
  /\ List.length (select ".sidebar" Cases.bylinePage) = 1
  /\ select ".sidebar" (snd (V3.extractContent Cases.bylinePage)) = [].
Proof.
  split; [simpl; auto 10|]. split; [vm_compute; reflexivity|].
  apply (unwanted_elements_are_gone_v3 Cases.bylinePage ".sidebar").
  simpl. auto 10.
Defined.

Lemma links_avoid_excluded_witness :
  V2.linksToScrapeOf V2.defaultOptions Sample.indexUrl Sample.index
  = Some ([Sample.link "http://a.com/s/2" "The long road north";
           Sample.link "http://a.com/s/1" "A tale of two rivers, continued"], 5)
  /\ In (Sample.link "http://a.com/s/2" "The long road north")
        [Sample.link "http://a.com/s/2" "The long road north";
         Sample.link "http://a.com/s/1" "A tale of two rivers, continued"]
  /\ (forall pattern, In pattern (V2.excludePatterns V2.defaultOptions) ->
        includes
          (toLowerCase
             (V2.link_url (Sample.link "http://a.com/s/2" "The long road north")))
          (toLowerCase pattern) = false)
  /\ 3 <= List.length
            (V2.link_text (Sample.link "http://a.com/s/2" "The long road north"))
  /\ arrayIncludes V2.genericTexts
       (toLowerCase
          (V2.link_text (Sample.link "http://a.com/s/2" "The long road north")))
     = false
  /\ (forall word, In word V2.excludeTexts ->
        includes
          (V2.lowerText (Sample.link "http://a.com/s/2" "The long road north"))
          word = true ->
        50 <= List.length
                (V2.lowerText
                   (Sample.link "http://a.com/s/2" "The long road north"))).
Proof.
  split; [vm_compute; reflexivity|]. split; [now left|].
  apply (links_avoid_excluded V2.defaultOptions Sample.indexUrl Sample.index
           [Sample.link "http://a.com/s/2" "The long road north";
            Sample.link "http://a.com/s/1" "A tale of two rivers, continued"]
           5 (Sample.link "http://a.com/s/2" "The long road north")).
  - vm_compute. reflexivity.
  - now left.
Defined.

Lemma scan_report_bounded_witness :
  exists report w',
    V2.scrapeLinksFromPage Sample.web Sample.indexUrl V2.defaultOptions
      Sample.seeded = (Some report, w')
    /\ V2.linksProcessed report <= V2.totalLinksFound report
    /\ ((0 <= V2.maxLinks V2.defaultOptions)%Z ->
        (Z.of_nat (V2.linksProcessed report)
         <= V2.maxLinks V2.defaultOptions)%Z)
    /\ exists fetched,
         visited w' = visited Sample.seeded ++ Sample.indexUrl :: fetched
         /\ List.length fetched <= V2.linksProcessed report.
Proof.
  eexists. eexists. split; [vm_compute; reflexivity|].
  apply (scan_report_bounded Sample.web Sample.indexUrl V2.defaultOptions
           Sample.seeded).
  vm_compute. reflexivity.
Defined.

Lemma batch_counts_known_story_witness :
  V3.skipExisting Cases.rescrape = false
  /\ (exists row,
        Store.getStoryByUrl Sample.urlA (db Sample.seeded) = Some row
        /\ V3.batchLink Sample.web Cases.rescrape
             (Sample.link3 "http://a.com/s/1" "A tale of two rivers")
             {| V3.successful := 0; V3.skipped := 0; V3.failed := 0;
                V3.stories := [] |} Sample.seeded
           = (Some (V3.countSuccessful
                      (V3.existing (Store.id row) (Store.title row))
                      {| V3.successful := 0; V3.skipped := 0; V3.failed := 0;
                         V3.stories := [] |}), Sample.seeded)).
Proof.
  split; [reflexivity|].
  destruct (Store.getStoryByUrl Sample.urlA (db Sample.seeded)) as [row|] eqn:E.
  - exists row. split; [reflexivity|].
    apply (batch_counts_known_story Sample.web Cases.rescrape
             (Sample.link3 "http://a.com/s/1" "A tale of two rivers") _
             Sample.seeded row); [reflexivity|exact E].
  - vm_compute in E. discriminate.
Defined.

(** ** The migration, the search statement, the feed reader and the export
    on sample inputs *)


Example oldTable_v2 :
  List.map (fun r => (Migration.word_count r, Migration.domain r))
    (Migration.updateExistingRecords_v2 Cases.oldTable)
  = [(Some 4, Some (lit "a.com")); (Some 0, None); (None, None);
     (Some 2, Some (lit "b.com"))].
Proof. vm_compute. reflexivity. Qed.

Example oldTable_v3 :
  List.map (fun r => (Migration.word_count r, Migration.domain r))
    (Migration.updateExistingRecords_v3 Cases.oldTable)
  = [(Some 4, Some (lit "a.com")); (Some 0, Some []); (None, None);
     (Some 2, Some (lit "b.com"))].
Proof. vm_compute. reflexivity. Qed.


Lemma search_statement_fixed_witness :
  Search.shape (Some (lit "moon")) Search.defaultOptions
  = Search.shape (Some (lit "x%' OR 1=1 --")) Search.defaultOptions
  /\ fst (Search.searchStories (Some (lit "moon")) Search.defaultOptions)
     = fst (Search.searchStories (Some (lit "x%' OR 1=1 --"))
              Search.defaultOptions).
Proof.
  split; [vm_compute; reflexivity|].
  apply (search_statement_fixed (Some (lit "moon"))
           (Some (lit "x%' OR 1=1 --")) Search.defaultOptions
           Search.defaultOptions).
  vm_compute. reflexivity.
Defined.

Example search_default :
  Search.searchStories (Some (lit " moon ")) Search.defaultOptions
  = (lit "SELECT * FROM stories WHERE 1=1 AND (title LIKE ? OR author LIKE ? OR content LIKE ?) ORDER BY scraped_at DESC LIMIT ?",
     [Search.PText (lit "%moon%"); Search.PText (lit "%moon%");
      Search.PText (lit "%moon%"); Search.PNumber 50]).
Proof. vm_compute. reflexivity. Qed.

Lemma cdata_is_transparent_witness :
  ~ In 93%N (lit " Moonlight & shadows ")
  /\ Rss.cleanXMLContent (lit "<![CDATA[" ++ lit " Moonlight & shadows " ++ lit "]]>")
     = Rss.cleanXMLContent (lit " Moonlight & shadows ")
  /\ (~ In 60%N (lit " Moonlight & shadows ") ->
      Rss.cleanXMLContent
        (lit "<![CDATA[" ++ lit " Moonlight & shadows " ++ lit "]]>")
      = trim (lit " Moonlight & shadows ")).
Proof.
  assert (H : ~ In 93%N (lit " Moonlight & shadows "))
    by (simpl; intuition discriminate).
  split; [exact H|].
  exact (cdata_is_transparent (lit " Moonlight & shadows ") H).
Defined.

Example cdata_with_markup :
  Rss.cleanXMLContent (lit "<![CDATA[ A <b>bold</b> tale ]]>")
  = lit "A bold tale".
Proof. vm_compute. reflexivity. Qed.

Lemma extractXMLTag_reads_element_witness :
  forallb V2.isAsciiLetter (lit "title") = true
  /\ ~ In 60%N (lit "  ")
  /\ ~ In 60%N (lit "Moonlight")
  /\ Rss.extractXMLTag
       (lit "  " ++ lit "<" ++ lit "title" ++ lit ">" ++ lit "Moonlight"
        ++ lit "</" ++ lit "title" ++ lit ">"
        ++ lit "<link>http://a.com/s/1</link>") "title" = lit "Moonlight"
  /\ Rss.extractXMLTag (lit "  ") "title" = [].
Proof.
  assert (H1 : forallb V2.isAsciiLetter (lit "title") = true) by reflexivity.
  assert (H2 : ~ In 60%N (lit "  ")) by (simpl; intuition discriminate).
  assert (H3 : ~ In 60%N (lit "Moonlight")) by (simpl; intuition discriminate).
  split; [exact H1|]. split; [exact H2|]. split; [exact H3|].
  exact (extractXMLTag_reads_element "title" (lit "  ") (lit "Moonlight")
           (lit "<link>http://a.com/s/1</link>") H1 H2 H3).
Defined.

Example feed_of_two :
  Rss.parseRSSItems
    (lit "<rss><channel><title>Stories</title><item><title>One</title><link>http://a.com/s/1</link><pubDate>Mon, 01 Jan 2024</pubDate></item><ITEM id='2'><title><![CDATA[Two <i>again</i>]]></title><link> http://a.com/s/2 </link><description>Second</description></ITEM><item><title>No link</title></item></channel></rss>")
  = Some [{| Rss.title := lit "One"; Rss.url := lit "http://a.com/s/1";
             Rss.description := []; Rss.pubDate := Some (lit "Mon, 01 Jan 2024") |};
          {| Rss.title := lit "Two again"; Rss.url := lit "http://a.com/s/2";
             Rss.description := lit "Second"; Rss.pubDate := None |}].
Proof. vm_compute. reflexivity. Qed.

Lemma csv_reads_back_witness :
  [Cases.quotedStory] <> []
  /\ CsvSpec.read
       (snd (fst (Exports.exportCSV [Cases.quotedStory] (lit "stories.csv"))))
     = Some (List.map lit Exports.headers
             :: List.map Exports.cells [Cases.quotedStory])
  /\ Exports.count (snd (Exports.exportCSV [Cases.quotedStory] (lit "stories.csv")))
     = List.length [Cases.quotedStory].
Proof.
  assert (H : [Cases.quotedStory] <> []) by discriminate.
  split; [exact H|].
  exact (csv_reads_back [Cases.quotedStory] (lit "stories.csv") H).
Defined.

Example csv_of_quoted_story :
  Exports.line Cases.quotedStory
  = [34%N] ++ lit "12" ++ [34; 44; 34]%N
    ++ lit "He said " ++ [34; 34]%N ++ lit "no" ++ [34; 34]%N ++ lit ", twice"
    ++ [10%N] ++ lit "and left" ++ [34; 44; 34; 34; 44; 34]%N
    ++ lit "a.com" ++ [34; 44; 34; 34; 44; 34]%N
    ++ lit "2024-05-01 10:00:00" ++ [34; 44; 34]%N
    ++ lit "http://a.com/s/1" ++ [34%N].
Proof. vm_compute. reflexivity. Qed.

Lemma scan3_links_pass_the_tests_witness :
  exists f link,
    V3.found V3.defaultOptions Sample.indexUrl Sample.index = Some f
    /\ In link (V3.linksToScrape f)
    /\ URL_hostname (V3.link_url link) = Some (V3.link_domain link)
    /\ List.length (V3.linksToScrape f) <= V3.uniqueLinks f.
Proof.
  eexists. eexists.
  split; [vm_compute; reflexivity|].
  assert (Hin : forall (x : V3.Link) (l : list V3.Link), In x (x :: l))
    by (intros x l; now left).
  split; [apply Hin|].
  match goal with
  | |- _ /\ List.length (V3.linksToScrape ?f) <= _ =>
      assert (H : V3.found V3.defaultOptions Sample.indexUrl Sample.index
                  = Some f) by (vm_compute; reflexivity);
      destruct (scan3_links_pass_the_tests V3.defaultOptions Sample.indexUrl
                  Sample.index f H) as (Hlinks & Hlen & _)
  end.
  split; [exact (proj1 (Hlinks _ (Hin _ _)))|exact Hlen].
Defined.

Example index_scan3 :
  option_map (fun f => (V3.totalFound f, V3.uniqueLinks f,
                        List.map V3.link_text (V3.linksToScrape f)))
    (V3.found V3.defaultOptions Sample.indexUrl Sample.index)
  = Some (4, 2, [lit "A tale of two rivers, continued";
                 lit "The long road north"]).
Proof. vm_compute. reflexivity. Qed.

Example short_page_has_no_content :
  fst (V3.extractContent Cases.bylinePage) = lit "No content found".
Proof. vm_compute. reflexivity. Qed.

Example two_runs_of_paragraphs :
  V2.extractFromParagraphs Cases.twoRuns
  = Sample.letters 30 ++ [10; 10]%N ++ repeat 121%N 30.
Proof. vm_compute. reflexivity. Qed.

Lemma author3_is_trimmed_witness :
  V3.extractAuthor Cases.bylinePage = Some (lit "Jane   Doe")
  /\ lit "Jane   Doe" <> [] /\ trim (lit "Jane   Doe") = lit "Jane   Doe".
Proof.
  assert (H : V3.extractAuthor Cases.bylinePage = Some (lit "Jane   Doe"))
    by (vm_compute; reflexivity).
  split; [exact H|].
  exact (author3_is_trimmed Cases.bylinePage (lit "Jane   Doe") H).
Defined.


(** A check whose second [INSERT] fails rejects after the first one has
    stored its row, and leaves [last_checked] as it was. *)
Example check_interrupted :
  let run :=
    Feeds.checkRSSFeed (fun k => Nat.eqb k 2) Cases.feedFetch 7 1
      Cases.feedTables in
  fst run = None
  /\ List.map (fun r => Rss.url (Feeds.item r)) (Feeds.rss_items (snd run))
     = [Sample.urlA; Sample.urlB]
  /\ List.map Feeds.last_checked (Feeds.rss_feeds (snd run)) = [None].
Proof. vm_compute. repeat split. Qed.

Lemma scrape_rejects_cleanly_witness :
  (Sample.web (lit "http://a.com/gone") = None
   \/ URL_hostname (lit "http://a.com/gone") = None)
  /\ V2.scrape Sample.web (lit "http://a.com/gone") Sample.seeded
     = (None, {| db := db Sample.seeded;
                 visited := visited Sample.seeded ++ [lit "http://a.com/gone"] |}).
Proof.
  assert (H : Sample.web (lit "http://a.com/gone") = None
              \/ URL_hostname (lit "http://a.com/gone") = None)
    by (left; vm_compute; reflexivity).
  split; [exact H|].
  exact (scrape_rejects_cleanly Sample.web (lit "http://a.com/gone")
           Sample.seeded H).
Defined.

(** An element whose only paragraph lies two levels down: it has no
    paragraph child, and the score counts the paragraph. *)
Lemma countsParagraphChildren_fails : ~ ScoreSpec.countsParagraphChildren.
Proof.
  intros H.
  specialize (H Cases.nestedParagraph (lit "Once upon a time")).
  vm_compute in H. discriminate.
Qed.

Lemma scoreContentElement_counts_descendants_witness :
  ScoreSpec.paragraphChildren Cases.nestedParagraph = 0
  /\ ScoreSpec.paragraphDescendants Cases.nestedParagraph = 1
  /\ V2.scoreContentElement Cases.nestedParagraph (lit "Once upon a time")
     = (16 + 50 * 1 - 100)%Z.
Proof.
  split; [reflexivity|]. split; [reflexivity|].
  rewrite (scoreContentElement_counts_descendants Cases.nestedParagraph
             (lit "Once upon a time")).
  vm_compute. reflexivity.
Defined.

(** A text of blank lines only has no non-empty line; the penalty applies. *)
Example score_of_blank_text :
  V2.scoreContentElement (Sample.el "div" [] []) [32; 10; 32]%N = (3 - 100)%Z
  /\ ScoreSpec.nonEmptyLineCount [32; 10; 32]%N = 0.
Proof. split; vm_compute; reflexivity. Qed.

(** The selector [[rel=author]] takes the value of [rel] in any case; the
    value of [itemprop] is compared as it is written. *)
Example rel_author_any_case :
  V3.extractAuthor
    (Sample.page []
       [Sample.el "a" [("rel", "AUTHOR")%string] [Sample.txt "By Jane Doe"]])
  = Some (lit "Jane Doe")
  /\ select "[itemprop=author]"
       (Sample.page []
          [Sample.el "span" [("itemprop", "AUTHOR")%string]
             [Sample.txt "Jane Doe"]])
     = [].
Proof. split; vm_compute; reflexivity. Qed.

End SampleRuns.
